(** * Session cost reconstruction and statistics: a shallow embedding

    This development embeds the algorithmic core of [scripts/workflow-cost.py]
    (path decoding, usage-log parsing, pricing, session aggregation and the
    statistics engine) and states the properties of its specification
    against that embedding.

    Modelling conventions.
    - The token counters are Python [int]s: they are embedded in the
      rationals [Q], where their sums are exact, and compared with [==].
      (A counter written as a JSON [float] is read as the rational it
      is written as.)
    - A monetary figure is a Python [float], an IEEE 754 binary64: the
      costs of [calculate_cost] and [analyze_session] (module [B64]) and
      the statistics of [generate_stats] (module [B64Stats]) are computed
      with Rocq's primitive floats, operation by operation in the order of
      the source, and compared with Leibniz equality or with the floats'
      own comparisons.
    - The pricing formula and the statistics engine are also read over
      the exact rationals ([calculate_cost], [generate_stats] outside the
      two modules), for the laws of order, counting and exclusion, which
      rounding does not touch.
    - A Python [str] is a Rocq [string], each character being the code
      point of the Python character, from U+0000 to U+00FF; the character
      classes of [re] and [str.strip] are Python's on that range.  The
      functions of the program read a character through its class and
      through its equality with the ASCII characters of the tags only.
    - A decoded JSON value is a [json] tree; a Python [dict] read from JSON
      is an association list with one binding per key, [None] is [JNull].
    - A Python exception that escapes a function is a [Raise] outcome of
      the error monad [Py]; code that cannot raise is a plain function.
    - [json.loads], the filesystem probe [Path.exists] and
      [datetime.fromisoformat] belong to the Python runtime, not to the
      program: they are parameters. *)

From Stdlib Require Import ZArith QArith Qround Qabs Bool List String Ascii Lia.
From Stdlib Require Import DecimalString.
From Stdlib Require Import Sorting.Sorted Lqa.
From Stdlib Require Import Floats.
Import ListNotations.

Set Warnings "-register-all".
Set Warnings "-inexact-float".
Local Open Scope string_scope.
Local Open Scope Q_scope.

(** ** Python outcomes *)

Inductive PyExn : Type :=
| AttributeError
| KeyError
| TypeError
| IndexError.

Inductive Py (A : Type) : Type :=
| Ok (a : A)
| Raise (e : PyExn).

Arguments Ok {A} a.
Arguments Raise {A} e.

Definition bind {A B : Type} (c : Py A) (k : A -> Py B) : Py B :=
  match c with
  | Ok a => k a
  | Raise e => Raise e
  end.

Notation "x <- c ;; k" := (bind c (fun x => k))
  (at level 61, c at next level, right associativity).
Notation "' pat <- c ;; k" := (bind c (fun x => match x with pat => k end))
  (at level 61, pat pattern, c at next level, right associativity).

Definition returns {A : Type} (c : Py A) : Prop := exists a, c = Ok a.

(** ** Decoded JSON values and the Python operations applied to them *)

Inductive json : Type :=
| JNull
| JBool (b : bool)
| JInt (n : Z)
| JFloat (q : Q)
| JStr (s : string)
| JArr (items : list json)
| JObj (fields : list (string * json)).

(** [bool(v)] *)
Definition truthy (v : json) : bool :=
  match v with
  | JNull => false
  | JBool b => b
  | JInt n => negb (n =? 0)%Z
  | JFloat q => negb (Qeq_bool q 0)
  | JStr s => negb (s =? "")
  | JArr items => match items with [] => false | _ => true end
  | JObj fields => match fields with [] => false | _ => true end
  end.

Fixpoint assoc {V : Type} (k : string) (kvs : list (string * V)) : option V :=
  match kvs with
  | [] => None
  | (k', v) :: rest => if k' =? k then Some v else assoc k rest
  end.

(** [d.get(k, default)]: only a dict has [get]. *)
Definition get (d : json) (k : string) (default : json) : Py json :=
  match d with
  | JObj fields =>
      Ok (match assoc k fields with Some v => v | None => default end)
  | _ => Raise AttributeError
  end.

(** [d[k]] on a value already known to be a dict. *)
Definition getitem (d : json) (k : string) : Py json :=
  match d with
  | JObj fields =>
      match assoc k fields with Some v => Ok v | None => Raise KeyError end
  | _ => Raise TypeError
  end.

Definition isinstance_dict (v : json) : bool :=
  match v with JObj _ => true | _ => false end.

(** [v == s] for a string literal [s] *)
Definition eq_str (v : json) (s : string) : bool :=
  match v with JStr t => t =? s | _ => false end.

(** The number added by [counter += v]: [bool] is a subclass of [int].
    The counters of a log are [int]s, whose sums are exact; a counter
    written as a [float] is added here as the rational it is written as
    (Python rounds that sum, and refuses to add to a [float] an [int] too
    large for one). *)
Definition py_num (v : json) : Py Q :=
  match v with
  | JInt n => Ok (inject_Z n)
  | JBool b => Ok (if b then 1 else 0)
  | JFloat q => Ok q
  | _ => Raise TypeError
  end.

(** [v[:150]]: a string or a list can be sliced, nothing else. *)
Definition slice150 (v : json) : Py json :=
  match v with
  | JStr s => Ok (JStr (substring 0 150 s))
  | JArr items => Ok (JArr (firstn 150 items))
  | _ => Raise TypeError
  end.

(** Keys of a Python dict: lists and dicts are unhashable; numbers compare
    by value, whatever their type. *)
Definition hashable (v : json) : bool :=
  match v with JArr _ | JObj _ => false | _ => true end.

Definition key_num (v : json) : option Q :=
  match v with
  | JInt n => Some (inject_Z n)
  | JBool b => Some (if b then 1 else 0)
  | JFloat q => Some q
  | _ => None
  end.

Definition key_eqb (a b : json) : bool :=
  match key_num a, key_num b with
  | Some x, Some y => Qeq_bool x y
  | None, None =>
      match a, b with
      | JNull, JNull => true
      | JStr s, JStr t => s =? t
      | _, _ => false
      end
  | _, _ => false
  end.

(** ** CostModel *)

Record Pricing : Type := mkPricing {
  p_input : Q;
  p_output : Q;
  p_cache_5m : Q;
  p_cache_1h : Q;
  p_cache_read : Q
}.

Definition MODEL_PRICING : list (string * Pricing) :=
  [ ("claude-opus-4-6", mkPricing 5 25 (25 # 4) 10 (1 # 2));
    ("claude-opus-4-5-20251101", mkPricing 5 25 (25 # 4) 10 (1 # 2));
    ("claude-opus-4-1-20250805", mkPricing 15 75 (75 # 4) 30 (3 # 2));
    ("claude-sonnet-4-5-20250929", mkPricing 3 15 (15 # 4) 6 (3 # 10));
    ("claude-haiku-4-5-20251001", mkPricing 1 5 (5 # 4) 2 (1 # 10)) ].

(** [MODEL_PRICING["claude-opus-4-6"]]; the key is in the table. *)
Definition DEFAULT_PRICING : Pricing :=
  match assoc "claude-opus-4-6" MODEL_PRICING with
  | Some p => p
  | None => mkPricing 0 0 0 0 0
  end.

(** [MODEL_PRICING.get(model, DEFAULT_PRICING)] *)
Definition pricing_for (model : json) : Pricing :=
  match model with
  | JStr name =>
      match assoc name MODEL_PRICING with
      | Some p => p
      | None => DEFAULT_PRICING
      end
  | _ => DEFAULT_PRICING
  end.

(** One entry of [tokens_by_model]. *)
Record Tokens : Type := mkTokens {
  t_input : Q;
  t_output : Q;
  t_cache_5m : Q;
  t_cache_1h : Q;
  t_cache_read : Q;
  t_messages : Z
}.

Definition zero_tokens : Tokens := mkTokens 0 0 0 0 0 0.

(** [tokens_by_model]: a dict in insertion order. *)
Definition TokensByModel : Type := list (json * Tokens).

Fixpoint find_model (model : json) (tbm : TokensByModel) : option Tokens :=
  match tbm with
  | [] => None
  | (m, t) :: rest => if key_eqb m model then Some t else find_model model rest
  end.

(** [tokens_by_model[model] = t]: an existing key keeps its position. *)
Fixpoint set_model (model : json) (t : Tokens) (tbm : TokensByModel)
  : TokensByModel :=
  match tbm with
  | [] => [(model, t)]
  | (m, t') :: rest =>
      if key_eqb m model then (m, t) :: rest
      else (m, t') :: set_model model t rest
  end.

Definition million : Q := inject_Z 1000000.

(** [calculate_cost] read over the rationals: the same loop with every
    operation exact (the program's own figure is [B64.calculate_cost]
    below).  First the five [total += ...] statements of one loop
    iteration. *)
Definition add_model_cost (total : Q) (item : json * Tokens) : Q :=
  let '(model, tokens) := item in
  let pricing := pricing_for model in
  let total := total + t_input tokens * p_input pricing / million in
  let total := total + t_output tokens * p_output pricing / million in
  let total := total + t_cache_5m tokens * p_cache_5m pricing / million in
  let total := total + t_cache_1h tokens * p_cache_1h pricing / million in
  let total := total + t_cache_read tokens * p_cache_read pricing / million in
  total.

Definition calculate_cost (tokens_by_model : TokensByModel) : Q :=
  fold_left add_model_cost tokens_by_model 0.

(** The cost the rates [pricing] assign to the counters [tokens]: the sum
    the specification gives for one model. *)
Definition cost_at (pricing : Pricing) (tokens : Tokens) : Q :=
  t_input tokens * p_input pricing / million
  + t_output tokens * p_output pricing / million
  + t_cache_5m tokens * p_cache_5m pricing / million
  + t_cache_1h tokens * p_cache_1h pricing / million
  + t_cache_read tokens * p_cache_read pricing / million.

Definition add_tokens (a b : Tokens) : Tokens :=
  mkTokens (t_input a + t_input b) (t_output a + t_output b)
           (t_cache_5m a + t_cache_5m b) (t_cache_1h a + t_cache_1h b)
           (t_cache_read a + t_cache_read b) (t_messages a + t_messages b).

Definition tokens_or_zero (o : option Tokens) : Tokens :=
  match o with Some t => t | None => zero_tokens end.

(** [merge_tokens]: the union of the keys, each counter summed, a missing
    side counting as zero.  Python iterates a [set] of the keys, whose order
    is unspecified; here the keys of [base] come first, then the new keys of
    [addition]. *)
Definition merge_tokens (base addition : TokensByModel) : TokensByModel :=
  (map (fun '(m, t) => (m, add_tokens t (tokens_or_zero (find_model m addition))))
       base
   ++ map (fun '(m, t) => (m, add_tokens zero_tokens t))
          (filter (fun '(m, _) =>
                     match find_model m base with Some _ => false | None => true end)
                  addition))%list.

(** ** Binary64: the figures as the program computes them

    A monetary figure is a Python [float], an IEEE 754 binary64.  This
    module computes with Rocq's primitive floats, which are binary64 with
    rounding to the nearest, ties to even, as Python's are. *)

Module B64.

(** [float(n)] for an [int]: the nearest binary64. *)
Definition of_Z (n : Z) : float :=
  SF2Prim (binary_normalize prec emax n 0 false).

(** An integer as an unrounded float: mantissa [|n|], exponent 0. *)
Definition Z2SF (n : Z) : spec_float :=
  match n with
  | Z0 => S754_zero false
  | Zpos p => S754_finite false p 0
  | Zneg p => S754_finite true p 0
  end.

(** The binary64 of a number of the model: the nearest binary64 of the
    quotient of the two integers, rounded once.  For an [int] this is
    [float(n)]; for a decimal figure [m / 10^k] (a rate of the pricing
    table, a number written in decimal) it is the [float] the decimal
    literal denotes. *)
Definition of_Q (q : Q) : float :=
  SF2Prim (SFdiv prec emax (Z2SF (Qnum q)) (Z2SF (Zpos (Qden q)))).

(** The rational a finite binary64 is. *)
Definition to_Q (x : float) : Q :=
  match Prim2SF x with
  | S754_finite negative m e =>
      (if negative then - inject_Z (Zpos m) else inject_Z (Zpos m))
      * Qpower 2 e
  | _ => 0
  end.

(** [1_000_000] where a [float] is divided by it. *)
Definition million : float := of_Z 1000000.

(** The five [total += ...] statements of one loop iteration: each term is
    [(count * rate) / 1_000_000], rounded after every operation. *)
Definition add_model_cost (total : float) (item : json * Tokens) : float :=
  let '(model, tokens) := item in
  let pricing := pricing_for model in
  let total :=
    (total + of_Q (t_input tokens) * of_Q (p_input pricing) / million)%float in
  let total :=
    (total + of_Q (t_output tokens) * of_Q (p_output pricing) / million)%float in
  let total :=
    (total + of_Q (t_cache_5m tokens) * of_Q (p_cache_5m pricing) / million)%float in
  let total :=
    (total + of_Q (t_cache_1h tokens) * of_Q (p_cache_1h pricing) / million)%float in
  let total :=
    (total + of_Q (t_cache_read tokens) * of_Q (p_cache_read pricing) / million)%float in
  total.

(** [calculate_cost]: [total = 0.0], then the loop over the dict in its
    order. *)
Definition calculate_cost (tokens_by_model : TokensByModel) : float :=
  fold_left add_model_cost tokens_by_model 0%float.

End B64.

(** ** Strings: [str.strip], [str.split] and the two regular expressions *)

(** The characters for which [str.isspace] holds, among the code points
    0 to 255: the ASCII ones, NEXT LINE (U+0085) and NO-BREAK SPACE
    (U+00A0). *)
Definition is_space (c : ascii) : bool :=
  let n := nat_of_ascii c in
  ((9 <=? n) && (n <=? 13) || (28 <=? n) && (n <=? 32)
   || (n =? 133) || (n =? 160))%nat.

Fixpoint lstrip (s : string) : string :=
  match s with
  | String c t => if is_space c then lstrip t else s
  | EmptyString => EmptyString
  end.

Fixpoint rstrip (s : string) : string :=
  match s with
  | String c t =>
      match rstrip t with
      | EmptyString => if is_space c then EmptyString else String c EmptyString
      | t' => String c t'
      end
  | EmptyString => EmptyString
  end.

(** [s.strip()] *)
Definition strip (s : string) : string := rstrip (lstrip s).

(** [s.split(sep)] for a one-character separator: never the empty list. *)
Fixpoint split (sep : ascii) (s : string) : list string :=
  match s with
  | EmptyString => [EmptyString]
  | String c t =>
      if Ascii.eqb c sep then EmptyString :: split sep t
      else match split sep t with
           | first :: rest => String c first :: rest
           | [] => [String c EmptyString]
           end
  end.

(** [needle in s] *)
Fixpoint contains (needle s : string) : bool :=
  prefix needle s
  || match s with
     | String _ t => contains needle t
     | EmptyString => false
     end.

(** [s] without its prefix [p], when it has it. *)
Fixpoint strip_prefix (p s : string) : option string :=
  match p, s with
  | EmptyString, _ => Some s
  | String a p', String b s' =>
      if Ascii.eqb a b then strip_prefix p' s' else None
  | String _ _, EmptyString => None
  end.

(** The class [[\w-]] of a [str] pattern, among the code points 0 to 255:
    [\w] is the underscore and every character that is alphanumeric for
    Unicode, which adds to the ASCII letters and digits the Latin-1 letters
    (U+00AA, U+00B5, U+00BA, U+00C0 to U+00FF without the two operators
    U+00D7 and U+00F7), the superscript digits (U+00B2, U+00B3, U+00B9) and
    the fractions (U+00BC to U+00BE). *)
Definition is_name_char (c : ascii) : bool :=
  let n := nat_of_ascii c in
  ((48 <=? n) && (n <=? 57) || (65 <=? n) && (n <=? 90)
   || (97 <=? n) && (n <=? 122) || (n =? 95) || (n =? 45)
   || (n =? 170) || (n =? 178) || (n =? 179) || (n =? 181)
   || (n =? 185) || (n =? 186) || (188 <=? n) && (n <=? 190)
   || (192 <=? n) && (n <=? 214) || (216 <=? n) && (n <=? 246)
   || (248 <=? n) && (n <=? 255))%nat.

(** The longest prefix of [s] made of [[\w-]] characters, and what follows. *)
Fixpoint span_name (s : string) : string * string :=
  match s with
  | String c t =>
      if is_name_char c
      then let '(run, rest) := span_name t in (String c run, rest)
      else (EmptyString, s)
  | EmptyString => (EmptyString, EmptyString)
  end.

(** A match of [<command-name>/([\w-]+)</command-name>] anchored at the
    start of [s]: group 1 and the text after the match.  The greedy run is
    maximal: it is followed by the closing tag, whose first character is
    not in the class, so no shorter run can match. *)
Definition match_command_name (s : string) : option (string * string) :=
  match strip_prefix "<command-name>/" s with
  | Some after_open =>
      let '(name, rest) := span_name after_open in
      match name with
      | EmptyString => None
      | _ => match strip_prefix "</command-name>" rest with
             | Some after => Some (name, after)
             | None => None
             end
      end
  | None => None
  end.

(** [_RE_COMMAND_NAME.search(text)]: group 1 of the leftmost match. *)
Fixpoint search_command_name (text : string) : option string :=
  match match_command_name text with
  | Some (name, _) => Some name
  | None =>
      match text with
      | String _ t => search_command_name t
      | EmptyString => None
      end
  end.

Definition newline : ascii := ascii_of_nat 10.

(** The lazy [(.*?)</command-args>] from the start of [s]: the text up to
    the first closing tag, unless a newline comes before it. *)
Fixpoint until_close_args (s : string) : option string :=
  match strip_prefix "</command-args>" s with
  | Some _ => Some EmptyString
  | None =>
      match s with
      | String c t =>
          if Ascii.eqb c newline then None
          else option_map (String c) (until_close_args t)
      | EmptyString => None
      end
  end.

(** [_RE_COMMAND_ARGS.search(text)]: group 1 of the leftmost match. *)
Fixpoint search_command_args (text : string) : option string :=
  match
    match strip_prefix "<command-args>" text with
    | Some after_open => until_close_args after_open
    | None => None
    end
  with
  | Some args => Some args
  | None =>
      match text with
      | String _ t => search_command_args t
      | EmptyString => None
      end
  end.

Definition TRACKED_WORKFLOWS : list string :=
  [ "ecc-dev-story"; "ecc-code-review"; "ecc-create-story";
    "ecc-e2e"; "ecc-impact-analysis"; "deploy-story" ].

Definition tracked (name : string) : bool :=
  existsb (String.eqb name) TRACKED_WORKFLOWS.

Definition _detect_workflow_from_text (text : string) : string * string :=
  match search_command_name text with
  | None => ("", "")
  | Some name =>
      let story :=
        match search_command_args text with
        | Some args => strip args
        | None => ""
        end in
      (name, story)
  end.

(** ** PathDecoder *)

(** An absolute path: its components below the root. *)
Definition Path : Type := list string.

Definition root : Path := [].

(** [path / segment] for a segment without a separator (the encoded name
    is a directory entry, so it has none): [pathlib] drops an empty or
    ["."] segment. *)
Definition joinpath (path : Path) (segment : string) : Path :=
  if (segment =? "") || (segment =? ".") then path
  else (path ++ [segment])%list.

(** [str(path)] *)
Definition path_str (path : Path) : string :=
  match path with
  | [] => "/"
  | _ => fold_left (fun acc seg => acc ++ "/" ++ seg) path ""
  end.

Section PathDecoder.
(** The filesystem oracle: [Path.exists]. *)
Variable path_exists : Path -> bool.

(** The outer [while i < len(parts)] loop over [parts[i:]]; the inner
    loop [extend] grows [candidate] over [parts[j:]] until
    [path / candidate] exists or the parts run out. *)
Fixpoint decode_from (path : Path) (parts : list string) : Path :=
  match parts with
  | [] => path
  | first :: after =>
      (fix extend (candidate : string) (remaining : list string) : Path :=
         match remaining with
         | [] => joinpath path candidate
         | next :: remaining' =>
             if path_exists (joinpath path candidate)
             then decode_from (joinpath path candidate) remaining
             else extend (candidate ++ "-" ++ next) remaining'
         end) first after
  end.

Definition _decode_project_path (encoded : string) : Path :=
  let rest := match encoded with String _ t => t | EmptyString => "" end in
  let parts := split "-" rest in
  decode_from root parts.
End PathDecoder.

(** ** UsageParser *)

Record TaskCall : Type := mkTaskCall {
  tc_subagent_type : json;
  tc_description : json;
  tc_model : json
}.

(** The local variables of [parse_jsonl]; the dict it returns has the same
    eight fields.  [None] is [JNull]. *)
Record ParseState : Type := mkParse {
  tokens_by_model : TokensByModel;
  first_ts : json;
  last_ts : json;
  msg_count : Z;
  first_user_msg : json;
  task_calls : list TaskCall;
  detected_workflow : string;
  detected_story : string
}.

Definition initial_state : ParseState :=
  mkParse [] JNull JNull 0 JNull [] "" "".

(** [if ts: if not first_ts: first_ts = ts; last_ts = ts] *)
Definition track_timestamp (ts : json) (st : ParseState) : ParseState :=
  if truthy ts then
    mkParse (tokens_by_model st)
            (if truthy (first_ts st) then first_ts st else ts)
            ts
            (msg_count st) (first_user_msg st) (task_calls st)
            (detected_workflow st) (detected_story st)
  else st.

(** The loop over the blocks of a user record whose content is a list:
    each dict block of type "text" appends [block["text"]] to [texts] and,
    while [first_user_msg] is unset, sets it to the first 150 characters. *)
Fixpoint collect_text_blocks (blocks : list json) (texts : list json)
    (first_msg : json) : Py (list json * json) :=
  match blocks with
  | [] => Ok (texts, first_msg)
  | block :: rest =>
      match block with
      | JObj fields =>
          block_type <- get block "type" JNull ;;
          if eq_str block_type "text" then
            text <- getitem block "text" ;;
            first_msg' <- (if truthy first_msg then Ok first_msg
                           else text' <- getitem block "text" ;; slice150 text') ;;
            collect_text_blocks rest (texts ++ [text])%list first_msg'
          else collect_text_blocks rest texts first_msg
      | _ => collect_text_blocks rest texts first_msg
      end
  end.

(** The texts of a user record's content, and the updated [first_user_msg]. *)
Definition user_texts (content : json) (first_msg : json)
  : Py (list json * json) :=
  match content with
  | JStr s =>
      first_msg' <- (if truthy first_msg then Ok first_msg
                     else slice150 content) ;;
      Ok ([content], first_msg')
  | JArr blocks => collect_text_blocks blocks [] first_msg
  | _ => Ok ([], first_msg)
  end.

(** [for txt in texts: ...; break]: the first text whose command is tracked.
    [re.search] raises [TypeError] on a value that is not a string. *)
Fixpoint detect_in_texts (texts : list json) : Py (option (string * string)) :=
  match texts with
  | [] => Ok None
  | txt :: rest =>
      match txt with
      | JStr s =>
          let '(wf, st) := _detect_workflow_from_text s in
          if negb (wf =? "") && tracked wf then Ok (Some (wf, st))
          else detect_in_texts rest
      | _ => Raise TypeError
      end
  end.

(** The body of [if data.get("type") == "user":]. *)
Definition process_user (data : json) (st : ParseState) : Py ParseState :=
  msg <- get data "message" (JObj []) ;;
  content <- get msg "content" (JStr "") ;;
  '(texts, first_msg) <- user_texts content (first_user_msg st) ;;
  '(wf, story) <-
     (if negb (detected_workflow st =? "") then
        Ok (detected_workflow st, detected_story st)
      else
        found <- detect_in_texts texts ;;
        Ok (match found with
            | Some hit => hit
            | None => (detected_workflow st, detected_story st)
            end)) ;;
  Ok (mkParse (tokens_by_model st) (first_ts st) (last_ts st) (msg_count st)
              first_msg (task_calls st) wf story).

(** [counter += d.get(key, 0)] *)
Definition add_usage (d : json) (key : string) (counter : Q) : Py Q :=
  v <- get d key (JInt 0) ;;
  n <- py_num v ;;
  Ok (counter + n).

(** The accumulation of one assistant record's usage into its model's entry. *)
Definition add_usage_block (usage : json) (entry : Tokens) : Py Tokens :=
  input <- add_usage usage "input_tokens" (t_input entry) ;;
  output <- add_usage usage "output_tokens" (t_output entry) ;;
  cache_read <- add_usage usage "cache_read_input_tokens" (t_cache_read entry) ;;
  let messages := (t_messages entry + 1)%Z in
  cache_detail <- get usage "cache_creation" (JObj []) ;;
  if truthy cache_detail then
    cache_5m <- add_usage cache_detail "ephemeral_5m_input_tokens"
                          (t_cache_5m entry) ;;
    cache_1h <- add_usage cache_detail "ephemeral_1h_input_tokens"
                          (t_cache_1h entry) ;;
    Ok (mkTokens input output cache_5m cache_1h cache_read messages)
  else
    cache_1h <- add_usage usage "cache_creation_input_tokens"
                          (t_cache_1h entry) ;;
    Ok (mkTokens input output (t_cache_5m entry) cache_1h cache_read messages).

(** The loop recording the "Task" tool calls of an assistant record. *)
Fixpoint collect_task_calls (blocks : list json) (calls : list TaskCall)
  : Py (list TaskCall) :=
  match blocks with
  | [] => Ok calls
  | block :: rest =>
      match block with
      | JObj fields =>
          block_type <- get block "type" JNull ;;
          block_name <- get block "name" JNull ;;
          if eq_str block_type "tool_use" && eq_str block_name "Task" then
            inp <- get block "input" (JObj []) ;;
            subagent_type <- get inp "subagent_type" (JStr "?") ;;
            description <- get inp "description" (JStr "?") ;;
            model <- get inp "model" (JStr "inherited") ;;
            collect_task_calls rest
              (calls ++ [mkTaskCall subagent_type description model])%list
          else collect_task_calls rest calls
      | _ => collect_task_calls rest calls
      end
  end.

(** The body of [if data.get("type") == "assistant":]. *)
Definition process_assistant (data : json) (st : ParseState) : Py ParseState :=
  msg <- get data "message" (JObj []) ;;
  usage <- get msg "usage" (JObj []) ;;
  model <- get msg "model" (JStr "unknown") ;;
  if negb (hashable model) then Raise TypeError
  else
    let entry := tokens_or_zero (find_model model (tokens_by_model st)) in
    entry' <- add_usage_block usage entry ;;
    let tokens := set_model model entry' (tokens_by_model st) in
    let count := (msg_count st + 1)%Z in
    content <- get msg "content" (JArr []) ;;
    calls <- (match content with
              | JArr blocks => collect_task_calls blocks (task_calls st)
              | _ => Ok (task_calls st)
              end) ;;
    Ok (mkParse tokens (first_ts st) (last_ts st) count (first_user_msg st)
                calls (detected_workflow st) (detected_story st)).

(** One decoded record: the body of the loop after [json.loads]. *)
Definition process_record (data : json) (st : ParseState) : Py ParseState :=
  ts <- get data "timestamp" JNull ;;
  let st := track_timestamp ts st in
  record_type <- get data "type" JNull ;;
  st <- (if eq_str record_type "user" then process_user data st else Ok st) ;;
  if eq_str record_type "assistant" then process_assistant data st else Ok st.

Section UsageParser.
(** [json.loads]: [None] stands for [JSONDecodeError]. *)
Variable json_loads : string -> option json.

(** What a line contributes: nothing when it is blank or does not decode. *)
Definition decode_line (line : string) : option json :=
  let line := strip line in
  if line =? "" then None else json_loads line.

Definition process_line (st : ParseState) (line : string) : Py ParseState :=
  match decode_line line with
  | None => Ok st
  | Some data => process_record data st
  end.

Fixpoint parse_lines (lines : list string) (st : ParseState)
  : Py ParseState :=
  match lines with
  | [] => Ok st
  | line :: rest =>
      st' <- process_line st line ;;
      parse_lines rest st'
  end.

Definition parse_jsonl (lines : list string) : Py ParseState :=
  parse_lines lines initial_state.
End UsageParser.

(** ** SessionAggregator *)

Record SubAgentResult : Type := mkSubAgent {
  sa_file : string;
  sa_first_msg : json;
  sa_tokens_by_model : TokensByModel;
  sa_cost : float;
  sa_msg_count : Z
}.

(** [ts.replace("Z", "+00:00")] *)
Fixpoint replace_Z (ts : string) : string :=
  match ts with
  | EmptyString => EmptyString
  | String c t =>
      if Ascii.eqb c "Z" then "+00:00" ++ replace_Z t
      else String c (replace_Z t)
  end.

(** The result of [analyze_session], without the formatted duration. *)
Record SessionResult : Type := mkSession {
  session_id : string;
  parent : ParseState;
  parent_cost : float;
  subagents : list SubAgentResult;
  all_tokens : TokensByModel;
  total_cost : float
}.

Section SessionAggregator.
Variable json_loads : string -> option json.
(** Whether [datetime.fromisoformat] accepts a string; it raises
    [ValueError] on the others. *)
Variable fromisoformat : string -> bool.

(** The loop over the sorted sub-agent logs [(file name, lines)]. *)
Fixpoint merge_subagents (files : list (string * list string))
    (results : list SubAgentResult) (tokens : TokensByModel)
  : Py (list SubAgentResult * TokensByModel) :=
  match files with
  | [] => Ok (results, tokens)
  | (name, lines) :: rest =>
      if contains "compact" name then merge_subagents rest results tokens
      else
        sa <- parse_jsonl json_loads lines ;;
        let cost := B64.calculate_cost (tokens_by_model sa) in
        merge_subagents rest
          (results ++ [mkSubAgent name (first_user_msg sa)
                                  (tokens_by_model sa) cost (msg_count sa)])%list
          (merge_tokens tokens (tokens_by_model sa))
  end.

(** The block that computes the duration, for what it can raise: when
    both timestamps are truthy, [.replace] is called on the first one,
    which raises [AttributeError] unless it is a string, and, if
    [fromisoformat] accepts the result, on the last one; the [ValueError]
    of [fromisoformat] and the [TypeError] of the subtraction are caught
    there. *)
Definition duration_block (parent : ParseState) : Py unit :=
  if truthy (first_ts parent) && truthy (last_ts parent) then
    match first_ts parent with
    | JStr ts1 =>
        if fromisoformat (replace_Z ts1) then
          match last_ts parent with
          | JStr _ => Ok tt
          | _ => Raise AttributeError
          end
        else Ok tt
    | _ => Raise AttributeError
    end
  else Ok tt.

(** [analyze_session] on a session whose parent log holds [parent_lines]
    and whose sub-agent directory lists [subagent_files] (none when the
    directory is absent). *)
Definition analyze_session (id : string) (parent_lines : list string)
    (subagent_files : list (string * list string)) : Py SessionResult :=
  parent <- parse_jsonl json_loads parent_lines ;;
  let parent_cost := B64.calculate_cost (tokens_by_model parent) in
  '(results, tokens) <-
     merge_subagents subagent_files [] (tokens_by_model parent) ;;
  let total_cost := B64.calculate_cost tokens in
  _ <- duration_block parent ;;
  Ok (mkSession id parent parent_cost results tokens total_cost).
End SessionAggregator.

(** The token totals of a history row ([_build_csv_row]). *)
Definition total_input (tokens : TokensByModel) : Q :=
  fold_left (fun acc item => acc + t_input (snd item)) tokens 0.

Definition total_output (tokens : TokensByModel) : Q :=
  fold_left (fun acc item => acc + t_output (snd item)) tokens 0.

Definition total_cache_write (tokens : TokensByModel) : Q :=
  fold_left (fun acc item => acc + (t_cache_5m (snd item) + t_cache_1h (snd item)))
            tokens 0.

Definition total_cache_read (tokens : TokensByModel) : Q :=
  fold_left (fun acc item => acc + t_cache_read (snd item)) tokens 0.

(** ** StatisticsEngine

    The statements of [generate_stats] read over the rationals, every
    operation exact; the figures the program computes are those of
    [B64Stats] below. *)

(** One row of the history file, as [csv.DictReader] yields it: the five
    columns the statistics engine reads, [total_cost] being the number
    [float] makes of the column. *)
Record HistoryRecord : Type := mkRow {
  h_date : string;
  h_session_id : string;
  h_workflow : string;
  h_models : string;
  h_total_cost : Q
}.

(** [a > b] and [a >= b] on numbers *)
Definition gt (a b : Q) : bool := negb (Qle_bool a b).
Definition ge (a b : Q) : bool := Qle_bool b a.

(** [max(a, b)]: [b] only when it is strictly greater. *)
Definition py_max (a b : Q) : Q := if gt b a then b else a.

(** [sum(xs)] *)
Definition sum (xs : list Q) : Q := fold_left Qplus xs 0.

Definition len {A : Type} (xs : list A) : Z := Z.of_nat (List.length xs).

(** [int(k)]: truncation toward zero. *)
Definition py_int (k : Q) : Z := Z.quot (Qnum k) (Zpos (Qden k)).

(** [data[i]], a negative index counting from the end. *)
Definition index (data : list Q) (i : Z) : Py Q :=
  let i' := if (i <? 0)%Z then (len data + i)%Z else i in
  if (i' <? 0)%Z then Raise IndexError
  else match nth_error data (Z.to_nat i') with
       | Some x => Ok x
       | None => Raise IndexError
       end.

(** [round(x)] to the nearest integer, a tie going to the even one. *)
Definition round_half_even (x : Q) : Z :=
  let lo := Qfloor x in
  match Qcompare (x - inject_Z lo) (1 # 2) with
  | Lt => lo
  | Gt => (lo + 1)%Z
  | Eq => if Z.even lo then lo else (lo + 1)%Z
  end.

(** [round(x, ndigits)] *)
Definition py_round (x : Q) (ndigits : nat) : Q :=
  let scale := inject_Z (10 ^ Z.of_nat ndigits) in
  inject_Z (round_half_even (x * scale)) / scale.

(** [sorted(xs)]: stable, ascending. *)
Fixpoint insert_sorted (x : Q) (xs : list Q) : list Q :=
  match xs with
  | [] => [x]
  | y :: rest => if Qle_bool x y then x :: xs else y :: insert_sorted x rest
  end.

Definition sorted (xs : list Q) : list Q := fold_right insert_sorted [] xs.

(** The index arithmetic of [percentile]: [k], [f] and [c]. *)
Definition percentile_k {A : Type} (data : list A) (p : Q) : Q :=
  (p / 100) * inject_Z (len data - 1).

Definition percentile_f {A : Type} (data : list A) (p : Q) : Z :=
  py_int (percentile_k data p).

Definition percentile_c {A : Type} (data : list A) (p : Q) : Z :=
  let f := percentile_f data p in
  if (f + 1 <? len data)%Z then (f + 1)%Z else f.

Definition percentile (data : list Q) (p : Q) : Py Q :=
  let k := percentile_k data p in
  let f := percentile_f data p in
  let c := percentile_c data p in
  data_f <- index data f ;;
  data_c <- index data c ;;
  data_f' <- index data f ;;
  Ok (data_f + (k - inject_Z f) * (data_c - data_f')).

(** [xs[-n:] if len(xs) >= n else xs] *)
Definition last_n {A : Type} (n : nat) (xs : list A) : list A :=
  if (n <=? List.length xs)%nat then skipn (List.length xs - n) xs else xs.

(** [xs[-n:]] for a positive [n] *)
Definition tail_slice {A : Type} (n : nat) (xs : list A) : list A :=
  skipn (List.length xs - n) xs.

(** [xs[-20:-10]] *)
Definition prev_10_slice {A : Type} (xs : list A) : list A :=
  let start := (List.length xs - 20)%nat in
  let stop := (List.length xs - 10)%nat in
  firstn (stop - start) (skipn start xs).

Definition average (xs : list Q) : Q := sum xs / inject_Z (len xs).

Record Outlier : Type := mkOutlier {
  o_date : string;
  o_session_id : string;
  o_cost : Q;
  o_ratio : Q
}.

Record ModelBreakdown : Type := mkModelBreakdown {
  mb_count : Z;
  mb_total_cost : Q
}.

Record WorkflowStats : Type := mkWorkflowStats {
  wf_count : Z;
  wf_total_cost : Q;
  wf_avg : Q;
  wf_avg_last_10 : Q;
  wf_p50 : Q;
  wf_p75 : Q;
  wf_p90 : Q
}.

(** The snapshot [generate_stats] returns, without its two bookkeeping
    fields (the time of generation and the path of the history file). *)
Record Stats : Type := mkStats {
  total_sessions : Z;
  stats_total_cost : Q;
  avg_overall : Q;
  avg_last_10 : Q;
  avg_last_20 : Q;
  p50 : Q;
  p75 : Q;
  p90 : Q;
  p95 : Q;
  warning : Q;
  high : Q;
  trend_last10_vs_prev10_pct : option Q;
  recent_outliers : list Outlier;
  by_model : list (string * ModelBreakdown);
  by_workflow : list (string * WorkflowStats)
}.

(** The rows kept by the reading loop: [if cost > 0: rows.append(r)]. *)
Definition qualifying (history : list HistoryRecord) : list HistoryRecord :=
  filter (fun r => gt (h_total_cost r) 0) history.

Definition costs_of (rows : list HistoryRecord) : list Q :=
  map h_total_cost rows.

(** The unrounded [avg_last_20] of [generate_stats], over the kept rows. *)
Definition raw_avg_last_20 (rows : list HistoryRecord) : Q :=
  average (last_n 20 (costs_of rows)).

(** The loop [for r in recent: if cost >= warning_threshold: ...]. *)
Definition outlier_of (avg20 : Q) (r : HistoryRecord) : Outlier :=
  let cost := h_total_cost r in
  let ratio := if gt avg20 0 then cost / avg20 else 0 in
  mkOutlier (h_date r) (h_session_id r) cost (py_round ratio 1).

Definition find_outliers (threshold avg20 : Q) (recent : list HistoryRecord)
  : list Outlier :=
  map (outlier_of avg20)
      (filter (fun r => ge (h_total_cost r) threshold) recent).

(** [d[k] = f(d.get(k))] on a dict in insertion order. *)
Fixpoint dict_update {V : Type} (k : string) (f : option V -> V)
    (d : list (string * V)) : list (string * V) :=
  match d with
  | [] => [(k, f None)]
  | (k', v) :: rest =>
      if k' =? k then (k', f (Some v)) :: rest
      else (k', v) :: dict_update k f rest
  end.

Definition group_by_model (rows : list HistoryRecord)
  : list (string * ModelBreakdown) :=
  fold_left
    (fun acc r =>
       dict_update (h_models r)
         (fun old =>
            let b := match old with
                     | Some b => b
                     | None => mkModelBreakdown 0 0
                     end in
            mkModelBreakdown (mb_count b + 1)
                             (mb_total_cost b + h_total_cost r))
         acc)
    rows [].

Definition group_by_workflow (rows : list HistoryRecord)
  : list (string * list Q) :=
  fold_left
    (fun acc r =>
       let wf := strip (h_workflow r) in
       if wf =? "" then acc
       else dict_update wf
              (fun old =>
                 (match old with Some cs => cs | None => [] end
                  ++ [h_total_cost r])%list)
              acc)
    rows [].

Definition workflow_stats_of (wf_costs : list Q) : Py WorkflowStats :=
  let wf_sorted := sorted wf_costs in
  let wf_n := len wf_sorted in
  let wf_last_10 := last_n 10 wf_costs in
  q50 <- percentile wf_sorted 50 ;;
  q75 <- percentile wf_sorted 75 ;;
  q90 <- percentile wf_sorted 90 ;;
  Ok (mkWorkflowStats wf_n
        (py_round (sum wf_costs) 2)
        (py_round (sum wf_costs / inject_Z wf_n) 2)
        (py_round (average wf_last_10) 2)
        (py_round q50 2) (py_round q75 2) (py_round q90 2)).

Fixpoint workflow_stats (groups : list (string * list Q))
  : Py (list (string * WorkflowStats)) :=
  match groups with
  | [] => Ok []
  | (wf, wf_costs) :: rest =>
      if (len (sorted wf_costs) =? 0)%Z then workflow_stats rest
      else
        s <- workflow_stats_of wf_costs ;;
        others <- workflow_stats rest ;;
        Ok ((wf, s) :: others)
  end.

(** The trend of the last ten costs against the ten before them. *)
Definition trend_of (costs : list Q) : option Q :=
  if (20 <=? List.length costs)%nat then
    let avg_prev_10 := average (prev_10_slice costs) in
    if gt avg_prev_10 0 then
      Some (py_round ((average (last_n 10 costs) - avg_prev_10) / avg_prev_10
                      * 100) 1)
    else None
  else None.

(** [generate_stats] on the rows of an existing history file; [None] is
    the empty dict returned when no row qualifies. *)
Definition generate_stats (history : list HistoryRecord) : Py (option Stats) :=
  let rows := qualifying history in
  match rows with
  | [] => Ok None
  | _ =>
      let costs := costs_of rows in
      let costs_sorted := sorted costs in
      let n := len costs_sorted in
      let avg_overall := sum costs / inject_Z n in
      let avg_last_10 := average (last_n 10 costs) in
      let avg_last_20 := raw_avg_last_20 rows in
      q50 <- percentile costs_sorted 50 ;;
      q75 <- percentile costs_sorted 75 ;;
      q90 <- percentile costs_sorted 90 ;;
      q95 <- percentile costs_sorted 95 ;;
      let warning_threshold := py_max q75 (avg_last_20 * (3 # 2)) in
      let high_threshold := py_max q90 (avg_last_20 * 2) in
      let outliers :=
        find_outliers warning_threshold avg_last_20 (tail_slice 20 rows) in
      wf_stats <- workflow_stats (group_by_workflow rows) ;;
      Ok (Some (mkStats n (py_round (sum costs) 2)
                  (py_round avg_overall 2) (py_round avg_last_10 2)
                  (py_round avg_last_20 2)
                  (py_round q50 2) (py_round q75 2) (py_round q90 2)
                  (py_round q95 2)
                  (py_round warning_threshold 2) (py_round high_threshold 2)
                  (trend_of costs) outliers
                  (group_by_model rows) wf_stats))
  end.

(** ** StatisticsEngine in binary64

    The figures of [generate_stats] as the program computes them: every
    cost is a Python [float] and every operation on costs rounds to the
    nearest binary64.  The definitions above read the same statements
    over the rationals; they serve the laws of order, counting and
    exclusion, which do not depend on rounding.  The definitions of this
    module follow the source statement by statement, with the source's
    names. *)

Module B64Stats.

(** One row of the history file, as [csv.DictReader] yields it,
    [total_cost] being the [float] that [float(r["total_cost"])] makes of
    the cell.  (A cell [float] rejects raises [ValueError] in the reading
    loop, before any figure is computed; such a history has no rows
    here.) *)
Record HistoryRecord : Type := mkRow {
  h_date : string;
  h_session_id : string;
  h_workflow : string;
  h_models : string;
  h_total_cost : float
}.

(** [a > b] and [a >= b] on floats; both are [False] on a NaN. *)
Definition gt (a b : float) : bool := (b <? a)%float.
Definition ge (a b : float) : bool := (b <=? a)%float.

(** [max(a, b)]: [b] only when it is strictly greater. *)
Definition py_max (a b : float) : float := if gt b a then b else a.

(** [sum(xs)]: the running total starts at [0] and adds the items from
    left to right, each addition rounded (CPython up to 3.11). *)
Definition sum (xs : list float) : float :=
  fold_left PrimFloat.add xs 0%float.

(** [int(k)] for a finite [float]: truncation toward zero. *)
Definition to_int (k : float) : Z := py_int (B64.to_Q k).

(** [data[i]], a negative index counting from the end. *)
Definition index (data : list float) (i : Z) : Py float :=
  let i' := if (i <? 0)%Z then (len data + i)%Z else i in
  if (i' <? 0)%Z then Raise IndexError
  else match nth_error data (Z.to_nat i') with
       | Some x => Ok x
       | None => Raise IndexError
       end.

(** [round(x, ndigits)] for a [float]: the exact value of [x] is rounded
    to [ndigits] decimals, a tie going to the even digit, and the decimal
    obtained is converted to the nearest binary64; the sign is kept, and
    an infinity or a NaN is returned as it is. *)
Definition py_round (x : float) (ndigits : nat) : float :=
  match Prim2SF x with
  | S754_finite negative _ _ =>
      let scale := (10 ^ Z.of_nat ndigits)%Z in
      let m := round_half_even (Qabs (B64.to_Q x) * inject_Z scale) in
      SF2Prim (SFdiv prec emax
                 (match m with
                  | Zpos p => S754_finite negative p 0
                  | _ => S754_zero negative
                  end)
                 (B64.Z2SF scale))
  | _ => x
  end.

(** [sorted(xs)]: stable, ascending. *)
Fixpoint insert_sorted (x : float) (xs : list float) : list float :=
  match xs with
  | [] => [x]
  | y :: rest =>
      if (x <=? y)%float then x :: xs else y :: insert_sorted x rest
  end.

Definition sorted (xs : list float) : list float :=
  fold_right insert_sorted [] xs.

(** [percentile(data, p)]: [k = (p / 100) * (len(data) - 1)], [f = int(k)],
    [c = f + 1 if f + 1 < len(data) else f]. *)
Definition percentile_k (data : list float) (p : Z) : float :=
  (B64.of_Z p / B64.of_Z 100 * B64.of_Z (len data - 1))%float.

Definition percentile_f (data : list float) (p : Z) : Z :=
  to_int (percentile_k data p).

Definition percentile_c (data : list float) (p : Z) : Z :=
  let f := percentile_f data p in
  if (f + 1 <? len data)%Z then (f + 1)%Z else f.

Definition percentile (data : list float) (p : Z) : Py float :=
  let k := percentile_k data p in
  let f := percentile_f data p in
  let c := percentile_c data p in
  data_f <- index data f ;;
  data_c <- index data c ;;
  data_f' <- index data f ;;
  Ok (data_f + (k - B64.of_Z f) * (data_c - data_f'))%float.

(** [sum(xs) / len(xs)]; the list is not empty wherever [generate_stats]
    takes an average. *)
Definition average (xs : list float) : float :=
  (sum xs / B64.of_Z (len xs))%float.

Record Outlier : Type := mkOutlier {
  o_date : string;
  o_session_id : string;
  o_cost : float;
  o_ratio : float
}.

Record ModelBreakdown : Type := mkModelBreakdown {
  mb_count : Z;
  mb_total_cost : float
}.

Record WorkflowStats : Type := mkWorkflowStats {
  wf_count : Z;
  wf_total_cost : float;
  wf_avg : float;
  wf_avg_last_10 : float;
  wf_p50 : float;
  wf_p75 : float;
  wf_p90 : float
}.

(** The snapshot [generate_stats] returns, without its two bookkeeping
    fields (the time of generation and the path of the history file). *)
Record Stats : Type := mkStats {
  total_sessions : Z;
  stats_total_cost : float;
  avg_overall : float;
  avg_last_10 : float;
  avg_last_20 : float;
  p50 : float;
  p75 : float;
  p90 : float;
  p95 : float;
  warning : float;
  high : float;
  trend_last10_vs_prev10_pct : option float;
  recent_outliers : list Outlier;
  by_model : list (string * ModelBreakdown);
  by_workflow : list (string * WorkflowStats)
}.

(** The rows kept by the reading loop: [if cost > 0: rows.append(r)]. *)
Definition qualifying (history : list HistoryRecord) : list HistoryRecord :=
  filter (fun r => gt (h_total_cost r) 0) history.

Definition costs_of (rows : list HistoryRecord) : list float :=
  map h_total_cost rows.

(** [ratio = cost / avg_last_20 if avg_last_20 > 0 else 0]; the [0] of
    the second branch is written as the float it equals. *)
Definition ratio_of (cost avg_last_20 : float) : float :=
  if gt avg_last_20 0 then (cost / avg_last_20)%float else 0%float.

(** The loop [for r in recent: if cost >= warning_threshold: ...]. *)
Definition outlier_of (avg_last_20 : float) (r : HistoryRecord) : Outlier :=
  let cost := h_total_cost r in
  mkOutlier (h_date r) (h_session_id r) cost
            (py_round (ratio_of cost avg_last_20) 1).

Definition find_outliers (warning_threshold avg_last_20 : float)
    (recent : list HistoryRecord) : list Outlier :=
  map (outlier_of avg_last_20)
      (filter (fun r => ge (h_total_cost r) warning_threshold) recent).

Definition group_by_model (rows : list HistoryRecord)
  : list (string * ModelBreakdown) :=
  fold_left
    (fun acc r =>
       dict_update (h_models r)
         (fun old =>
            let b := match old with
                     | Some b => b
                     | None => mkModelBreakdown 0 0%float
                     end in
            mkModelBreakdown (mb_count b + 1)
                             (mb_total_cost b + h_total_cost r)%float)
         acc)
    rows [].

Definition group_by_workflow (rows : list HistoryRecord)
  : list (string * list float) :=
  fold_left
    (fun acc r =>
       let wf := strip (h_workflow r) in
       if (wf =? "")%string then acc
       else dict_update wf
              (fun old =>
                 (match old with Some cs => cs | None => [] end
                  ++ [h_total_cost r])%list)
              acc)
    rows [].

Definition workflow_stats_of (wf_costs : list float) : Py WorkflowStats :=
  let wf_sorted := sorted wf_costs in
  let wf_n := len wf_sorted in
  let wf_last_10 := last_n 10 wf_costs in
  q50 <- percentile wf_sorted 50 ;;
  q75 <- percentile wf_sorted 75 ;;
  q90 <- percentile wf_sorted 90 ;;
  Ok (mkWorkflowStats wf_n
        (py_round (sum wf_costs) 2)
        (py_round (sum wf_costs / B64.of_Z wf_n)%float 2)
        (py_round (average wf_last_10) 2)
        (py_round q50 2) (py_round q75 2) (py_round q90 2)).

Fixpoint workflow_stats (groups : list (string * list float))
  : Py (list (string * WorkflowStats)) :=
  match groups with
  | [] => Ok []
  | (wf, wf_costs) :: rest =>
      if (len (sorted wf_costs) =? 0)%Z then workflow_stats rest
      else
        s <- workflow_stats_of wf_costs ;;
        others <- workflow_stats rest ;;
        Ok ((wf, s) :: others)
  end.

(** The trend of the last ten costs against the ten before them. *)
Definition trend_of (costs : list float) : option float :=
  if (20 <=? List.length costs)%nat then
    let avg_prev_10 := average (prev_10_slice costs) in
    if gt avg_prev_10 0 then
      Some (py_round ((average (last_n 10 costs) - avg_prev_10) / avg_prev_10
                      * B64.of_Z 100)%float 1)
    else None
  else None.

(** [generate_stats] on the rows of an existing history file; [None] is
    the empty dict returned when no row qualifies. *)
Definition generate_stats (history : list HistoryRecord) : Py (option Stats) :=
  let rows := qualifying history in
  match rows with
  | [] => Ok None
  | _ =>
      let costs := costs_of rows in
      let costs_sorted := sorted costs in
      let n := len costs_sorted in
      let avg_overall := (sum costs / B64.of_Z n)%float in
      let avg_last_10 := average (last_n 10 costs) in
      let avg_last_20 := average (last_n 20 costs) in
      q50 <- percentile costs_sorted 50 ;;
      q75 <- percentile costs_sorted 75 ;;
      q90 <- percentile costs_sorted 90 ;;
      q95 <- percentile costs_sorted 95 ;;
      let warning_threshold := py_max q75 (avg_last_20 * 1.5)%float in
      let high_threshold := py_max q90 (avg_last_20 * 2)%float in
      let outliers :=
        find_outliers warning_threshold avg_last_20 (tail_slice 20 rows) in
      wf_stats <- workflow_stats (group_by_workflow rows) ;;
      Ok (Some (mkStats n (py_round (sum costs) 2)
                  (py_round avg_overall 2) (py_round avg_last_10 2)
                  (py_round avg_last_20 2)
                  (py_round q50 2) (py_round q75 2) (py_round q90 2)
                  (py_round q95 2)
                  (py_round warning_threshold 2) (py_round high_threshold 2)
                  (trend_of costs) outliers
                  (group_by_model rows) wf_stats))
  end.

(** *** Histories *)

Definition history_row (cost : float) : HistoryRecord :=
  mkRow "2026-01-01 10:00" "0123456789ab" "" "opus" cost.

(** Twenty rows at $1.00, the most recent at $5.00 instead. *)
Definition outlier_history : list HistoryRecord :=
  (repeat (history_row 1) 19 ++ [history_row 5])%list.



End B64Stats.

(** ** The notions the specification is stated with *)

(** *** Lines *)

(** A line the parser skips: blank, or not JSON. *)
Definition skipped (json_loads : string -> option json) (line : string) : bool :=
  match decode_line json_loads line with
  | None => true
  | Some _ => false
  end.

(** A malformed line: not blank, and not JSON. *)
Definition malformed (json_loads : string -> option json) (line : string)
  : bool :=
  negb (strip line =? "")
  && match json_loads (strip line) with Some _ => false | None => true end.

(** The records of a log: the decoded lines, in log order. *)
Definition records (json_loads : string -> option json) (lines : list string)
  : list json :=
  flat_map (fun line => match decode_line json_loads line with
                        | Some data => [data]
                        | None => []
                        end) lines.

(** *** Well-shaped records: the shape the log producer writes *)

Definition is_number (v : json) : bool :=
  match v with JInt _ | JBool _ | JFloat _ => true | _ => false end.

(** The field [key] of a dict is absent or satisfies [ok]. *)
Definition field_is (ok : json -> bool) (fields : list (string * json))
    (key : string) : bool :=
  match assoc key fields with Some v => ok v | None => true end.

Definition usage_ok (usage : json) : bool :=
  match usage with
  | JObj fields =>
      field_is is_number fields "input_tokens"
      && field_is is_number fields "output_tokens"
      && field_is is_number fields "cache_read_input_tokens"
      && match assoc "cache_creation" fields with
         | Some detail =>
             if truthy detail then
               match detail with
               | JObj tiers =>
                   field_is is_number tiers "ephemeral_5m_input_tokens"
                   && field_is is_number tiers "ephemeral_1h_input_tokens"
               | _ => false
               end
             else field_is is_number fields "cache_creation_input_tokens"
         | None => field_is is_number fields "cache_creation_input_tokens"
         end
  | _ => false
  end.

(** A text block carries a string. *)
Definition text_block_ok (block : json) : bool :=
  match block with
  | JObj fields =>
      match assoc "type" fields with
      | Some (JStr kind) =>
          if kind =? "text"
          then match assoc "text" fields with
               | Some (JStr _) => true
               | _ => false
               end
          else true
      | _ => true
      end
  | _ => true
  end.

(** The input of a "Task" tool call, when present, is a dict. *)
Definition task_block_ok (block : json) : bool :=
  match block with
  | JObj fields =>
      match assoc "type" fields, assoc "name" fields with
      | Some (JStr kind), Some (JStr name) =>
          if (kind =? "tool_use") && (name =? "Task")
          then field_is isinstance_dict fields "input"
          else true
      | _, _ => true
      end
  | _ => true
  end.

Definition user_ok (fields : list (string * json)) : bool :=
  match assoc "message" fields with
  | Some (JObj msg) =>
      match assoc "content" msg with
      | Some (JArr blocks) => forallb text_block_ok blocks
      | _ => true
      end
  | Some _ => false
  | None => true
  end.

Definition assistant_ok (fields : list (string * json)) : bool :=
  match assoc "message" fields with
  | Some (JObj msg) =>
      field_is usage_ok msg "usage"
      && field_is hashable msg "model"
      && match assoc "content" msg with
         | Some (JArr blocks) => forallb task_block_ok blocks
         | _ => true
         end
  | Some _ => false
  | None => true
  end.

Definition well_shaped (data : json) : bool :=
  match data with
  | JObj fields =>
      match assoc "type" fields with
      | Some (JStr kind) =>
          if kind =? "user" then user_ok fields
          else if kind =? "assistant" then assistant_ok fields
          else true
      | _ => true
      end
  | _ => false
  end.

(** *** Timestamps *)

(** The timestamp a record carries, whatever else it holds. *)
Definition timestamp_of (data : json) : list json :=
  match data with
  | JObj fields =>
      match assoc "timestamp" fields with
      | Some ts => if truthy ts then [ts] else []
      | None => []
      end
  | _ => []
  end.

(** All the timestamps seen in a log, in log order. *)
Definition seen_timestamps (json_loads : string -> option json)
    (lines : list string) : list json :=
  flat_map timestamp_of (records json_loads lines).

(** ISO-8601 timestamps of one format and zone compare as their text. *)
Definition ts_le (a b : json) : Prop :=
  match a, b with
  | JStr s, JStr t => String.leb s t = true
  | _, _ => False
  end.

Definition is_minimum (R : json -> json -> Prop) (x : json) (xs : list json)
  : Prop := In x xs /\ forall y, In y xs -> R x y.

Definition is_maximum (R : json -> json -> Prop) (x : json) (xs : list json)
  : Prop := In x xs /\ forall y, In y xs -> R y x.

(** *** Workflow markers *)

(** The texts of a user record: its string content, or the strings of its
    text blocks. *)
Definition block_text (block : json) : list string :=
  match block with
  | JObj fields =>
      match assoc "type" fields, assoc "text" fields with
      | Some (JStr kind), Some (JStr text) =>
          if kind =? "text" then [text] else []
      | _, _ => []
      end
  | _ => []
  end.

(** The texts of a content: the string itself, or the strings of its text
    blocks. *)
Definition content_texts (content : json) : list string :=
  match content with
  | JStr text => [text]
  | JArr blocks => flat_map block_text blocks
  | _ => []
  end.

Definition record_texts (data : json) : list string :=
  match data with
  | JObj fields =>
      match assoc "type" fields with
      | Some (JStr kind) =>
          if kind =? "user" then
            match assoc "message" fields with
            | Some (JObj msg) =>
                match assoc "content" msg with
                | Some content => content_texts content
                | None => []
                end
            | _ => []
            end
          else []
      | _ => []
      end
  | _ => []
  end.

(** The user-record texts of a log, in log order. *)
Definition user_text_sequence (json_loads : string -> option json)
    (lines : list string) : list string :=
  flat_map record_texts (records json_loads lines).

(** Every command name a text holds, in order ([re.findall]). *)
Fixpoint all_command_names (text : string) : list string :=
  match match_command_name text with
  | Some (name, _) => [name]
  | None => []
  end
  ++ match text with
     | String _ t => all_command_names t
     | EmptyString => []
     end.

(** The command a text names: the one of its first marker. *)
Definition named_command (text : string) : list string :=
  match search_command_name text with
  | Some name => [name]
  | None => []
  end.

Definition first_tracked (names : list string) : string :=
  match find tracked names with
  | Some name => name
  | None => ""
  end.

(** *** Percentiles *)

(** [v[i]] for an index in range. *)
Definition at_index (v : list Q) (i : Z) : Q := nth (Z.to_nat i) v 0.


(** *** Auxiliary notions *)

Definition is_string (v : json) : bool :=
  match v with JStr _ => true | _ => false end.

(** The strings among a list of values. *)
Definition strings_of (values : list json) : list string :=
  flat_map (fun v => match v with JStr s => [s] | _ => [] end) values.

(** ** Scenarios *)

Definition quote : string := String (ascii_of_nat 34) EmptyString.

(** The JSON text of a value made of null, booleans, integers, plain
    strings, arrays and objects.  (A float is written as a quotient of
    integers, which is not JSON; the scenarios hold none.) *)
Fixpoint dumps (v : json) : string :=
  match v with
  | JNull => "null"
  | JBool true => "true"
  | JBool false => "false"
  | JInt n => NilZero.string_of_int (Z.to_int n)
  | JFloat q =>
      NilZero.string_of_int (Z.to_int (Qnum q)) ++ "/"
      ++ NilZero.string_of_int (Z.to_int (Zpos (Qden q)))
  | JStr s => quote ++ s ++ quote
  | JArr items =>
      "["
      ++ (fix elements (vs : list json) : string :=
            match vs with
            | [] => ""
            | [x] => dumps x
            | x :: rest => dumps x ++ "," ++ elements rest
            end) items
      ++ "]"
  | JObj fields =>
      "{"
      ++ (fix members (kvs : list (string * json)) : string :=
            match kvs with
            | [] => ""
            | [(k, x)] => quote ++ k ++ quote ++ ":" ++ dumps x
            | (k, x) :: rest =>
                quote ++ k ++ quote ++ ":" ++ dumps x ++ "," ++ members rest
            end) fields
      ++ "}"
  end.

(** [json.loads] restricted to the texts of the given values: any other
    line fails to decode. *)
Definition loads_only (values : list json) (line : string) : option json :=
  find (fun v => dumps v =? line) values.

Definition assistant_record (model : string) (input output : Z) : json :=
  JObj [ ("type", JStr "assistant");
         ("message",
          JObj [ ("model", JStr model);
                 ("usage", JObj [ ("input_tokens", JInt input);
                                  ("output_tokens", JInt output) ]) ]) ].

Definition user_record (text : string) : json :=
  JObj [ ("type", JStr "user");
         ("message", JObj [ ("role", JStr "user"); ("content", JStr text) ]) ].

Definition stamped_record (ts : string) : json :=
  JObj [ ("type", JStr "system"); ("timestamp", JStr ts) ].

Definition command_marker (name : string) : string :=
  "<command-name>/" ++ name ++ "</command-name>".

(** The end-to-end scenario: two assistant records of one model. *)
Definition two_records (model : string) : list json :=
  [ assistant_record model 1000 500; assistant_record model 1000 500 ].

(** A log whose only line is the JSON number 42. *)
Definition number_line : json := JInt 42.

(** Two records whose timestamps come in decreasing order. *)
Definition unordered_log : list json :=
  [ stamped_record "2026-01-02T00:00:00Z"; stamped_record "2026-01-01T00:00:00Z" ].

(** A first message naming "ecc-dev-story" and a later one naming "ecc-e2e". *)
Definition two_workflows_log : list json :=
  [ user_record (command_marker "ecc-dev-story");
    assistant_record "claude-opus-4-6" 10 5;
    user_record (command_marker "ecc-e2e") ].

(** A message with two markers, the first one naming no tracked workflow. *)
Definition two_markers_log : list json :=
  [ user_record (command_marker "clear" ++ command_marker "ecc-e2e") ].

(** The filesystem holding the directory /a/b-c/d and nothing else below /. *)
Definition tree_exists (path : Path) : bool :=
  existsb (fun known => if list_eq_dec string_dec path known then true else false)
          [ ["a"]; ["a"; "b-c"]; ["a"; "b-c"; "d"] ].

Definition history_row (cost : Q) : HistoryRecord :=
  mkRow "2026-01-01 10:00" "0123456789ab" "" "opus" cost.

(** Twenty rows at $1.00, the most recent at $5.00 instead. *)
Definition outlier_history : list HistoryRecord :=
  (repeat (history_row 1) 19 ++ [history_row 5])%list.

(** One zero-cost row among nine rows at $1.00, at position [i]. *)
Definition zero_row_history (i : nat) : list HistoryRecord :=
  (repeat (history_row 1) i ++ [history_row 0]
   ++ repeat (history_row 1) (9 - i))%list.

(** ** Further functions of the script *)

(** [s.replace(old, new)] for single characters *)
Fixpoint replace_char (old new : ascii) (s : string) : string :=
  match s with
  | EmptyString => EmptyString
  | String c t =>
      String (if Ascii.eqb c old then new else c) (replace_char old new t)
  end.

(** The encoding of [resolve_project_dir]:
    [str(project_root).replace("/", "-")]. *)
Definition encode_project_path (project_root : Path) : string :=
  replace_char "/" "-" (path_str project_root).

(** [sep.join(parts)] *)
Fixpoint join_with (sep : string) (parts : list string) : string :=
  match parts with
  | [] => ""
  | [part] => part
  | part :: rest => part ++ sep ++ join_with sep rest
  end.

(** [c not in s] *)
Fixpoint lacks (c : ascii) (s : string) : bool :=
  match s with
  | EmptyString => true
  | String c' t => negb (Ascii.eqb c' c) && lacks c t
  end.

(** A name [pathlib] keeps as one component: not empty, not ".", without a
    separator. *)
Definition component_ok (name : string) : bool :=
  negb (name =? "") && negb (name =? ".") && lacks "/" name.

(** The candidates the inner loop of the decoder tries before it reaches a
    whole name: the name cut at each of its hyphens. *)
Fixpoint candidates (candidate : string) (pieces : list string) : list string :=
  match pieces with
  | [] => []
  | piece :: rest => candidate :: candidates (candidate ++ "-" ++ piece) rest
  end.

Definition hyphen_prefixes (name : string) : list string :=
  match split "-" name with
  | piece :: rest => candidates piece rest
  | [] => []
  end.

(** The naive decoding: every hyphen is a separator. *)
Definition naive_path (parts : list string) : Path :=
  fold_left joinpath parts root.

(** *** Dicts of token counters *)

(** The sum of a per-model quantity over the entries of a dict. *)
Fixpoint measure (mu : json -> Tokens -> Q) (tbm : TokensByModel) : Q :=
  match tbm with
  | [] => 0
  | (model, tokens) :: rest => mu model tokens + measure mu rest
  end.

(** The cost of one model's counters at that model's rates. *)
Definition model_cost (model : json) (tokens : Tokens) : Q :=
  cost_at (pricing_for model) tokens.

Definition nonneg_tokens (t : Tokens) : Prop :=
  0 <= t_input t /\ 0 <= t_output t /\ 0 <= t_cache_5m t
  /\ 0 <= t_cache_1h t /\ 0 <= t_cache_read t.

(** Two models in a dict, in one order and in the other. *)
Definition opus_then_sonnet : TokensByModel :=
  [ (JStr "claude-opus-4-6", mkTokens 0 1000 0 0 0 1);
    (JStr "claude-sonnet-4-5-20250929", mkTokens 1000 2000 0 0 0 1) ].

Definition sonnet_then_opus : TokensByModel :=
  [ (JStr "claude-sonnet-4-5-20250929", mkTokens 1000 2000 0 0 0 1);
    (JStr "claude-opus-4-6", mkTokens 0 1000 0 0 0 1) ].

(** No two keys of the dict are equal. *)
Fixpoint unique_keys (tbm : TokensByModel) : Prop :=
  match tbm with
  | [] => True
  | (model, _) :: rest => find_model model rest = None /\ unique_keys rest
  end.

(** The same counters, as numbers. *)
Definition tokens_eq (a b : Tokens) : Prop :=
  t_input a == t_input b
  /\ t_output a == t_output b
  /\ t_cache_5m a == t_cache_5m b
  /\ t_cache_1h a == t_cache_1h b
  /\ t_cache_read a == t_cache_read b
  /\ t_messages a = t_messages b.

Definition lookup_eq (a b : option Tokens) : Prop :=
  match a, b with
  | Some x, Some y => tokens_eq x y
  | None, None => True
  | _, _ => False
  end.

(** [sum(s["msg_count"] for s in result["subagents"])] of
    [_build_csv_row] *)
Definition subagent_msgs (results : list SubAgentResult) : Z :=
  fold_left (fun acc s => (acc + sa_msg_count s)%Z) results 0%Z.

(** *** The parser as a fold over the records of a log *)

Fixpoint parse_records (rs : list json) (st : ParseState) : Py ParseState :=
  match rs with
  | [] => Ok st
  | data :: rest =>
      st' <- process_record data st ;;
      parse_records rest st'
  end.

(** [data.get("type")] of a record. *)
Definition record_type (data : json) : json :=
  match data with
  | JObj fields =>
      match assoc "type" fields with Some kind => kind | None => JNull end
  | _ => JNull
  end.

Definition is_assistant (data : json) : bool :=
  eq_str (record_type data) "assistant".

Definition is_user (data : json) : bool :=
  eq_str (record_type data) "user".

(** The sum of the ["messages"] counters of a dict. *)
Definition total_messages (tbm : TokensByModel) : Z :=
  fold_left (fun acc item => (acc + t_messages (snd item))%Z) tbm 0%Z.

Definition hashable_keys (tbm : TokensByModel) : Prop :=
  Forall (fun item => hashable (fst item) = true) tbm.

(** Two parser states with the same usage: counters, message count and
    task calls. *)
Definition same_usage (a b : ParseState) : Prop :=
  tokens_by_model a = tokens_by_model b
  /\ msg_count a = msg_count b
  /\ task_calls a = task_calls b.

(** The lines of a log that decode to a record of type "assistant". *)
Definition assistant_lines (json_loads : string -> option json)
    (lines : list string) : list string :=
  filter (fun line => match decode_line json_loads line with
                      | Some data => is_assistant data
                      | None => false
                      end) lines.

(** [if "compact" in sa_file.name: continue] *)
Definition compact_log (file : string * list string) : bool :=
  contains "compact" (fst file).

(** *** Texts with command markers *)

(** Every character of [s] is in the class [p]. *)
Fixpoint every (p : ascii -> bool) (s : string) : bool :=
  match s with
  | EmptyString => true
  | String c t => p c && every p t
  end.

(** The marker of a command's arguments. *)
Definition args_marker (args : string) : string :=
  "<command-args>" ++ args ++ "</command-args>".

(** A value [first_user_msg] can hold: [None], or at most 150 characters
    (or items) of a text. *)
Definition short_message (v : json) : Prop :=
  match v with
  | JNull => True
  | JStr s => (String.length s <= 150)%nat
  | JArr items => (List.length items <= 150)%nat
  | _ => False
  end.

(** The workflow label of a parse: blank with a blank story, or tracked. *)
Definition label_ok (st : ParseState) : Prop :=
  (detected_workflow st = "" /\ detected_story st = "")
  \/ In (detected_workflow st) TRACKED_WORKFLOWS.

(** *** The status of a session against the thresholds *)

(** [print_cost_notice]: [if session_cost >= high: ... elif session_cost >=
    warning: ... else: ...]. *)
Inductive Status : Type :=
| HIGH
| WARN
| OK.

Definition cost_status (session_cost : Q) (stats : Stats) : Status :=
  if ge session_cost (high stats) then HIGH
  else if ge session_cost (warning stats) then WARN
  else OK.

(** The sums over the per-model table and over the per-workflow table of a
    snapshot. *)
Definition model_count_sum (table : list (string * ModelBreakdown)) : Z :=
  fold_right (fun item acc => (mb_count (snd item) + acc)%Z) 0%Z table.

Definition model_cost_sum (table : list (string * ModelBreakdown)) : Q :=
  fold_right (fun item acc => mb_total_cost (snd item) + acc) 0 table.

Definition workflow_count_sum (table : list (string * WorkflowStats)) : Z :=
  fold_right (fun item acc => (wf_count (snd item) + acc)%Z) 0%Z table.

(** The rows that carry a workflow label. *)
Definition labelled (rows : list HistoryRecord) : list HistoryRecord :=
  filter (fun r => negb (strip (h_workflow r) =? "")) rows.

(** The update of one row's entry in the per-model table. *)
Definition count_row (cost : Q) (old : option ModelBreakdown)
  : ModelBreakdown :=
  let b := match old with
           | Some b => b
           | None => mkModelBreakdown 0 0
           end in
  mkModelBreakdown (mb_count b + 1) (mb_total_cost b + cost).

(** The number of costs held by the per-workflow groups. *)
Fixpoint group_sizes (groups : list (string * list Q)) : Z :=
  match groups with
  | [] => 0%Z
  | (_, costs) :: rest => (len costs + group_sizes rest)%Z
  end.

(** *** Parsing one log after another *)

(** [b] has recorded at least what [a] has: a first user message, a
    workflow label. *)
Definition at_least_as_set (a b : ParseState) : Prop :=
  (truthy (first_user_msg a) = true -> truthy (first_user_msg b) = true)
  /\ (detected_workflow a <> "" -> detected_workflow b <> "").

(** The entry of a model in two dicts taken together. *)
Definition combined (x y : option Tokens) : option Tokens :=
  match x, y with
  | None, None => None
  | _, _ => Some (add_tokens (tokens_or_zero x) (tokens_or_zero y))
  end.

(** The state [b] reached from [base] holds the usage of [base] plus the
    usage of the state [a] reached from the initial state. *)
Definition usage_added (base a b : ParseState) : Prop :=
  (forall model,
      lookup_eq (find_model model (tokens_by_model b))
                (combined (find_model model (tokens_by_model base))
                          (find_model model (tokens_by_model a))))
  /\ msg_count b = (msg_count base + msg_count a)%Z
  /\ task_calls b = (task_calls base ++ task_calls a)%list.

(** One log made of the parent log and the sub-agent logs that are
    analysed, in order. *)
Definition session_log (parent_lines : list string)
    (subagent_files : list (string * list string)) : list string :=
  (parent_lines
   ++ flat_map snd (filter (fun file => negb (compact_log file))
                           subagent_files))%list.

(** *** Report lines *)

(** [model_short_name] on a [str]. *)
Definition model_short_name (model : string) : string :=
  if contains "opus" model then "opus"
  else if contains "sonnet" model then "sonnet"
  else if contains "haiku" model then "haiku"
  else substring 0 20 model.

(** A token total summed over the sub-agents of a session. *)
Definition subagent_tokens (total : TokensByModel -> Q)
    (results : list SubAgentResult) : Q :=
  fold_left (fun acc s => acc + total (sa_tokens_by_model s)) results 0.

(** * Properties *)

(** ** The error monad *)

Lemma bind_Ok {A B : Type} (c : Py A) (k : A -> Py B) (b : B) :
  bind c k = Ok b -> exists a, c = Ok a /\ k a = Ok b.
Proof.
  destruct c as [a | e]; simpl; intros H.
  - exists a. split; [reflexivity | exact H].
  - discriminate H.
Qed.

Lemma bind_returns {A B : Type} (c : Py A) (k : A -> Py B) :
  returns c -> (forall a, c = Ok a -> returns (k a)) -> returns (bind c k).
Proof.
  intros [a Ha] Hk. rewrite Ha. simpl. apply Hk. exact Ha.
Qed.

Lemma returns_Ok {A : Type} (a : A) : returns (Ok a).
Proof. exists a. reflexivity. Qed.

#[local] Hint Resolve returns_Ok : core.

(** ** CostModel *)

Lemma DEFAULT_PRICING_is_opus_4_6 :
  DEFAULT_PRICING = mkPricing 5 25 (25 # 4) 10 (1 # 2).
Proof. reflexivity. Qed.

(** The loop of [calculate_cost] adds, for each model, the cost its rates
    assign to its counters. *)
Lemma add_model_cost_cost_at (total : Q) (model : json) (tokens : Tokens) :
  add_model_cost total (model, tokens)
  == total + cost_at (pricing_for model) tokens.
Proof. unfold add_model_cost, cost_at. ring. Qed.

Lemma calculate_cost_single (model : json) (tokens : Tokens) :
  calculate_cost [(model, tokens)] == cost_at (pricing_for model) tokens.
Proof.
  unfold calculate_cost. simpl fold_left.
  transitivity (0 + cost_at (pricing_for model) tokens).
  - apply add_model_cost_cost_at.
  - ring.
Qed.

(** A model absent from the table is priced at the default rates. *)
Lemma pricing_for_unlisted (name : string) :
  assoc name MODEL_PRICING = None -> pricing_for (JStr name) = DEFAULT_PRICING.
Proof. intros H. unfold pricing_for. rewrite H. reflexivity. Qed.

(** The default rates bound the rates of every listed model but
    "claude-opus-4-1-20250805". *)
Lemma default_pricing_bounds_other_models (name : string) (p : Pricing) :
  In (name, p) MODEL_PRICING ->
  name <> "claude-opus-4-1-20250805" ->
  p_input p <= p_input DEFAULT_PRICING
  /\ p_output p <= p_output DEFAULT_PRICING
  /\ p_cache_5m p <= p_cache_5m DEFAULT_PRICING
  /\ p_cache_1h p <= p_cache_1h DEFAULT_PRICING
  /\ p_cache_read p <= p_cache_read DEFAULT_PRICING.
Proof.
  intros Hin Hname. simpl in Hin.
  repeat (destruct Hin as [Heq | Hin];
          [ inversion Heq; subst; clear Heq;
            try (exfalso; apply Hname; reflexivity);
            repeat split; vm_compute; discriminate | ]).
  destruct Hin.
Qed.

(** C1: the default rates are those of "claude-opus-4-6", and the table
    lists "claude-opus-4-1-20250805" at three times those rates: each of
    the five default rates is strictly below the corresponding rate of
    that model, and one million input tokens cost $5.00 under an unknown
    model but $15.00 under that listed one; for any counters the listed
    model costs three times the fallback.  The fallback is not an upper
    bound of the table. *)
Theorem default_pricing_below_opus_4_1 :
  let opus_4_1 := mkPricing 15 75 (75 # 4) 30 (3 # 2) in
  let tokens := mkTokens (inject_Z 1000000) 0 0 0 0 1 in
  assoc "unknown" MODEL_PRICING = None
  /\ pricing_for (JStr "unknown") = DEFAULT_PRICING
  /\ assoc "claude-opus-4-1-20250805" MODEL_PRICING = Some opus_4_1
  /\ p_input DEFAULT_PRICING < p_input opus_4_1
  /\ p_output DEFAULT_PRICING < p_output opus_4_1
  /\ p_cache_5m DEFAULT_PRICING < p_cache_5m opus_4_1
  /\ p_cache_1h DEFAULT_PRICING < p_cache_1h opus_4_1
  /\ p_cache_read DEFAULT_PRICING < p_cache_read opus_4_1
  /\ calculate_cost [(JStr "unknown", tokens)] == 5
  /\ calculate_cost [(JStr "claude-opus-4-1-20250805", tokens)] == 15
  /\ (forall counters,
         calculate_cost [(JStr "claude-opus-4-1-20250805", counters)]
         == 3 * calculate_cost [(JStr "unknown", counters)]).
Proof.
  cbv zeta.
  repeat (split; [vm_compute; reflexivity |]).
  intros counters.
  transitivity (cost_at (mkPricing 15 75 (75 # 4) 30 (3 # 2)) counters);
    [apply calculate_cost_single |].
  transitivity (3 * cost_at DEFAULT_PRICING counters).
  - unfold cost_at, million. simpl. field.
  - apply Qmult_comp; [reflexivity |]. symmetry. apply calculate_cost_single.
Qed.

(** ** UsageParser and SessionAggregator: the end-to-end scenario *)

(** A decoded assistant record of a new model starts that model's entry. *)
Lemma process_first_assistant_record (m : string) (i o : Z) :
  process_record (assistant_record m i o) initial_state
  = Ok (mkParse [(JStr m, mkTokens (0 + inject_Z i) (0 + inject_Z o) 0
                                   (0 + inject_Z 0) (0 + inject_Z 0) (0 + 1))]
                JNull JNull (0 + 1) JNull [] "" "").
Proof. reflexivity. Qed.

(** A second record of the same model adds to that entry. *)
Lemma process_next_assistant_record (m : string) (i o : Z) (t : Tokens)
    (n : Z) :
  process_record (assistant_record m i o)
                 (mkParse [(JStr m, t)] JNull JNull n JNull [] "" "")
  = Ok (mkParse [(JStr m,
                  mkTokens (t_input t + inject_Z i) (t_output t + inject_Z o)
                           (t_cache_5m t) (t_cache_1h t + inject_Z 0)
                           (t_cache_read t + inject_Z 0) (t_messages t + 1))]
                JNull JNull (n + 1) JNull [] "" "").
Proof.
  unfold process_record, assistant_record. simpl.
  unfold process_assistant. simpl.
  unfold key_eqb. simpl. rewrite String.eqb_refl. reflexivity.
Qed.

(** C2 (amended): a parent log of two assistant records of one model, each
    with 1000 input and 500 output tokens and no cache usage, analysed with
    no sub-agent log, gives one entry with input 2000 and output 1000,
    priced at the rates the table gives the model identifier.  For the
    listed identifier "claude-sonnet-4-5-20250929" the total cost is the
    binary64 sum of 2000 x 3.00 / 1e6 and 1000 x 15.00 / 1e6, which is
    0.020999999999999998: it is below 0.021, the exact value of the formula,
    by less than 1e-17.  The identifier "sonnet" is not in the table, so it
    is priced at the default rates: 2000 x 5.00 / 1e6 + 1000 x 25.00 / 1e6,
    which is 0.035. *)
Theorem two_assistant_records_cost (json_loads : string -> option json)
    (fromisoformat : string -> bool) (id line1 line2 model : string) :
  decode_line json_loads line1 = Some (assistant_record model 1000 500) ->
  decode_line json_loads line2 = Some (assistant_record model 1000 500) ->
  exists r,
    analyze_session json_loads fromisoformat id [line1; line2] [] = Ok r
    /\ subagents r = []
    /\ all_tokens r = [(JStr model, mkTokens 2000 1000 0 0 0 2)]
    /\ total_input (all_tokens r) == 2000
    /\ total_output (all_tokens r) == 1000
    /\ total_cost r = B64.calculate_cost (all_tokens r)
    /\ (model = "claude-sonnet-4-5-20250929" ->
        total_cost r = 0.020999999999999998%float
        /\ total_cost r
           = (0 + 2000 * 3 / 1000000 + 1000 * 15 / 1000000)%float
        /\ 2000 * 3 / million + 1000 * 15 / million == 21 # 1000
        /\ B64.to_Q (total_cost r) < 21 # 1000
        /\ (21 # 1000) - B64.to_Q (total_cost r) < 1 # 100000000000000000)
    /\ (model = "sonnet" ->
        total_cost r = 0.035%float
        /\ total_cost r
           = (0 + 2000 * 5 / 1000000 + 1000 * 25 / 1000000)%float).
Proof.
  intros H1 H2.
  unfold analyze_session, parse_jsonl. simpl parse_lines.
  unfold process_line. rewrite H1.
  rewrite process_first_assistant_record. simpl bind.
  rewrite H2. rewrite process_next_assistant_record. simpl bind.
  eexists. split; [reflexivity |].
  cbn [subagents all_tokens total_cost tokens_by_model].
  split; [reflexivity |].
  split; [reflexivity |].
  split; [vm_compute; reflexivity |].
  split; [vm_compute; reflexivity |].
  split; [reflexivity |].
  split; intros ->; repeat split; vm_compute; reflexivity.
Qed.

(** The scenario as a log file: the JSON texts of the two records. *)
Lemma two_assistant_records_cost_witness :
  exists r,
    analyze_session (loads_only (two_records "claude-sonnet-4-5-20250929"))
      (fun _ => true) "session"
      (map dumps (two_records "claude-sonnet-4-5-20250929")) []
    = Ok r
    /\ total_cost r = 0.020999999999999998%float.
Proof.
  destruct (two_assistant_records_cost
              (loads_only (two_records "claude-sonnet-4-5-20250929"))
              (fun _ => true) "session"
              (dumps (assistant_record "claude-sonnet-4-5-20250929" 1000 500))
              (dumps (assistant_record "claude-sonnet-4-5-20250929" 1000 500))
              "claude-sonnet-4-5-20250929" eq_refl eq_refl)
    as [r [Hr [_ [_ [_ [_ [_ [Hsonnet _]]]]]]]].
  exists r. split; [exact Hr | exact (proj1 (Hsonnet eq_refl))].
Defined.

(** C2, as stated, fails twice.  With the model identifier "sonnet" the
    two records give the totals 2000 and 1000 but a cost of 0.035, not
    0.021; and with the listed identifier, whose rates are those of the
    claim, the cost the program computes is not the binary64 number 0.021
    either: [total_cost == 0.021] is false. *)
Lemma cost_is_not_exactly_0_021 :
  (exists r,
      analyze_session (loads_only (two_records "sonnet")) (fun _ => true)
                      "session" (map dumps (two_records "sonnet")) []
      = Ok r
      /\ total_input (all_tokens r) == 2000
      /\ total_output (all_tokens r) == 1000
      /\ total_cost r = 0.035%float
      /\ (total_cost r =? 0.021)%float = false)
  /\ (exists r,
         analyze_session
           (loads_only (two_records "claude-sonnet-4-5-20250929"))
           (fun _ => true) "session"
           (map dumps (two_records "claude-sonnet-4-5-20250929")) []
         = Ok r
         /\ total_cost r = 0.020999999999999998%float
         /\ (total_cost r =? 0.021)%float = false
         /\ (total_cost r <? 0.021)%float = true).
Proof.
  split; eexists; (split; [vm_compute; reflexivity |]);
    repeat split; vm_compute; reflexivity.
Qed.

(** ** PathDecoder *)

(** The walk, one step at a time. *)
Lemma decode_from_last (path_exists : Path -> bool) (path : Path)
    (segment : string) :
  decode_from path_exists path [segment] = joinpath path segment.
Proof. reflexivity. Qed.

Lemma decode_from_found (path_exists : Path -> bool) (path : Path)
    (segment next : string) (rest : list string) :
  path_exists (joinpath path segment) = true ->
  decode_from path_exists path (segment :: next :: rest)
  = decode_from path_exists (joinpath path segment) (next :: rest).
Proof.
  intros H. cbn [decode_from]. rewrite H. reflexivity.
Qed.

Lemma decode_from_missing (path_exists : Path -> bool) (path : Path)
    (segment next : string) (rest : list string) :
  path_exists (joinpath path segment) = false ->
  decode_from path_exists path (segment :: next :: rest)
  = decode_from path_exists path ((segment ++ "-" ++ next) :: rest).
Proof.
  intros H. cbn [decode_from]. rewrite H. reflexivity.
Qed.

(** C8: when /a and /a/b-c exist and /a/b does not, the encoded name
    "-a-b-c-d" decodes to /a/b-c/d: the walk takes "a", finds no /a/b,
    re-joins "b" with "c", finds /a/b-c, and ends with "d". *)
Theorem decode_rejoins_segment (path_exists : Path -> bool) :
  path_exists ["a"] = true ->
  path_exists ["a"; "b"] = false ->
  path_exists ["a"; "b-c"] = true ->
  _decode_project_path path_exists "-a-b-c-d" = ["a"; "b-c"; "d"]
  /\ path_str (_decode_project_path path_exists "-a-b-c-d") = "/a/b-c/d".
Proof.
  intros Ha Hab Habc.
  assert (H : _decode_project_path path_exists "-a-b-c-d" = ["a"; "b-c"; "d"]).
  { unfold _decode_project_path. simpl split.
    rewrite decode_from_found by exact Ha.
    rewrite decode_from_missing by exact Hab.
    rewrite decode_from_found by exact Habc.
    reflexivity. }
  rewrite H. split; reflexivity.
Qed.

(** The tree of the scenario: exactly /a, /a/b-c and /a/b-c/d exist. *)
Lemma decode_rejoins_segment_witness :
  tree_exists ["a"; "b"] = false
  /\ path_str (_decode_project_path tree_exists "-a-b-c-d") = "/a/b-c/d".
Proof.
  split; [reflexivity |].
  exact (proj2 (decode_rejoins_segment tree_exists eq_refl eq_refl eq_refl)).
Defined.

(** ** StatisticsEngine: the percentile helper *)

Lemma len_nonneg {A : Type} (xs : list A) : (0 <= len xs)%Z.
Proof. unfold len. lia. Qed.

Lemma len_pos {A : Type} (xs : list A) : xs <> [] -> (1 <= len xs)%Z.
Proof. destruct xs; [congruence | unfold len; simpl; lia]. Qed.

(** On a number that is not negative, [int] is the floor. *)
Lemma py_int_floor (k : Q) : 0 <= k -> py_int k = Qfloor k.
Proof.
  destruct k as [n d]. unfold Qle, py_int, Qfloor. simpl. intros H.
  apply Z.quot_div_nonneg; lia.
Qed.

Lemma index_in_range (data : list Q) (i : Z) :
  (0 <= i < len data)%Z -> index data i = Ok (at_index data i).
Proof.
  intros [Hlo Hhi]. unfold index, at_index.
  destruct (i <? 0)%Z eqn:Hneg; [apply Z.ltb_lt in Hneg; lia |].
  rewrite Hneg.
  destruct (nth_error data (Z.to_nat i)) as [x |] eqn:Hnth.
  - rewrite (nth_error_nth data (Z.to_nat i) 0 Hnth). reflexivity.
  - apply nth_error_None in Hnth. unfold len in Hhi. lia.
Qed.

(** The position [k] lies between the first and the last index. *)
Lemma percentile_k_range {A : Type} (data : list A) (p : Q) :
  data <> [] -> 0 <= p -> p <= 100 ->
  0 <= percentile_k data p /\ percentile_k data p <= inject_Z (len data - 1).
Proof.
  intros Hne Hlo Hhi. unfold percentile_k.
  pose proof (len_pos data Hne) as Hlen.
  assert (Hn : 0 <= inject_Z (len data - 1)).
  { change 0 with (inject_Z 0). rewrite <- Zle_Qle. lia. }
  assert (Hq0 : 0 <= p / 100).
  { apply Qle_shift_div_l; [reflexivity |]. rewrite Qmult_0_l. exact Hlo. }
  assert (Hq1 : p / 100 <= 1).
  { apply Qle_shift_div_r; [reflexivity |]. rewrite Qmult_1_l. exact Hhi. }
  split.
  - apply Qmult_le_0_compat; assumption.
  - rewrite <- (Qmult_1_l (inject_Z (len data - 1))) at 2.
    apply Qmult_le_compat_r; assumption.
Qed.

Lemma percentile_f_floor {A : Type} (data : list A) (p : Q) :
  data <> [] -> 0 <= p -> p <= 100 ->
  percentile_f data p = Qfloor (percentile_k data p).
Proof.
  intros Hne Hlo Hhi. unfold percentile_f.
  apply py_int_floor. apply (percentile_k_range data p Hne Hlo Hhi).
Qed.

(** The index arithmetic of [percentile], for a percentile between 0 and
    100: [f] is a floor within the list, and [c] is the next index unless
    [f] is the last one. *)
Lemma percentile_index_facts {A : Type} (data : list A) (p : Q) :
  data <> [] -> 0 <= p -> p <= 100 ->
  let f := percentile_f data p in
  let c := percentile_c data p in
  f = Qfloor (percentile_k data p)
  /\ (0 <= f <= len data - 1)%Z
  /\ ((c = f + 1 /\ f + 1 < len data) \/ (c = f /\ f = len data - 1))%Z.
Proof.
  intros Hne Hlo Hhi f c.
  pose proof (percentile_k_range data p Hne Hlo Hhi) as [Hk0 Hk1].
  assert (Hf : f = Qfloor (percentile_k data p))
    by (apply percentile_f_floor; assumption).
  assert (Hf0 : (0 <= f)%Z).
  { rewrite Hf. rewrite <- (Qfloor_Z 0). apply Qfloor_resp_le. exact Hk0. }
  assert (Hf1 : (f <= len data - 1)%Z).
  { rewrite Hf. rewrite <- (Qfloor_Z (len data - 1)).
    apply Qfloor_resp_le. exact Hk1. }
  split; [exact Hf |]. split; [lia |].
  unfold c, percentile_c. fold f.
  destruct (f + 1 <? len data)%Z eqn:Hlt.
  - apply Z.ltb_lt in Hlt. left. split; [reflexivity | exact Hlt].
  - apply Z.ltb_ge in Hlt. right. split; [reflexivity | lia].
Qed.

(** C10: for a list that is not empty and a percentile between 0 and 100,
    the two indices of the percentile helper satisfy 0 <= f <= c < len:
    [f] is the floor of p/100 x (len - 1) and [c] is [f + 1] clamped to the
    last index, so both reads are in range and the helper returns; on a
    singleton both indices are 0, and at p = 100 both are the last index. *)
Theorem percentile_indices_in_bounds (data : list Q) (p : Q) :
  data <> [] -> 0 <= p -> p <= 100 ->
  let f := percentile_f data p in
  let c := percentile_c data p in
  f = Qfloor (p / 100 * inject_Z (len data - 1))
  /\ (c = f + 1 \/ (c = f /\ f = len data - 1))%Z
  /\ (0 <= f /\ f <= c /\ c < len data)%Z
  /\ index data f = Ok (at_index data f)
  /\ index data c = Ok (at_index data c)
  /\ returns (percentile data p)
  /\ (len data = 1%Z -> f = 0%Z /\ c = 0%Z)
  /\ (p == 100 -> f = (len data - 1)%Z /\ c = (len data - 1)%Z).
Proof.
  intros Hne Hlo Hhi f c.
  destruct (percentile_index_facts data p Hne Hlo Hhi) as [Hf [Hrange Hc]].
  fold f in Hf, Hrange, Hc. fold c in Hc.
  assert (Hbounds : (0 <= f /\ f <= c /\ c < len data)%Z) by lia.
  assert (Hidx_f : index data f = Ok (at_index data f))
    by (apply index_in_range; lia).
  assert (Hidx_c : index data c = Ok (at_index data c))
    by (apply index_in_range; lia).
  split; [exact Hf |].
  split; [destruct Hc as [[Hc _] | Hc]; [left; exact Hc | right; exact Hc] |].
  split; [exact Hbounds |].
  split; [exact Hidx_f |].
  split; [exact Hidx_c |].
  split.
  { unfold percentile. fold f. fold c. rewrite Hidx_f, Hidx_c. simpl.
    apply returns_Ok. }
  split.
  { intros H1. lia. }
  intros Hp.
  assert (Hk : percentile_k data p == inject_Z (len data - 1)).
  { unfold percentile_k. rewrite Hp. field. }
  assert (Hfl : f = (len data - 1)%Z).
  { rewrite Hf. rewrite Hk. apply Qfloor_Z. }
  split; [exact Hfl | lia].
Qed.

Lemma percentile_indices_in_bounds_witness :
  (0 <= percentile_f [1; 2; 3; 4] 90
   /\ percentile_f [1; 2; 3; 4] 90 <= percentile_c [1; 2; 3; 4] 90
   /\ percentile_c [1; 2; 3; 4] 90 < 4)%Z.
Proof.
  assert (Hne : [1; 2; 3; 4] <> []) by discriminate.
  assert (Hlo : 0 <= 90) by (vm_compute; discriminate).
  assert (Hhi : 90 <= 100) by (vm_compute; discriminate).
  exact (proj1 (proj2 (proj2 (percentile_indices_in_bounds
                                [1; 2; 3; 4] 90 Hne Hlo Hhi)))).
Defined.

(** The value [percentile] returns, for a percentile between 0 and 100. *)
Lemma percentile_value (data : list Q) (p : Q) :
  data <> [] -> 0 <= p -> p <= 100 ->
  percentile data p
  = Ok (at_index data (percentile_f data p)
        + (percentile_k data p - inject_Z (percentile_f data p))
          * (at_index data (percentile_c data p)
             - at_index data (percentile_f data p))).
Proof.
  intros Hne Hlo Hhi.
  destruct (percentile_index_facts data p Hne Hlo Hhi) as [_ [Hrange Hc]].
  unfold percentile.
  rewrite (index_in_range data (percentile_f data p)) by lia.
  rewrite (index_in_range data (percentile_c data p)) by lia.
  reflexivity.
Qed.



Lemma sorted_head_least (x : Q) (xs : list Q) :
  Sorted Qle (x :: xs) -> forall y, In y (x :: xs) -> x <= y.
Proof.
  intros Hs y Hy.
  apply (Sorted_StronglySorted Qle_trans) in Hs.
  apply StronglySorted_inv in Hs. destruct Hs as [_ Hall].
  destruct Hy as [<- | Hy].
  - apply Qle_refl.
  - rewrite Forall_forall in Hall. apply Hall. exact Hy.
Qed.





(** ** StatisticsEngine: the snapshot *)

Lemma insert_sorted_length (x : Q) (xs : list Q) :
  List.length (insert_sorted x xs) = S (List.length xs).
Proof.
  induction xs as [| y ys IH]; simpl; [reflexivity |].
  destruct (Qle_bool x y); simpl; [reflexivity | rewrite IH; reflexivity].
Qed.

Lemma sorted_length (xs : list Q) : List.length (sorted xs) = List.length xs.
Proof.
  induction xs as [| x xs IH]; simpl; [reflexivity |].
  rewrite insert_sorted_length, IH. reflexivity.
Qed.

Lemma sorted_nonempty (xs : list Q) : xs <> [] -> sorted xs <> [].
Proof.
  intros Hne Hs. apply Hne. apply length_zero_iff_nil.
  rewrite <- sorted_length, Hs. reflexivity.
Qed.

Lemma insert_sorted_Sorted (x : Q) (xs : list Q) :
  Sorted Qle xs -> Sorted Qle (insert_sorted x xs).
Proof.
  induction xs as [| y ys IH]; intros Hs; simpl.
  - constructor; constructor.
  - destruct (Qle_bool x y) eqn:Hxy.
    + apply Qle_bool_iff in Hxy. constructor; [exact Hs |].
      constructor. exact Hxy.
    + assert (Hyx : y <= x).
      { apply Qlt_le_weak. apply Qnot_le_lt. intros Hle.
        apply Qle_bool_iff in Hle. congruence. }
      apply Sorted_inv in Hs. destruct Hs as [Hs Hhd].
      constructor; [apply IH; exact Hs |].
      destruct ys as [| z zs]; simpl.
      * constructor. exact Hyx.
      * destruct (Qle_bool x z); constructor; [exact Hyx |].
        apply HdRel_inv in Hhd. exact Hhd.
Qed.

(** The percentiles of the snapshot are read from a sorted list. *)
Lemma sorted_Sorted (xs : list Q) : Sorted Qle (sorted xs).
Proof.
  induction xs as [| x xs IH]; simpl; [constructor |].
  apply insert_sorted_Sorted. exact IH.
Qed.

Lemma percentile_sorted_returns (xs : list Q) (p : Q) :
  xs <> [] -> 0 <= p -> p <= 100 -> returns (percentile (sorted xs) p).
Proof.
  intros Hne Hlo Hhi.
  rewrite (percentile_value (sorted xs) p (sorted_nonempty xs Hne) Hlo Hhi).
  apply returns_Ok.
Qed.

Ltac percent_range := vm_compute; discriminate.

Lemma workflow_stats_of_returns (wf_costs : list Q) :
  wf_costs <> [] -> returns (workflow_stats_of wf_costs).
Proof.
  intros Hne. unfold workflow_stats_of.
  repeat (apply bind_returns;
          [apply percentile_sorted_returns; [exact Hne | percent_range ..]
          | intros ? _]).
  apply returns_Ok.
Qed.

Lemma workflow_stats_returns (groups : list (string * list Q)) :
  returns (workflow_stats groups).
Proof.
  induction groups as [| [wf wf_costs] rest IH]; simpl; [apply returns_Ok |].
  destruct (len (sorted wf_costs) =? 0)%Z eqn:Hlen; [exact IH |].
  assert (Hne : wf_costs <> []).
  { intros ->. discriminate Hlen. }
  apply bind_returns; [apply workflow_stats_of_returns; exact Hne |].
  intros s _. apply bind_returns; [exact IH |].
  intros others _. apply returns_Ok.
Qed.

Lemma costs_of_nonempty (rows : list HistoryRecord) :
  rows <> [] -> costs_of rows <> [].
Proof. destruct rows; [congruence | discriminate]. Qed.

(** The statistics engine never raises; it returns the empty result exactly
    when no row has a positive cost. *)
Lemma generate_stats_returns (history : list HistoryRecord) :
  exists result,
    generate_stats history = Ok result
    /\ (result = None <-> qualifying history = []).
Proof.
  unfold generate_stats.
  destruct (qualifying history) as [| r rows] eqn:Hrows.
  - exists None. split; [reflexivity | tauto].
  - assert (Hne : costs_of (r :: rows) <> []) by discriminate.
    destruct (percentile_sorted_returns _ 50 Hne) as [q50 H50];
      [percent_range .. |].
    destruct (percentile_sorted_returns _ 75 Hne) as [q75 H75];
      [percent_range .. |].
    destruct (percentile_sorted_returns _ 90 Hne) as [q90 H90];
      [percent_range .. |].
    destruct (percentile_sorted_returns _ 95 Hne) as [q95 H95];
      [percent_range .. |].
    destruct (workflow_stats_returns (group_by_workflow (r :: rows)))
      as [wf Hwf].
    rewrite H50, H75, H90, H95. cbn [bind]. rewrite Hwf. cbn [bind].
    eexists. split; [reflexivity |].
    split; intros H; discriminate H.
Qed.

(** What a snapshot holds, in terms of the rows that qualify. *)
Lemma generate_stats_inv (history : list HistoryRecord) (s : Stats) :
  generate_stats history = Ok (Some s) ->
  let rows := qualifying history in
  let costs := costs_of rows in
  exists q50 q75 q90 q95 wf,
    rows <> []
    /\ percentile (sorted costs) 50 = Ok q50
    /\ percentile (sorted costs) 75 = Ok q75
    /\ percentile (sorted costs) 90 = Ok q90
    /\ percentile (sorted costs) 95 = Ok q95
    /\ workflow_stats (group_by_workflow rows) = Ok wf
    /\ s = mkStats (len (sorted costs)) (py_round (sum costs) 2)
             (py_round (sum costs / inject_Z (len (sorted costs))) 2)
             (py_round (average (last_n 10 costs)) 2)
             (py_round (raw_avg_last_20 rows) 2)
             (py_round q50 2) (py_round q75 2) (py_round q90 2)
             (py_round q95 2)
             (py_round (py_max q75 (raw_avg_last_20 rows * (3 # 2))) 2)
             (py_round (py_max q90 (raw_avg_last_20 rows * 2)) 2)
             (trend_of costs)
             (find_outliers (py_max q75 (raw_avg_last_20 rows * (3 # 2)))
                            (raw_avg_last_20 rows) (tail_slice 20 rows))
             (group_by_model rows) wf.
Proof.
  intros H rows costs. unfold generate_stats in H.
  fold rows in H. fold costs in H.
  destruct rows as [| r rest] eqn:Hrows; [discriminate H |].
  apply bind_Ok in H. destruct H as [q50 [H50 H]].
  apply bind_Ok in H. destruct H as [q75 [H75 H]].
  apply bind_Ok in H. destruct H as [q90 [H90 H]].
  apply bind_Ok in H. destruct H as [q95 [H95 H]].
  apply bind_Ok in H. destruct H as [wf [Hwf H]].
  injection H as <-.
  exists q50, q75, q90, q95, wf.
  repeat split; try assumption. discriminate.
Qed.

(** The snapshot depends on the history through its qualifying rows only. *)
Lemma generate_stats_qualifying (h1 h2 : list HistoryRecord) :
  qualifying h1 = qualifying h2 -> generate_stats h1 = generate_stats h2.
Proof. unfold generate_stats. intros ->. reflexivity. Qed.

Lemma qualifying_idempotent (history : list HistoryRecord) :
  qualifying (qualifying history) = qualifying history.
Proof.
  unfold qualifying. induction history as [| r rest IH]; [reflexivity |].
  simpl. destruct (gt (h_total_cost r) 0) eqn:Hr; simpl.
  - rewrite Hr, IH. reflexivity.
  - exact IH.
Qed.

Lemma gt_iff (a b : Q) : gt a b = true <-> b < a.
Proof.
  unfold gt. rewrite negb_true_iff. split; intros H.
  - apply Qnot_le_lt. intros Hle. apply Qle_bool_iff in Hle. congruence.
  - destruct (Qle_bool a b) eqn:Hle; [| reflexivity].
    apply Qle_bool_iff in Hle. exfalso. exact (Qlt_not_le _ _ H Hle).
Qed.

Lemma ge_iff (a b : Q) : ge a b = true <-> b <= a.
Proof. unfold ge. apply Qle_bool_iff. Qed.

Lemma gt_zero_false (x : Q) : x == 0 -> gt x 0 = false.
Proof.
  intros H. unfold gt. rewrite H. reflexivity.
Qed.

Lemma qualifying_app (h1 h2 : list HistoryRecord) :
  qualifying (h1 ++ h2) = (qualifying h1 ++ qualifying h2)%list.
Proof. apply filter_app. Qed.

(** C7: rows whose total cost is exactly zero take no part in any
    statistic.  The snapshot of a history is the snapshot of its
    positive-cost rows alone; it is unchanged by removing every zero-cost
    row, or any single one; its session count and overall average are those
    of the positive costs; and one zero-cost row among nine rows at $1.00,
    wherever it stands, leaves the overall average at $1.00, not $0.90. *)
Theorem zero_cost_rows_excluded :
  (forall history,
      generate_stats history = generate_stats (qualifying history))
  /\ (forall history,
         generate_stats history
         = generate_stats
             (filter (fun r => negb (Qeq_bool (h_total_cost r) 0)) history))
  /\ (forall before r after,
         h_total_cost r == 0 ->
         generate_stats (before ++ r :: after)
         = generate_stats (before ++ after))
  /\ (forall history s,
         generate_stats history = Ok (Some s) ->
         let positive := costs_of (qualifying history) in
         total_sessions s = len positive
         /\ avg_overall s = py_round (sum positive / inject_Z (len positive)) 2
         /\ forall cost, In cost positive -> 0 < cost)
  /\ (forall i, (i <= 9)%nat ->
         exists s,
           generate_stats (zero_row_history i) = Ok (Some s)
           /\ total_sessions s = 9%Z
           /\ avg_overall s == 1
           /\ ~ avg_overall s == 9 # 10).
Proof.
  split; [| split; [| split; [| split]]].
  - intros history. apply generate_stats_qualifying.
    symmetry. apply qualifying_idempotent.
  - intros history. apply generate_stats_qualifying.
    unfold qualifying. induction history as [| r rest IH]; [reflexivity |].
    simpl. destruct (Qeq_bool (h_total_cost r) 0) eqn:Hz; simpl.
    + apply Qeq_bool_eq in Hz. rewrite (gt_zero_false _ Hz). exact IH.
    + destruct (gt (h_total_cost r) 0); [rewrite IH |]; auto.
  - intros before r after Hz. apply generate_stats_qualifying.
    rewrite !qualifying_app. simpl.
    rewrite (gt_zero_false _ Hz). reflexivity.
  - intros history s Hs positive.
    destruct (generate_stats_inv history s Hs)
      as [q50 [q75 [q90 [q95 [wf [_ [_ [_ [_ [_ [_ ->]]]]]]]]]]].
    fold positive. cbn [total_sessions avg_overall].
    assert (Hlen : len (sorted positive) = len positive)
      by (unfold len; rewrite sorted_length; reflexivity).
    rewrite Hlen. split; [reflexivity |]. split; [reflexivity |].
    intros cost Hcost. unfold positive, costs_of in Hcost.
    apply in_map_iff in Hcost. destruct Hcost as [r [<- Hr]].
    apply gt_iff. unfold qualifying in Hr. apply filter_In in Hr.
    exact (proj2 Hr).
  - intros i Hi.
    do 10 (destruct i as [| i];
           [ eexists; split; [vm_compute; reflexivity |];
             split; [reflexivity |];
             split; [vm_compute; reflexivity | vm_compute; discriminate]
           | ]).
    lia.
Qed.

(** The scenario with the zero-cost row first. *)
Lemma zero_cost_rows_excluded_witness :
  exists s,
    generate_stats (history_row 0 :: repeat (history_row 1) 9) = Ok (Some s)
    /\ avg_overall s == 1.
Proof.
  destruct (proj2 (proj2 (proj2 (proj2 zero_cost_rows_excluded)))
              0%nat (Nat.le_0_l 9))
    as [s [Hs [_ [Havg _]]]].
  exists s. split; [exact Hs | exact Havg].
Defined.

(** ** StatisticsEngine: thresholds and outliers *)

(** [max(a, b)] is one of its arguments and bounds both. *)
Lemma py_max_spec (a b : Q) :
  a <= py_max a b /\ b <= py_max a b /\ (py_max a b = a \/ py_max a b = b).
Proof.
  unfold py_max. destruct (gt b a) eqn:Hgt.
  - apply gt_iff in Hgt. split; [apply Qlt_le_weak; exact Hgt |].
    split; [apply Qle_refl | right; reflexivity].
  - split; [apply Qle_refl |].
    split; [| left; reflexivity].
    apply Qnot_lt_le. intros Hlt. apply gt_iff in Hlt. congruence.
Qed.

Lemma qualifying_positive (history : list HistoryRecord) (r : HistoryRecord) :
  In r (qualifying history) -> 0 < h_total_cost r.
Proof.
  unfold qualifying. intros H. apply filter_In in H.
  apply gt_iff. exact (proj2 H).
Qed.

Lemma fold_left_Qplus_grows (xs : list Q) (a : Q) :
  (forall x, In x xs -> 0 < x) ->
  a <= fold_left Qplus xs a /\ (xs <> [] -> a < fold_left Qplus xs a).
Proof.
  revert a. induction xs as [| x xs IH]; intros a Hpos; simpl.
  - split; [apply Qle_refl | congruence].
  - assert (Hx : 0 < x) by (apply Hpos; left; reflexivity).
    assert (Hstep : a < a + x).
    { rewrite <- (Qplus_0_r a) at 1. apply Qplus_lt_r. exact Hx. }
    destruct (IH (a + x)) as [Hle _].
    { intros y Hy. apply Hpos. right. exact Hy. }
    assert (Hlt : a < fold_left Qplus xs (a + x))
      by (eapply Qlt_le_trans; eassumption).
    split; [apply Qlt_le_weak; exact Hlt | intros _; exact Hlt].
Qed.

Lemma average_positive (xs : list Q) :
  xs <> [] -> (forall x, In x xs -> 0 < x) -> 0 < average xs.
Proof.
  intros Hne Hpos. unfold average, sum.
  apply Qlt_shift_div_l.
  - change 0 with (inject_Z 0). rewrite <- Zlt_Qlt.
    pose proof (len_pos xs Hne). lia.
  - rewrite Qmult_0_l. apply (fold_left_Qplus_grows xs 0 Hpos). exact Hne.
Qed.

Lemma last_n_subset {A : Type} (n : nat) (xs : list A) (x : A) :
  In x (last_n n xs) -> In x xs.
Proof.
  unfold last_n. destruct (n <=? List.length xs)%nat; [| tauto].
  intros H. rewrite <- (firstn_skipn (List.length xs - n) xs).
  apply in_or_app. right. exact H.
Qed.

Lemma last_n_nonempty {A : Type} (n : nat) (xs : list A) :
  (0 < n)%nat -> xs <> [] -> last_n n xs <> [].
Proof.
  intros Hn Hne. unfold last_n.
  destruct (n <=? List.length xs)%nat eqn:Hle; [| exact Hne].
  apply Nat.leb_le in Hle. intros Hnil.
  apply (f_equal (@List.length A)) in Hnil.
  rewrite length_skipn in Hnil. simpl in Hnil. lia.
Qed.

(** The average of the last twenty qualifying costs is positive. *)
Lemma raw_avg_last_20_positive (history : list HistoryRecord) :
  qualifying history <> [] -> 0 < raw_avg_last_20 (qualifying history).
Proof.
  intros Hne. unfold raw_avg_last_20. apply average_positive.
  - apply last_n_nonempty; [lia | apply costs_of_nonempty; exact Hne].
  - intros x Hx. apply last_n_subset in Hx.
    unfold costs_of in Hx. apply in_map_iff in Hx.
    destruct Hx as [r [<- Hr]]. apply (qualifying_positive history r Hr).
Qed.

(** *** Comparison of binary64 numbers *)









(** ** UsageParser: one record *)

Ltac invert_bind H :=
  let a := fresh "a" in
  let Ha := fresh "Ha" in
  apply bind_Ok in H; destruct H as [a [Ha H]].

(** Only a dict can be processed. *)
Lemma process_record_dict (data : json) (st st' : ParseState) :
  process_record data st = Ok st' -> exists fields, data = JObj fields.
Proof.
  destruct data; try discriminate. intros _. eexists. reflexivity.
Qed.

Lemma process_record_not_dict (data : json) (st : ParseState) :
  isinstance_dict data = false ->
  process_record data st = Raise AttributeError.
Proof. destruct data; try reflexivity. discriminate. Qed.

(** The two branches of a record, after its timestamp is tracked. *)
Lemma process_record_inv (fields : list (string * json))
    (st st' : ParseState) :
  process_record (JObj fields) st = Ok st' ->
  let ts := match assoc "timestamp" fields with Some v => v | None => JNull end in
  let kind := match assoc "type" fields with Some v => v | None => JNull end in
  exists st2,
    (if eq_str kind "user"
     then process_user (JObj fields) (track_timestamp ts st)
     else Ok (track_timestamp ts st)) = Ok st2
    /\ (if eq_str kind "assistant"
        then process_assistant (JObj fields) st2
        else Ok st2) = Ok st'.
Proof.
  intros H ts kind. unfold process_record in H. simpl in H.
  fold ts in H. fold kind in H.
  invert_bind H. exists a. split; assumption.
Qed.

Lemma track_timestamp_fields (ts : json) (st : ParseState) :
  detected_workflow (track_timestamp ts st) = detected_workflow st
  /\ detected_story (track_timestamp ts st) = detected_story st
  /\ first_ts (track_timestamp ts st)
     = (if truthy ts && negb (truthy (first_ts st)) then ts else first_ts st)
  /\ last_ts (track_timestamp ts st)
     = (if truthy ts then ts else last_ts st).
Proof.
  unfold track_timestamp. destruct (truthy ts); simpl.
  - destruct (truthy (first_ts st)); auto.
  - auto.
Qed.

(** An assistant record leaves the timestamps and the workflow alone. *)
Lemma process_assistant_fields (data : json) (st st' : ParseState) :
  process_assistant data st = Ok st' ->
  first_ts st' = first_ts st
  /\ last_ts st' = last_ts st
  /\ detected_workflow st' = detected_workflow st
  /\ detected_story st' = detected_story st.
Proof.
  unfold process_assistant. intros H.
  invert_bind H. invert_bind H. invert_bind H.
  destruct (negb (hashable a1)); [discriminate H |].
  invert_bind H. invert_bind H. invert_bind H.
  injection H as <-. simpl. auto.
Qed.

(** The texts the block loop gathers are those of the blocks. *)
Lemma collect_text_blocks_strings (blocks : list json) :
  forall texts first_msg texts' first_msg',
    collect_text_blocks blocks texts first_msg = Ok (texts', first_msg') ->
    strings_of texts' = (strings_of texts ++ flat_map block_text blocks)%list.
Proof.
  induction blocks as [| block rest IH]; intros texts fm texts' fm' H.
  - simpl in H. injection H as <- <-. simpl. rewrite app_nil_r. reflexivity.
  - simpl in H. destruct block as [| | | | | | fields];
      try (apply IH in H; exact H).
    simpl in H. unfold block_text at 1. simpl flat_map.
    destruct (assoc "type" fields) as [kind |] eqn:Hkind;
      [| apply IH in H; rewrite H; reflexivity].
    destruct kind as [| | | | kind | |];
      try (apply IH in H; rewrite H; reflexivity).
    simpl in H. destruct (kind =? "text") eqn:Htext.
    + invert_bind H. invert_bind H.
      apply IH in H. rewrite H.
      unfold getitem in Ha.
      destruct (assoc "text" fields) as [text |] eqn:Htxt;
        [| discriminate Ha].
      injection Ha as <-.
      unfold strings_of. rewrite flat_map_app. simpl.
      rewrite <- app_assoc.
      destruct text; simpl; reflexivity.
    + apply IH in H. rewrite H.
      destruct (assoc "text" fields) as [[| | | | text | |] |]; reflexivity.
Qed.

Lemma user_texts_strings (content first_msg : json) (texts : list json)
    (first_msg' : json) :
  user_texts content first_msg = Ok (texts, first_msg') ->
  strings_of texts = content_texts content.
Proof.
  unfold user_texts. intros H.
  destruct content; try (injection H as <- <-; reflexivity).
  - invert_bind H. injection H as <- <-. reflexivity.
  - apply collect_text_blocks_strings in H. exact H.
Qed.

Lemma tracked_nonempty (name : string) : tracked name = true -> name <> "".
Proof. intros H ->. discriminate H. Qed.

Lemma first_tracked_app (xs ys : list string) :
  first_tracked (xs ++ ys)
  = if first_tracked xs =? "" then first_tracked ys else first_tracked xs.
Proof.
  unfold first_tracked. induction xs as [| x xs IH]; [reflexivity |].
  simpl. destruct (tracked x) eqn:Hx.
  - apply tracked_nonempty in Hx. apply String.eqb_neq in Hx.
    rewrite Hx. reflexivity.
  - exact IH.
Qed.

Lemma first_tracked_single (name : string) :
  first_tracked [name] = if tracked name then name else "".
Proof. unfold first_tracked. simpl. destruct (tracked name); reflexivity. Qed.

(** The detection loop finds the first text whose command is tracked. *)
Lemma detect_in_texts_first (texts : list json) :
  forall found,
    detect_in_texts texts = Ok found ->
    match found with Some (wf, _) => wf | None => "" end
    = first_tracked (flat_map named_command (strings_of texts)).
Proof.
  induction texts as [| txt rest IH]; intros found H.
  - injection H as <-. reflexivity.
  - simpl in H. destruct txt as [| | | | s | |]; try discriminate H.
    change (strings_of (JStr s :: rest)) with (s :: strings_of rest).
    simpl flat_map. rewrite first_tracked_app.
    unfold _detect_workflow_from_text in H.
    assert (Hn : named_command s
                 = match search_command_name s with
                   | Some name => [name]
                   | None => []
                   end) by reflexivity.
    rewrite Hn. clear Hn.
    destruct (search_command_name s) as [name |] eqn:Hname.
    + rewrite first_tracked_single.
      destruct (tracked name) eqn:Htr.
      * rewrite (proj2 (String.eqb_neq name "") (tracked_nonempty _ Htr)) in *.
        simpl in H. injection H as <-. reflexivity.
      * rewrite andb_false_r in H. simpl. apply IH. exact H.
    + simpl in H. apply IH. exact H.
Qed.

Lemma named_command_empty : named_command "" = [].
Proof. reflexivity. Qed.

(** A user record leaves the timestamps alone; when no workflow is detected
    yet, it detects the first tracked command its texts name. *)
Lemma process_user_fields (fields : list (string * json))
    (st st' : ParseState) :
  assoc "type" fields = Some (JStr "user") ->
  process_user (JObj fields) st = Ok st' ->
  first_ts st' = first_ts st
  /\ last_ts st' = last_ts st
  /\ detected_workflow st'
     = if detected_workflow st =? ""
       then first_tracked (flat_map named_command (record_texts (JObj fields)))
       else detected_workflow st.
Proof.
  intros Hkind H. unfold process_user in H.
  invert_bind H. rename a into msg, Ha into Hmsg.
  invert_bind H. rename a into content, Ha into Hcontent.
  invert_bind H. destruct a as [texts first_msg]. rename Ha into Htexts.
  invert_bind H. destruct a as [wf story]. rename Ha into Hdetect.
  injection H as <-. simpl.
  split; [reflexivity |]. split; [reflexivity |].
  destruct (detected_workflow st =? "") eqn:Hunset; simpl in Hdetect.
  - invert_bind Hdetect. rename a into found, Ha into Hfound.
    apply String.eqb_eq in Hunset.
    assert (Hwf : wf = match found with Some (w, _) => w | None => "" end).
    { destruct found as [[w s] |]; injection Hdetect as <- _;
        [reflexivity | exact Hunset]. }
    rewrite Hwf. rewrite (detect_in_texts_first texts found Hfound).
    rewrite (user_texts_strings _ _ _ _ Htexts).
    unfold record_texts. rewrite Hkind. simpl eqb.
    simpl in Hmsg. injection Hmsg as <-.
    destruct (assoc "message" fields) as [m |]; simpl in Hcontent.
    + destruct m as [| | | | | | msg_fields]; try discriminate Hcontent.
      simpl in Hcontent. injection Hcontent as <-.
      destruct (assoc "content" msg_fields); reflexivity.
    + injection Hcontent as <-. reflexivity.
  - injection Hdetect as <- _. reflexivity.
Qed.

(** What one record does to the workflow label. *)
Lemma process_record_workflow (data : json) (st st' : ParseState) :
  process_record data st = Ok st' ->
  detected_workflow st'
  = if detected_workflow st =? ""
    then first_tracked (flat_map named_command (record_texts data))
    else detected_workflow st.
Proof.
  intros H. destruct (process_record_dict data st st' H) as [fields ->].
  apply process_record_inv in H. destruct H as [st2 [Huser Hassistant]].
  set (ts := match assoc "timestamp" fields with
             | Some v => v | None => JNull end) in *.
  destruct (track_timestamp_fields ts st) as [Hwf0 _].
  assert (Hlast : detected_workflow st' = detected_workflow st2).
  { destruct (eq_str _ "assistant").
    - apply process_assistant_fields in Hassistant. tauto.
    - injection Hassistant as <-. reflexivity. }
  rewrite Hlast. unfold record_texts.
  destruct (assoc "type" fields) as [kind |] eqn:Hkind.
  - destruct kind as [| | | | kind | |];
      try (simpl in Huser; injection Huser as <-; rewrite Hwf0;
           destruct (detected_workflow st =? "") eqn:E;
           [apply String.eqb_eq in E; exact E | reflexivity]).
    simpl in Huser. destruct (kind =? "user") eqn:Hk.
    + apply String.eqb_eq in Hk. subst kind.
      apply (process_user_fields fields _ _ Hkind) in Huser.
      destruct Huser as [_ [_ Hwf]]. rewrite Hwf, Hwf0.
      unfold record_texts. rewrite Hkind. reflexivity.
    + injection Huser as <-. rewrite Hwf0.
      destruct (detected_workflow st =? "") eqn:E;
        [apply String.eqb_eq in E; exact E | reflexivity].
  - simpl in Huser. injection Huser as <-. rewrite Hwf0.
    destruct (detected_workflow st =? "") eqn:E;
      [apply String.eqb_eq in E; exact E | reflexivity].
Qed.

(** What one record does to the two timestamps. *)
Lemma process_record_timestamps (data : json) (st st' : ParseState) :
  process_record data st = Ok st' ->
  first_ts st'
  = (if truthy (first_ts st) then first_ts st
     else hd (first_ts st) (timestamp_of data))
  /\ last_ts st' = last (timestamp_of data) (last_ts st).
Proof.
  intros H. destruct (process_record_dict data st st' H) as [fields ->].
  pose proof H as Hkeep.
  apply process_record_inv in H. destruct H as [st2 [Huser Hassistant]].
  set (ts := match assoc "timestamp" fields with
             | Some v => v | None => JNull end) in *.
  destruct (track_timestamp_fields ts st) as [_ [_ [Hfirst Hlast]]].
  assert (H2 : first_ts st' = first_ts st2 /\ last_ts st' = last_ts st2).
  { destruct (eq_str _ "assistant").
    - apply process_assistant_fields in Hassistant. tauto.
    - injection Hassistant as <-. tauto. }
  assert (H1 : first_ts st2 = first_ts (track_timestamp ts st)
               /\ last_ts st2 = last_ts (track_timestamp ts st)).
  { destruct (assoc "type" fields) as [kind |] eqn:Hkind.
    - destruct (eq_str kind "user") eqn:Hk.
      + destruct kind as [| | | | kind | |]; try discriminate Hk.
        simpl in Hk. apply String.eqb_eq in Hk. subst kind.
        apply (process_user_fields fields _ _ Hkind) in Huser. tauto.
      + injection Huser as <-. tauto.
    - simpl in Huser. injection Huser as <-. tauto. }
  destruct H1 as [H1a H1b]. destruct H2 as [H2a H2b].
  rewrite H2a, H1a, Hfirst, H2b, H1b, Hlast.
  unfold timestamp_of. fold ts.
  destruct (assoc "timestamp" fields) as [v |] eqn:Hts; subst ts.
  - destruct (truthy v) eqn:Hv; simpl.
    + destruct (truthy (first_ts st)); split; reflexivity.
    + destruct (truthy (first_ts st)); split; reflexivity.
  - simpl. destruct (truthy (first_ts st)); split; reflexivity.
Qed.

(** ** UsageParser: the whole log *)

Lemma records_cons (json_loads : string -> option json) (line : string)
    (rest : list string) :
  records json_loads (line :: rest)
  = (match decode_line json_loads line with
     | Some data => [data]
     | None => []
     end ++ records json_loads rest)%list.
Proof. reflexivity. Qed.

(** A log is processed record by record. *)
Lemma parse_lines_cons_record (json_loads : string -> option json)
    (line : string) (rest : list string) (st : ParseState) (data : json) :
  decode_line json_loads line = Some data ->
  parse_lines json_loads (line :: rest) st
  = (st' <- process_record data st ;; parse_lines json_loads rest st').
Proof.
  intros H. simpl. unfold process_line. rewrite H. reflexivity.
Qed.

Lemma parse_lines_cons_skipped (json_loads : string -> option json)
    (line : string) (rest : list string) (st : ParseState) :
  decode_line json_loads line = None ->
  parse_lines json_loads (line :: rest) st = parse_lines json_loads rest st.
Proof.
  intros H. simpl. unfold process_line. rewrite H. reflexivity.
Qed.

Lemma parse_lines_app (json_loads : string -> option json)
    (before after : list string) (st : ParseState) :
  parse_lines json_loads (before ++ after) st
  = (st' <- parse_lines json_loads before st ;;
     parse_lines json_loads after st').
Proof.
  revert st. induction before as [| line rest IH]; intros st; [reflexivity |].
  simpl. destruct (process_line json_loads st line) as [st1 | e]; simpl.
  - apply IH.
  - reflexivity.
Qed.

Lemma parse_lines_workflow (json_loads : string -> option json)
    (lines : list string) :
  forall st r,
    parse_lines json_loads lines st = Ok r ->
    detected_workflow r
    = if detected_workflow st =? ""
      then first_tracked
             (flat_map named_command (user_text_sequence json_loads lines))
      else detected_workflow st.
Proof.
  unfold user_text_sequence.
  induction lines as [| line rest IH]; intros st r H.
  - injection H as <-. simpl.
    destruct (detected_workflow st =? "") eqn:E;
      [apply String.eqb_eq in E; exact E | reflexivity].
  - rewrite records_cons.
    destruct (decode_line json_loads line) as [data |] eqn:Hline.
    + rewrite (parse_lines_cons_record _ _ _ _ _ Hline) in H.
      invert_bind H. rename a into st1, Ha into Hstep.
      apply IH in H. apply process_record_workflow in Hstep.
      simpl app. simpl flat_map. rewrite flat_map_app, first_tracked_app.
      rewrite H, Hstep.
      destruct (detected_workflow st =? "") eqn:E; [reflexivity |].
      rewrite E. reflexivity.
    + rewrite (parse_lines_cons_skipped _ _ _ _ Hline) in H.
      apply IH in H. exact H.
Qed.

Lemma timestamp_of_cases (data : json) :
  timestamp_of data = []
  \/ exists ts, timestamp_of data = [ts] /\ truthy ts = true.
Proof.
  unfold timestamp_of. destruct data; auto.
  destruct (assoc "timestamp" fields) as [ts |]; auto.
  destruct (truthy ts) eqn:Hts; auto.
  right. exists ts. auto.
Qed.

Lemma last_default_irrelevant {A : Type} (xs : list A) (d d' : A) :
  xs <> [] -> last xs d = last xs d'.
Proof.
  induction xs as [| x xs IH]; [congruence |]. intros _.
  destruct xs as [| y ys]; [reflexivity |].
  change (last (y :: ys) d = last (y :: ys) d'). apply IH. discriminate.
Qed.

Lemma last_app_default {A : Type} (xs ys : list A) (d : A) :
  last (xs ++ ys) d = last ys (last xs d).
Proof.
  revert d. induction xs as [| x xs IH]; intros d; [reflexivity |].
  destruct xs as [| y xs'].
  - simpl app. destruct ys as [| z zs]; [reflexivity |].
    change (last (z :: zs) d = last (z :: zs) x).
    apply last_default_irrelevant. discriminate.
  - change (last ((y :: xs') ++ ys) d = last ys (last (y :: xs') d)).
    apply IH.
Qed.

Lemma last_In {A : Type} (xs : list A) (d : A) :
  xs <> [] -> In (last xs d) xs.
Proof.
  induction xs as [| x xs IH]; [congruence |]. intros _.
  destruct xs as [| y ys]; [left; reflexivity |].
  right. change (In (last (y :: ys) d) (y :: ys)). apply IH. discriminate.
Qed.

Lemma parse_lines_timestamps (json_loads : string -> option json)
    (lines : list string) :
  forall st r,
    parse_lines json_loads lines st = Ok r ->
    first_ts r
    = (if truthy (first_ts st) then first_ts st
       else hd (first_ts st) (seen_timestamps json_loads lines))
    /\ last_ts r = last (seen_timestamps json_loads lines) (last_ts st).
Proof.
  unfold seen_timestamps.
  induction lines as [| line rest IH]; intros st r H.
  - injection H as <-. simpl. destruct (truthy (first_ts st)); auto.
  - rewrite records_cons.
    destruct (decode_line json_loads line) as [data |] eqn:Hline.
    + rewrite (parse_lines_cons_record _ _ _ _ _ Hline) in H.
      invert_bind H. rename a into st1, Ha into Hstep.
      apply IH in H. destruct H as [Hfirst Hlast].
      apply process_record_timestamps in Hstep.
      destruct Hstep as [Hfirst1 Hlast1].
      simpl app. simpl flat_map.
      rewrite last_app_default, Hlast, Hlast1.
      split; [| reflexivity].
      rewrite Hfirst, Hfirst1.
      destruct (truthy (first_ts st)) eqn:Hset; [rewrite Hset; reflexivity |].
      destruct (timestamp_of_cases data) as [-> | [ts [-> Hts]]]; simpl.
      * rewrite Hset. reflexivity.
      * rewrite Hts. reflexivity.
    + rewrite (parse_lines_cons_skipped _ _ _ _ Hline) in H.
      apply IH in H. exact H.
Qed.

Lemma strongly_sorted_ends (R : json -> json -> Prop) (xs : list json) :
  StronglySorted R xs ->
  (forall t, In t xs -> R t t) ->
  forall y, In y xs -> R (hd JNull xs) y /\ R y (last xs JNull).
Proof.
  intros Hs. induction Hs as [| x xs Hs IH Hall]; intros Hrefl y Hy.
  - destruct Hy.
  - rewrite Forall_forall in Hall. simpl hd.
    destruct xs as [| x' xs'].
    + destruct Hy as [<- | []]. split; apply Hrefl; left; reflexivity.
    + change (last (x :: x' :: xs') JNull) with (last (x' :: xs') JNull).
      destruct Hy as [<- | Hy].
      * split; [apply Hrefl; left; reflexivity |].
        apply Hall. apply last_In. discriminate.
      * split; [apply Hall; exact Hy |].
        apply IH; [| exact Hy].
        intros t Ht. apply Hrefl. right. exact Ht.
Qed.

(** C5 (amended): [first_ts] is the first timestamp seen in log order and
    [last_ts] the last one, whatever the type of the records that carry
    them and whatever else they hold; they are the minimum and the maximum
    of the timestamps seen when these come in chronological order, which is
    the order in which a log is written. *)
Theorem timestamps_first_and_last (json_loads : string -> option json)
    (lines : list string) (r : ParseState) :
  parse_jsonl json_loads lines = Ok r ->
  let seen := seen_timestamps json_loads lines in
  first_ts r = hd JNull seen
  /\ last_ts r = last seen JNull
  /\ (forall R : json -> json -> Prop,
         (forall t, In t seen -> R t t) ->
         StronglySorted R seen ->
         seen <> [] ->
         is_minimum R (first_ts r) seen /\ is_maximum R (last_ts r) seen).
Proof.
  intros H seen. unfold parse_jsonl in H.
  apply parse_lines_timestamps in H. simpl in H.
  destruct H as [Hfirst Hlast]. fold seen in Hfirst, Hlast.
  split; [exact Hfirst |]. split; [exact Hlast |].
  intros R Hrefl Hsorted Hne.
  rewrite Hfirst, Hlast. unfold is_minimum, is_maximum.
  split; split.
  - destruct seen; [congruence | left; reflexivity].
  - intros y Hy. apply (strongly_sorted_ends R seen Hsorted Hrefl y Hy).
  - apply last_In. exact Hne.
  - intros y Hy. apply (strongly_sorted_ends R seen Hsorted Hrefl y Hy).
Qed.

(** The two stamped records, in chronological order. *)
Lemma timestamps_first_and_last_witness :
  exists r,
    parse_jsonl (loads_only unordered_log) (map dumps (rev unordered_log))
    = Ok r
    /\ first_ts r = JStr "2026-01-01T00:00:00Z"
    /\ is_minimum ts_le (first_ts r)
         (seen_timestamps (loads_only unordered_log)
                          (map dumps (rev unordered_log))).
Proof.
  eexists. split; [vm_compute; reflexivity |].
  split; [reflexivity |].
  refine (proj1 (proj2 (proj2 (timestamps_first_and_last
                                 (loads_only unordered_log)
                                 (map dumps (rev unordered_log)) _ _))
                  ts_le _ _ _)).
  - vm_compute. reflexivity.
  - intros t Ht. vm_compute in Ht.
    destruct Ht as [<- | [<- | []]]; reflexivity.
  - vm_compute. repeat constructor.
  - vm_compute. discriminate.
Defined.

(** C5, as stated, fails when the records are out of order: of two records
    stamped 2026-01-02 and then 2026-01-01, [first_ts] is the later stamp
    and [last_ts] the earlier one, neither the minimum nor the maximum. *)
Lemma first_timestamp_not_minimum :
  exists r,
    parse_jsonl (loads_only unordered_log) (map dumps unordered_log) = Ok r
    /\ seen_timestamps (loads_only unordered_log) (map dumps unordered_log)
       = [JStr "2026-01-02T00:00:00Z"; JStr "2026-01-01T00:00:00Z"]
    /\ first_ts r = JStr "2026-01-02T00:00:00Z"
    /\ last_ts r = JStr "2026-01-01T00:00:00Z"
    /\ ~ is_minimum ts_le (first_ts r)
           (seen_timestamps (loads_only unordered_log)
                            (map dumps unordered_log))
    /\ ~ is_maximum ts_le (last_ts r)
           (seen_timestamps (loads_only unordered_log)
                            (map dumps unordered_log)).
Proof.
  eexists. split; [vm_compute; reflexivity |].
  split; [vm_compute; reflexivity |].
  split; [reflexivity |]. split; [reflexivity |].
  split; intros [_ Hall].
  - specialize (Hall (JStr "2026-01-01T00:00:00Z")).
    assert (Hin : In (JStr "2026-01-01T00:00:00Z")
                     (seen_timestamps (loads_only unordered_log)
                                      (map dumps unordered_log)))
      by (vm_compute; auto).
    apply Hall in Hin. vm_compute in Hin. discriminate Hin.
  - specialize (Hall (JStr "2026-01-02T00:00:00Z")).
    assert (Hin : In (JStr "2026-01-02T00:00:00Z")
                     (seen_timestamps (loads_only unordered_log)
                                      (map dumps unordered_log)))
      by (vm_compute; auto).
    apply Hall in Hin. vm_compute in Hin. discriminate Hin.
Qed.

(** C9 (amended): workflow detection locks on the first match.  The label
    is the command named by the first user-record text, in log order, whose
    command marker names a tracked workflow, a text naming the command of
    its first marker only; once a label is set no later record changes it;
    and a log whose first user message names "ecc-dev-story" and a later
    one "ecc-e2e" reports "ecc-dev-story". *)
Theorem workflow_locks_on_first_match :
  (forall json_loads lines r,
      parse_jsonl json_loads lines = Ok r ->
      detected_workflow r
      = first_tracked
          (flat_map named_command (user_text_sequence json_loads lines)))
  /\ (forall json_loads before after st r,
         parse_lines json_loads before initial_state = Ok st ->
         detected_workflow st <> "" ->
         parse_lines json_loads after st = Ok r ->
         detected_workflow r = detected_workflow st
         /\ parse_jsonl json_loads (before ++ after) = Ok r)
  /\ (exists r,
         parse_jsonl (loads_only two_workflows_log)
                     (map dumps two_workflows_log) = Ok r
         /\ user_text_sequence (loads_only two_workflows_log)
                               (map dumps two_workflows_log)
            = [command_marker "ecc-dev-story"; command_marker "ecc-e2e"]
         /\ detected_workflow r = "ecc-dev-story").
Proof.
  split; [| split].
  - intros json_loads lines r H. unfold parse_jsonl in H.
    apply parse_lines_workflow in H. exact H.
  - intros json_loads before after st r Hbefore Hset Hafter.
    split.
    + pose proof (parse_lines_workflow json_loads after st r Hafter) as H.
      apply String.eqb_neq in Hset. rewrite Hset in H. exact H.
    + unfold parse_jsonl. rewrite parse_lines_app, Hbefore. exact Hafter.
  - eexists. split; [vm_compute; reflexivity |].
    split; vm_compute; reflexivity.
Qed.

Lemma workflow_locks_on_first_match_witness :
  exists r,
    parse_jsonl (loads_only two_workflows_log) (map dumps two_workflows_log)
    = Ok r
    /\ detected_workflow r = "ecc-dev-story".
Proof.
  assert (H : exists r,
             parse_jsonl (loads_only two_workflows_log)
                         (map dumps two_workflows_log) = Ok r)
    by (eexists; vm_compute; reflexivity).
  destruct H as [r H]. exists r. split; [exact H |].
  rewrite (proj1 workflow_locks_on_first_match _ _ _ H).
  vm_compute. reflexivity.
Defined.

(** C9, as stated, fails on a text with two markers: the user message
    "/clear" followed by "/ecc-e2e" holds the tracked command name
    "ecc-e2e", yet no workflow is detected, because only the first marker
    of a text is read. *)
Lemma second_marker_not_detected :
  exists r,
    parse_jsonl (loads_only two_markers_log) (map dumps two_markers_log)
    = Ok r
    /\ flat_map all_command_names
         (user_text_sequence (loads_only two_markers_log)
                             (map dumps two_markers_log))
       = ["clear"; "ecc-e2e"]
    /\ first_tracked
         (flat_map all_command_names
            (user_text_sequence (loads_only two_markers_log)
                                (map dumps two_markers_log)))
       = "ecc-e2e"
    /\ detected_workflow r = ""
    /\ detected_workflow r
       <> first_tracked
            (flat_map all_command_names
               (user_text_sequence (loads_only two_markers_log)
                                   (map dumps two_markers_log))).
Proof.
  eexists. split; [vm_compute; reflexivity |].
  split; [vm_compute; reflexivity |].
  split; [vm_compute; reflexivity |].
  split; [reflexivity |].
  vm_compute. discriminate.
Qed.

(** ** UsageParser: lines that do not decode, and records that do *)

Lemma add_usage_returns (fields : list (string * json)) (key : string)
    (counter : Q) :
  field_is is_number fields key = true ->
  returns (add_usage (JObj fields) key counter).
Proof.
  unfold field_is, add_usage. simpl. intros H.
  destruct (assoc key fields) as [v |]; [| apply returns_Ok].
  destruct v; try discriminate H; apply returns_Ok.
Qed.

Lemma add_usage_block_returns (usage : json) (entry : Tokens) :
  usage_ok usage = true -> returns (add_usage_block usage entry).
Proof.
  unfold usage_ok. destruct usage as [| | | | | | fields]; try discriminate.
  intros H.
  apply andb_prop in H. destruct H as [H Hcache].
  apply andb_prop in H. destruct H as [H Hread].
  apply andb_prop in H. destruct H as [Hin Hout].
  unfold add_usage_block.
  apply bind_returns; [apply add_usage_returns; exact Hin | intros input _].
  apply bind_returns; [apply add_usage_returns; exact Hout | intros output _].
  apply bind_returns; [apply add_usage_returns; exact Hread | intros rd _].
  simpl. destruct (assoc "cache_creation" fields) as [detail |].
  - destruct (truthy detail) eqn:Htruthy.
    + destruct detail as [| | | | | | tiers]; try discriminate Hcache.
      apply andb_prop in Hcache. destruct Hcache as [H5m H1h].
      apply bind_returns; [apply add_usage_returns; exact H5m | intros c5 _].
      apply bind_returns; [apply add_usage_returns; exact H1h | intros c1 _].
      apply returns_Ok.
    + apply bind_returns; [apply add_usage_returns; exact Hcache | intros c1 _].
      apply returns_Ok.
  - simpl.
    apply bind_returns; [apply add_usage_returns; exact Hcache | intros c1 _].
    apply returns_Ok.
Qed.

Lemma collect_task_calls_returns (blocks : list json) :
  forallb task_block_ok blocks = true ->
  forall calls, returns (collect_task_calls blocks calls).
Proof.
  induction blocks as [| block rest IH]; intros Hok calls;
    [apply returns_Ok |].
  simpl in Hok. apply andb_prop in Hok. destruct Hok as [Hblock Hrest].
  simpl. destruct block as [| | | | | | fields]; try (apply IH; exact Hrest).
  simpl. unfold task_block_ok in Hblock.
  destruct (assoc "type" fields) as [kind |];
    [| simpl; apply IH; exact Hrest].
  destruct kind as [| | | | kind | |]; try (simpl; apply IH; exact Hrest).
  destruct (assoc "name" fields) as [name |];
    [| simpl; rewrite andb_false_r; apply IH; exact Hrest].
  destruct name as [| | | | name | |];
    try (simpl; rewrite andb_false_r; apply IH; exact Hrest).
  simpl eq_str.
  destruct ((kind =? "tool_use") && (name =? "Task")); [| apply IH; exact Hrest].
  unfold field_is in Hblock.
  destruct (assoc "input" fields) as [inp |]; simpl.
  - destruct inp; try discriminate Hblock. simpl. apply IH. exact Hrest.
  - apply IH. exact Hrest.
Qed.

Lemma process_assistant_returns (fields : list (string * json))
    (st : ParseState) :
  assistant_ok fields = true -> returns (process_assistant (JObj fields) st).
Proof.
  unfold assistant_ok, process_assistant. simpl. intros H.
  assert (Hmsg : exists msg,
             match assoc "message" fields with
             | Some v => v
             | None => JObj []
             end = JObj msg
             /\ field_is usage_ok msg "usage" = true
             /\ field_is hashable msg "model" = true
             /\ match assoc "content" msg with
                | Some (JArr blocks) => forallb task_block_ok blocks
                | _ => true
                end = true).
  { destruct (assoc "message" fields) as [m |].
    - destruct m; try discriminate H. eexists. split; [reflexivity |].
      apply andb_prop in H. destruct H as [H Hc].
      apply andb_prop in H. tauto.
    - exists []. auto. }
  destruct Hmsg as [msg [-> [Husage [Hmodel Hcontent]]]]. simpl.
  unfold field_is in Husage, Hmodel.
  assert (Hhash : hashable match assoc "model" msg with
                           | Some v => v
                           | None => JStr "unknown"
                           end = true).
  { destruct (assoc "model" msg); [exact Hmodel | reflexivity]. }
  rewrite Hhash. simpl.
  apply bind_returns.
  { apply add_usage_block_returns.
    destruct (assoc "usage" msg); [exact Husage | reflexivity]. }
  intros entry _.
  destruct (assoc "content" msg) as [content |]; simpl;
    [| apply returns_Ok].
  destruct content; simpl; try apply returns_Ok.
  apply bind_returns; [| intros calls _; apply returns_Ok].
  apply collect_task_calls_returns. exact Hcontent.
Qed.

Lemma collect_text_blocks_returns (blocks : list json) :
  forallb text_block_ok blocks = true ->
  forall texts first_msg,
    forallb is_string texts = true ->
    exists texts' first_msg',
      collect_text_blocks blocks texts first_msg = Ok (texts', first_msg')
      /\ forallb is_string texts' = true.
Proof.
  induction blocks as [| block rest IH]; intros Hok texts fm Htexts.
  - exists texts, fm. split; [reflexivity | exact Htexts].
  - simpl in Hok. apply andb_prop in Hok. destruct Hok as [Hblock Hrest].
    simpl. destruct block as [| | | | | | fields];
      try (apply IH; assumption).
    simpl. unfold text_block_ok in Hblock.
    destruct (assoc "type" fields) as [kind |];
      [| simpl; apply IH; assumption].
    destruct kind as [| | | | kind | |]; try (simpl; apply IH; assumption).
    simpl eq_str. destruct (kind =? "text"); [| apply IH; assumption].
    unfold getitem.
    destruct (assoc "text" fields) as [text |]; [| discriminate Hblock].
    destruct text as [| | | | text | |]; try discriminate Hblock.
    simpl. destruct (truthy fm); simpl; apply IH; try assumption;
      rewrite forallb_app; rewrite Htexts; reflexivity.
Qed.

Lemma detect_in_texts_returns (texts : list json) :
  forallb is_string texts = true -> returns (detect_in_texts texts).
Proof.
  induction texts as [| txt rest IH]; intros H; [apply returns_Ok |].
  simpl in H. apply andb_prop in H. destruct H as [Htxt Hrest].
  destruct txt; try discriminate Htxt. simpl.
  destruct (_detect_workflow_from_text s) as [wf story].
  destruct (negb (wf =? "") && tracked wf); [apply returns_Ok |].
  apply IH. exact Hrest.
Qed.

Lemma process_user_returns (fields : list (string * json)) (st : ParseState) :
  user_ok fields = true -> returns (process_user (JObj fields) st).
Proof.
  unfold user_ok, process_user. simpl. intros H.
  assert (Hmsg : exists msg,
             match assoc "message" fields with
             | Some v => v
             | None => JObj []
             end = JObj msg
             /\ match assoc "content" msg with
                | Some (JArr blocks) => forallb text_block_ok blocks
                | _ => true
                end = true).
  { destruct (assoc "message" fields) as [m |].
    - destruct m; try discriminate H. eexists. split; [reflexivity | exact H].
    - exists []. auto. }
  destruct Hmsg as [msg [-> Hcontent]]. simpl.
  assert (Htexts : exists texts first_msg,
             user_texts match assoc "content" msg with
                        | Some v => v
                        | None => JStr ""
                        end (first_user_msg st) = Ok (texts, first_msg)
             /\ forallb is_string texts = true).
  { destruct (assoc "content" msg) as [content |].
    - destruct content; simpl;
        try (eexists; eexists; split; reflexivity).
      + destruct (truthy (first_user_msg st)); simpl;
          eexists; eexists; split; reflexivity.
      + apply collect_text_blocks_returns; [exact Hcontent | reflexivity].
    - simpl. destruct (truthy (first_user_msg st)); simpl;
        eexists; eexists; split; reflexivity. }
  destruct Htexts as [texts [first_msg [-> Hstr]]]. simpl.
  destruct (negb (detected_workflow st =? "")); simpl; [apply returns_Ok |].
  destruct (detect_in_texts_returns texts Hstr) as [found ->]. simpl.
  destruct found as [[wf story] |]; apply returns_Ok.
Qed.

(** A well-shaped record is processed without an exception. *)
Lemma process_record_returns (data : json) (st : ParseState) :
  well_shaped data = true -> returns (process_record data st).
Proof.
  unfold well_shaped. destruct data as [| | | | | | fields];
    try discriminate.
  intros H. unfold process_record. simpl.
  set (st1 := track_timestamp _ st).
  destruct (assoc "type" fields) as [kind |]; simpl; [| apply returns_Ok].
  destruct kind as [| | | | kind | |]; simpl; try apply returns_Ok.
  destruct (kind =? "user") eqn:Huser.
  - apply String.eqb_eq in Huser. subst kind.
    destruct (process_user_returns fields st1 H) as [st2 ->]. simpl.
    apply returns_Ok.
  - simpl. destruct (kind =? "assistant"); [| apply returns_Ok].
    apply process_assistant_returns. exact H.
Qed.

Lemma parse_lines_returns (json_loads : string -> option json)
    (lines : list string) :
  forallb well_shaped (records json_loads lines) = true ->
  forall st, returns (parse_lines json_loads lines st).
Proof.
  induction lines as [| line rest IH]; intros Hok st; [apply returns_Ok |].
  rewrite records_cons in Hok.
  destruct (decode_line json_loads line) as [data |] eqn:Hline.
  - simpl in Hok. apply andb_prop in Hok. destruct Hok as [Hdata Hrest].
    rewrite (parse_lines_cons_record _ _ _ _ _ Hline).
    apply bind_returns; [apply process_record_returns; exact Hdata |].
    intros st1 _. apply IH. exact Hrest.
  - rewrite (parse_lines_cons_skipped _ _ _ _ Hline). apply IH. exact Hok.
Qed.

(** A parse that returns has met dicts only. *)
Lemma parse_lines_dicts (json_loads : string -> option json)
    (lines : list string) :
  forall st,
    returns (parse_lines json_loads lines st) ->
    forall data, In data (records json_loads lines) ->
                 isinstance_dict data = true.
Proof.
  induction lines as [| line rest IH]; intros st [r H] data Hin;
    [destruct Hin |].
  rewrite records_cons in Hin.
  destruct (decode_line json_loads line) as [d |] eqn:Hline.
  - rewrite (parse_lines_cons_record _ _ _ _ _ Hline) in H.
    invert_bind H. rename a into st1, Ha into Hstep.
    destruct Hin as [<- | Hin].
    + destruct (process_record_dict _ _ _ Hstep) as [fields ->]. reflexivity.
    + apply (IH st1); [exists r; exact H | exact Hin].
  - rewrite (parse_lines_cons_skipped _ _ _ _ Hline) in H.
    apply (IH st); [exists r; exact H | exact Hin].
Qed.

Lemma malformed_skipped (json_loads : string -> option json) (line : string) :
  malformed json_loads line = true -> skipped json_loads line = true.
Proof.
  unfold malformed, skipped, decode_line. intros H.
  apply andb_prop in H. destruct H as [Hblank Hjson].
  apply negb_true_iff in Hblank. rewrite Hblank.
  destruct (json_loads (strip line)); [discriminate Hjson | reflexivity].
Qed.

(** Dropping lines that are skipped anyway does not change the outcome. *)
Lemma parse_lines_filter (json_loads : string -> option json)
    (keep : string -> bool) (lines : list string) :
  (forall line, keep line = false -> skipped json_loads line = true) ->
  forall st,
    parse_lines json_loads lines st
    = parse_lines json_loads (filter keep lines) st.
Proof.
  intros Hkeep.
  induction lines as [| line rest IH]; intros st; [reflexivity |].
  simpl filter. destruct (keep line) eqn:Hline.
  - simpl. destruct (process_line json_loads st line) as [st1 | e]; simpl;
      [apply IH | reflexivity].
  - apply Hkeep in Hline. unfold skipped in Hline.
    destruct (decode_line json_loads line) eqn:Hdecode;
      [discriminate Hline |].
    rewrite (parse_lines_cons_skipped _ _ _ _ Hdecode). apply IH.
Qed.

(** C4 (amended): a line that is not JSON is skipped, like a blank line,
    and the parse goes on: the outcome is that of the log without the
    malformed lines, without any of the skipped lines, or without any
    single one.  The parse returns an aggregate whenever every line that
    decodes is a well-shaped record; a line that decodes to JSON that is
    not an object is not skipped: it aborts the parse. *)
Theorem undecodable_lines_skipped (json_loads : string -> option json)
    (lines : list string) :
  parse_jsonl json_loads lines
  = parse_jsonl json_loads
      (filter (fun line => negb (malformed json_loads line)) lines)
  /\ parse_jsonl json_loads lines
     = parse_jsonl json_loads
         (filter (fun line => negb (skipped json_loads line)) lines)
  /\ (forall before line after,
         lines = (before ++ line :: after)%list ->
         skipped json_loads line = true ->
         parse_jsonl json_loads lines = parse_jsonl json_loads (before ++ after))
  /\ (forallb well_shaped (records json_loads lines) = true ->
      returns (parse_jsonl json_loads lines))
  /\ (forall data,
         In data (records json_loads lines) ->
         isinstance_dict data = false ->
         ~ returns (parse_jsonl json_loads lines)).
Proof.
  split; [| split; [| split; [| split]]].
  - apply parse_lines_filter. intros line H.
    apply negb_false_iff in H. apply malformed_skipped. exact H.
  - apply parse_lines_filter. intros line H.
    apply negb_false_iff in H. exact H.
  - intros before line after -> Hskip. unfold parse_jsonl.
    rewrite !parse_lines_app.
    destruct (parse_lines json_loads before initial_state) as [st | e];
      simpl; [| reflexivity].
    apply parse_lines_cons_skipped.
    unfold skipped in Hskip.
    destruct (decode_line json_loads line); [discriminate Hskip | reflexivity].
  - intros Hok. apply parse_lines_returns. exact Hok.
  - intros data Hin Hnot Hret.
    pose proof (parse_lines_dicts json_loads lines initial_state Hret data Hin)
      as Hdict.
    congruence.
Qed.

(** A log with a blank line, a truncated line and two well-shaped records. *)
Lemma undecodable_lines_skipped_witness :
  returns
    (parse_jsonl (loads_only two_workflows_log)
       (" " :: "{" :: map dumps two_workflows_log)).
Proof.
  apply (proj1 (proj2 (proj2 (proj2 (undecodable_lines_skipped
                                (loads_only two_workflows_log)
                                (" " :: "{" :: map dumps two_workflows_log)))))).
  vm_compute. reflexivity.
Defined.

(** C4, as stated, fails: the line [42] is JSON, so it is not skipped, and
    it is not an object, so the parse aborts with an exception instead of
    returning an aggregate. *)
Lemma number_line_aborts :
  skipped (loads_only [number_line]) (dumps number_line) = false
  /\ parse_jsonl (loads_only [number_line]) [dumps number_line]
     = Raise AttributeError
  /\ ~ returns (parse_jsonl (loads_only [number_line]) [dumps number_line]).
Proof.
  split; [reflexivity |]. split; [reflexivity |].
  intros [r H]. discriminate H.
Qed.

(** * Further properties *)

(** ** Strings *)

Lemma append_nil_r (s : string) : s ++ "" = s.
Proof. induction s as [| c s IH]; simpl; [reflexivity | rewrite IH; reflexivity]. Qed.

Lemma append_assoc (a b c : string) : (a ++ b) ++ c = a ++ (b ++ c).
Proof. induction a as [| x a IH]; simpl; [reflexivity | rewrite IH; reflexivity]. Qed.

Lemma split_nonempty (sep : ascii) (s : string) : split sep s <> [].
Proof.
  destruct s as [| c t]; simpl; [discriminate |].
  destruct (Ascii.eqb c sep); [discriminate |].
  destruct (split sep t); discriminate.
Qed.

(** Joining the pieces of a split gives the string back. *)
Lemma join_split (s : string) : join_with "-" (split "-" s) = s.
Proof.
  induction s as [| c t IH]; [reflexivity |].
  simpl split. destruct (Ascii.eqb c "-") eqn:Hc.
  - apply Ascii.eqb_eq in Hc. subst c.
    pose proof (split_nonempty "-" t) as Hne.
    destruct (split "-" t) as [| p ps]; [congruence |].
    change (join_with "-" ("" :: p :: ps))
      with ("" ++ "-" ++ join_with "-" (p :: ps)).
    rewrite IH. reflexivity.
  - pose proof (split_nonempty "-" t) as Hne.
    destruct (split "-" t) as [| p ps]; [congruence |].
    destruct ps as [| q qs].
    + simpl in IH. simpl. rewrite IH. reflexivity.
    + change (join_with "-" (String c p :: q :: qs))
        with (String c (p ++ "-" ++ join_with "-" (q :: qs))).
      change (join_with "-" (p :: q :: qs))
        with (p ++ "-" ++ join_with "-" (q :: qs)) in IH.
      rewrite IH. reflexivity.
Qed.

Lemma split_cons (sep c : ascii) (t : string) :
  split sep (String c t)
  = if Ascii.eqb c sep then "" :: split sep t
    else match split sep t with
         | first :: rest => String c first :: rest
         | [] => [String c ""]
         end.
Proof. reflexivity. Qed.

(** Splitting two joined strings splits each. *)
Lemma split_join2 (a b : string) :
  split "-" (a ++ "-" ++ b) = (split "-" a ++ split "-" b)%list.
Proof.
  induction a as [| c a IH].
  - simpl. pose proof (split_nonempty "-" b).
    destruct (split "-" b); [congruence | reflexivity].
  - change ((String c a) ++ "-" ++ b) with (String c (a ++ "-" ++ b)).
    rewrite !split_cons, IH.
    destruct (Ascii.eqb c "-"); [reflexivity |].
    pose proof (split_nonempty "-" a).
    destruct (split "-" a); [congruence | reflexivity].
Qed.

Lemma join_with_cons (sep part : string) (rest : list string) :
  rest <> [] ->
  join_with sep (part :: rest) = part ++ sep ++ join_with sep rest.
Proof. destruct rest; [congruence | reflexivity]. Qed.

Lemma split_join (names : list string) :
  names <> [] ->
  split "-" (join_with "-" names) = flat_map (split "-") names.
Proof.
  induction names as [| name rest IH]; [congruence |]. intros _.
  destruct rest as [| name2 rest'].
  - simpl. rewrite app_nil_r. reflexivity.
  - rewrite join_with_cons by discriminate.
    rewrite split_join2, IH by discriminate. reflexivity.
Qed.

(** Re-joining two neighbours first does not change the joined string. *)
Lemma join_with_merge (sep a b : string) (before after : list string) :
  join_with sep (before ++ (a ++ sep ++ b) :: after)
  = join_with sep (before ++ a :: b :: after).
Proof.
  induction before as [| x before IH].
  - simpl app. destruct after as [| y after'].
    + reflexivity.
    + rewrite !join_with_cons by discriminate.
      rewrite !append_assoc. reflexivity.
  - simpl app.
    rewrite !join_with_cons by (destruct before; discriminate).
    rewrite IH. reflexivity.
Qed.

Lemma lacks_append (c : ascii) (a b : string) :
  lacks c (a ++ b) = lacks c a && lacks c b.
Proof.
  induction a as [| x a IH]; simpl; [reflexivity |].
  rewrite IH, andb_assoc. reflexivity.
Qed.

Lemma replace_char_append (old new : ascii) (a b : string) :
  replace_char old new (a ++ b)
  = replace_char old new a ++ replace_char old new b.
Proof.
  induction a as [| x a IH]; simpl; [reflexivity | rewrite IH; reflexivity].
Qed.

Lemma replace_char_lacks (old new : ascii) (s : string) :
  lacks old s = true -> replace_char old new s = s.
Proof.
  induction s as [| x s IH]; simpl; [reflexivity |]. intros H.
  apply andb_prop in H. destruct H as [Hx Hs].
  apply negb_true_iff in Hx. rewrite Hx, (IH Hs). reflexivity.
Qed.

Lemma replace_join (names : list string) :
  forallb (lacks "/") names = true ->
  replace_char "/" "-" (join_with "/" names) = join_with "-" names.
Proof.
  induction names as [| name rest IH]; [reflexivity |]. intros H.
  simpl in H. apply andb_prop in H. destruct H as [Hname Hrest].
  destruct rest as [| name2 rest'].
  - simpl. apply replace_char_lacks. exact Hname.
  - rewrite !join_with_cons by discriminate.
    rewrite !replace_char_append, (replace_char_lacks _ _ _ Hname).
    rewrite (IH Hrest). reflexivity.
Qed.

Lemma lacks_join (c : ascii) (names : list string) :
  lacks c (join_with "-" names) = true -> forallb (lacks c) names = true.
Proof.
  induction names as [| name rest IH]; [reflexivity |].
  destruct rest as [| name2 rest'].
  - simpl. intros ->. reflexivity.
  - rewrite join_with_cons by discriminate.
    rewrite !lacks_append. intros H.
    apply andb_prop in H. destruct H as [Hname H].
    apply andb_prop in H. destruct H as [_ Hrest].
    change (forallb (lacks c) (name :: name2 :: rest'))
      with (lacks c name && forallb (lacks c) (name2 :: rest')).
    rewrite Hname, (IH Hrest). reflexivity.
Qed.

(** ** PathDecoder: the encoding and its inverse *)

Lemma path_str_fold (path : Path) (acc : string) :
  fold_left (fun acc seg => acc ++ "/" ++ seg) path acc
  = acc ++ match path with
           | [] => ""
           | _ => "/" ++ join_with "/" path
           end.
Proof.
  revert acc. induction path as [| seg rest IH]; intros acc.
  - simpl. rewrite append_nil_r. reflexivity.
  - simpl fold_left. rewrite IH. destruct rest as [| seg2 rest'].
    + simpl. rewrite append_nil_r. reflexivity.
    + rewrite (join_with_cons "/" seg) by discriminate.
      rewrite !append_assoc. reflexivity.
Qed.

Lemma path_str_join (path : Path) :
  path <> [] -> path_str path = "/" ++ join_with "/" path.
Proof.
  intros Hne. unfold path_str. destruct path as [| seg rest]; [congruence |].
  rewrite path_str_fold. reflexivity.
Qed.

(** The encoded form of a path of well-formed components. *)
Lemma encode_project_path_join (path : Path) :
  path <> [] -> forallb (lacks "/") path = true ->
  encode_project_path path = "-" ++ join_with "-" path.
Proof.
  intros Hne Hok. unfold encode_project_path.
  rewrite (path_str_join path Hne).
  change ("/" ++ join_with "/" path) with (String "/" (join_with "/" path)).
  simpl replace_char. rewrite (replace_join path Hok). reflexivity.
Qed.

Lemma joinpath_kept (path : Path) (segment : string) :
  negb (segment =? "") && negb (segment =? ".") = true ->
  joinpath path segment = (path ++ [segment])%list.
Proof.
  intros H. unfold joinpath. apply andb_prop in H. destruct H as [H1 H2].
  apply negb_true_iff in H1, H2. rewrite H1, H2. reflexivity.
Qed.

Lemma rejoined_kept (a b : string) :
  negb (a ++ "-" ++ b =? "") && negb (a ++ "-" ++ b =? ".") = true.
Proof.
  destruct a as [| x a]; [reflexivity |].
  destruct a as [| y a]; simpl.
  - destruct (Ascii.eqb x "."); reflexivity.
  - destruct (Ascii.eqb x "."); reflexivity.
Qed.

Lemma fold_rejoin (pieces : list string) (candidate : string) :
  fold_left (fun acc piece => acc ++ "-" ++ piece) pieces candidate
  = join_with "-" (candidate :: pieces).
Proof.
  revert candidate. induction pieces as [| p ps IH]; intros candidate.
  - reflexivity.
  - simpl fold_left. rewrite IH.
    exact (join_with_merge "-" candidate p [] ps).
Qed.

(** While no candidate exists, the inner loop re-joins the pieces. *)
Lemma decode_from_grow (path_exists : Path -> bool) (path : Path)
    (pieces : list string) :
  forall candidate more,
    (forall c, In c (candidates candidate pieces) ->
               path_exists (joinpath path c) = false) ->
    decode_from path_exists path (candidate :: pieces ++ more)
    = decode_from path_exists path
        (join_with "-" (candidate :: pieces) :: more).
Proof.
  induction pieces as [| p ps IH]; intros candidate more Hnone.
  - reflexivity.
  - simpl app. rewrite decode_from_missing
      by (apply Hnone; left; reflexivity).
    rewrite IH by (intros c Hc; apply Hnone; right; exact Hc).
    rewrite <- !fold_rejoin. reflexivity.
Qed.

(** The walk over the pieces of well-formed names whose directories exist
    and whose hyphen prefixes do not. *)
Lemma decode_from_names (path_exists : Path -> bool) (names : list string) :
  forall before,
    names <> [] ->
    forallb component_ok names = true ->
    (forall k, (S k < List.length names)%nat ->
               path_exists (before ++ firstn (S k) names)%list = true) ->
    (forall k c, (k < List.length names)%nat ->
                 In c (hyphen_prefixes (nth k names "")) ->
                 path_exists (joinpath (before ++ firstn k names)%list c)
                 = false) ->
    decode_from path_exists before (flat_map (split "-") names)
    = (before ++ names)%list.
Proof.
  induction names as [| name rest IH]; intros before Hne Hok Hdirs Hnone;
    [congruence |].
  simpl in Hok. apply andb_prop in Hok. destruct Hok as [Hname Hrest].
  assert (Hkept : negb (name =? "") && negb (name =? ".") = true).
  { unfold component_ok in Hname. apply andb_prop in Hname. tauto. }
  simpl flat_map.
  pose proof (join_split name) as Hjoin.
  pose proof (Hnone 0%nat) as Hnone0. simpl in Hnone0.
  rewrite app_nil_r in Hnone0. unfold hyphen_prefixes in Hnone0.
  destruct (split "-" name) as [| p ps] eqn:Hsplit;
    [exfalso; exact (split_nonempty "-" name Hsplit) |].
  simpl app.
  rewrite (decode_from_grow path_exists before ps p)
    by (intros c Hc; apply Hnone0; [lia | exact Hc]).
  rewrite Hjoin.
  destruct rest as [| name2 rest'].
  - simpl. apply joinpath_kept. exact Hkept.
  - pose proof (split_nonempty "-" name2) as Hne2.
    simpl flat_map.
    destruct (split "-" name2) as [| q qs] eqn:Hsplit2; [congruence |].
    simpl app.
    assert (Hdir : path_exists (joinpath before name) = true).
    { rewrite (joinpath_kept before name Hkept).
      apply (Hdirs 0%nat). simpl. lia. }
    rewrite (decode_from_found _ _ _ _ _ Hdir).
    rewrite (joinpath_kept before name Hkept).
    replace (q :: (qs ++ flat_map (split "-") rest')%list)
      with (flat_map (split "-") (name2 :: rest'))
      by (simpl; rewrite Hsplit2; reflexivity).
    rewrite IH.
    + rewrite <- app_assoc. reflexivity.
    + discriminate.
    + exact Hrest.
    + intros k Hk. rewrite <- app_assoc. apply (Hdirs (S k)).
      simpl in Hk |- *. lia.
    + intros k c Hk Hc. rewrite <- app_assoc.
      apply (Hnone (S k) c); [simpl in Hk |- *; lia | exact Hc].
Qed.

(** X1: decoding inverts the encoding.  For a project root whose
    components are well-formed names, whose parent directories all exist and
    in which no name cut at one of its hyphens is an existing entry of its
    parent, decoding the encoded root gives the root back; the root itself
    need not exist. *)
Theorem decode_encode_roundtrip (path_exists : Path -> bool)
    (project_root : Path) :
  forallb component_ok project_root = true ->
  (forall k, (S k < List.length project_root)%nat ->
             path_exists (firstn (S k) project_root) = true) ->
  (forall k c, (k < List.length project_root)%nat ->
               In c (hyphen_prefixes (nth k project_root "")) ->
               path_exists (joinpath (firstn k project_root) c) = false) ->
  _decode_project_path path_exists (encode_project_path project_root)
  = project_root.
Proof.
  intros Hok Hdirs Hnone.
  destruct project_root as [| name rest] eqn:Hroot; [reflexivity |].
  rewrite <- Hroot in *.
  assert (Hne : project_root <> []) by (rewrite Hroot; discriminate).
  assert (Hslash : forallb (lacks "/") project_root = true).
  { clear - Hok. induction project_root as [| n ns IH]; [reflexivity |].
    simpl in *. apply andb_prop in Hok. destruct Hok as [Hn Hns].
    unfold component_ok in Hn. apply andb_prop in Hn. destruct Hn as [_ Hn].
    rewrite Hn, (IH Hns). reflexivity. }
  rewrite (encode_project_path_join project_root Hne Hslash).
  unfold _decode_project_path.
  change ("-" ++ join_with "-" project_root)
    with (String "-" (join_with "-" project_root)).
  cbv beta iota zeta.
  rewrite (split_join project_root Hne).
  apply (decode_from_names path_exists project_root root Hne Hok).
  - intros k Hk. simpl. apply Hdirs. exact Hk.
  - intros k c Hk Hc. simpl. apply Hnone; assumption.
Qed.

(** The tree of /a/b-c/d: the prefix "b" of "b-c" is not an entry of /a. *)
Lemma decode_encode_roundtrip_witness :
  _decode_project_path tree_exists (encode_project_path ["a"; "b-c"; "d"])
  = ["a"; "b-c"; "d"].
Proof.
  apply decode_encode_roundtrip.
  - reflexivity.
  - intros k Hk. simpl in Hk.
    destruct k as [| [| k]]; [reflexivity | reflexivity | lia].
  - intros k c Hk Hc. simpl in Hk.
    destruct k as [| [| [| k]]]; try lia; vm_compute in Hc.
    + destruct Hc.
    + destruct Hc as [<- | []]. reflexivity.
    + destruct Hc.
Defined.

(** What the walk returns spells the parts it was given. *)
Lemma decode_from_spelling (path_exists : Path -> bool) (n : nat) :
  forall parts path,
    (List.length parts <= n)%nat ->
    forallb (fun p => negb (p =? "") && negb (p =? ".")) parts = true ->
    join_with "-" (decode_from path_exists path parts)
    = join_with "-" (path ++ parts).
Proof.
  induction n as [| n IH]; intros parts path Hlen Hok.
  - destruct parts; [| simpl in Hlen; lia].
    simpl. rewrite app_nil_r. reflexivity.
  - destruct parts as [| seg rest]; [simpl; rewrite app_nil_r; reflexivity |].
    simpl in Hok. apply andb_prop in Hok. destruct Hok as [Hseg Hrest].
    destruct rest as [| next rest'].
    + rewrite decode_from_last, (joinpath_kept path seg Hseg). reflexivity.
    + simpl in Hrest. apply andb_prop in Hrest. destruct Hrest as [Hnext Hrest'].
      destruct (path_exists (joinpath path seg)) eqn:Hprobe.
      * rewrite (decode_from_found _ _ _ _ _ Hprobe).
        rewrite (joinpath_kept path seg Hseg).
        rewrite IH.
        -- rewrite <- app_assoc. reflexivity.
        -- simpl in Hlen |- *. lia.
        -- cbn [forallb]. rewrite Hnext, Hrest'. reflexivity.
      * rewrite (decode_from_missing _ _ _ _ _ Hprobe).
        rewrite IH.
        -- apply join_with_merge.
        -- simpl in Hlen |- *. lia.
        -- cbn [forallb]. rewrite (rejoined_kept seg next), Hrest'. reflexivity.
Qed.

Lemma decode_from_nonempty (path_exists : Path -> bool) (n : nat) :
  forall parts path,
    (List.length parts <= n)%nat ->
    parts <> [] ->
    forallb (fun p => negb (p =? "") && negb (p =? ".")) parts = true ->
    decode_from path_exists path parts <> [].
Proof.
  induction n as [| n IH]; intros parts path Hlen Hne Hok.
  - destruct parts; [congruence | simpl in Hlen; lia].
  - destruct parts as [| seg rest]; [congruence |].
    simpl in Hok. apply andb_prop in Hok. destruct Hok as [Hseg Hrest].
    destruct rest as [| next rest'].
    + rewrite decode_from_last, (joinpath_kept path seg Hseg).
      destruct path; discriminate.
    + simpl in Hrest. apply andb_prop in Hrest. destruct Hrest as [Hnext Hrest'].
      destruct (path_exists (joinpath path seg)) eqn:Hprobe.
      * rewrite (decode_from_found _ _ _ _ _ Hprobe).
        apply IH; [simpl in Hlen |- *; lia | discriminate |].
        cbn [forallb]. rewrite Hnext, Hrest'. reflexivity.
      * rewrite (decode_from_missing _ _ _ _ _ Hprobe).
        apply IH; [simpl in Hlen |- *; lia | discriminate |].
        cbn [forallb]. rewrite (rejoined_kept seg next), Hrest'. reflexivity.
Qed.

(** X2: whatever the filesystem answers, the decoder only chooses which
    hyphens are separators: when the encoded name has no "/" and none of
    its hyphen-separated parts is empty or ".", the decoded path encodes
    back to the name (with "-" for the first character, which the decoder
    does not read). *)
Theorem decode_spells_encoded (path_exists : Path -> bool) (first : ascii)
    (rest : string) :
  lacks "/" rest = true ->
  forallb (fun p => negb (p =? "") && negb (p =? ".")) (split "-" rest) = true ->
  encode_project_path (_decode_project_path path_exists (String first rest))
  = String "-" rest.
Proof.
  intros Hslash Hparts. unfold _decode_project_path. cbv beta iota zeta.
  set (parts := split "-" rest) in *.
  set (decoded := decode_from path_exists root parts).
  assert (Hspell : join_with "-" decoded = rest).
  { unfold decoded.
    rewrite (decode_from_spelling path_exists (List.length parts) parts root)
      by (try lia; exact Hparts).
    simpl app. apply join_split. }
  assert (Hne : decoded <> []).
  { apply (decode_from_nonempty path_exists (List.length parts));
      [lia | apply split_nonempty | exact Hparts]. }
  assert (Hok : forallb (lacks "/") decoded = true).
  { apply lacks_join. rewrite Hspell. exact Hslash. }
  rewrite (encode_project_path_join decoded Hne Hok), Hspell. reflexivity.
Qed.

Lemma decode_spells_encoded_witness :
  encode_project_path
    (_decode_project_path tree_exists "-home-user-my-project")
  = "-home-user-my-project".
Proof.
  apply decode_spells_encoded; reflexivity.
Defined.

Lemma decode_from_none (path_exists : Path -> bool) (path : Path)
    (pieces : list string) (candidate : string) :
  (forall c, In c (candidates candidate pieces) ->
             path_exists (joinpath path c) = false) ->
  decode_from path_exists path (candidate :: pieces)
  = joinpath path (join_with "-" (candidate :: pieces)).
Proof.
  intros Hnone.
  rewrite <- (app_nil_r pieces) at 1.
  rewrite decode_from_grow by exact Hnone.
  apply decode_from_last.
Qed.

Lemma decode_from_all (path_exists : Path -> bool) (parts : list string) :
  forall path,
    (forall k, (S k < List.length parts)%nat ->
               path_exists (fold_left joinpath (firstn (S k) parts) path)
               = true) ->
    decode_from path_exists path parts = fold_left joinpath parts path.
Proof.
  induction parts as [| seg rest IH]; intros path Hall; [reflexivity |].
  destruct rest as [| next rest'].
  - apply decode_from_last.
  - assert (Hseg : path_exists (joinpath path seg) = true).
    { apply (Hall 0%nat). simpl. lia. }
    rewrite (decode_from_found _ _ _ _ _ Hseg). rewrite IH; [reflexivity |].
    intros k Hk. apply (Hall (S k)). simpl in Hk |- *. lia.
Qed.

(** X3: the two extremes of the decoder.  When none of the candidates it
    probes under the root exists (the name after the first character, cut
    at each of its hyphens: another machine), it returns that whole name as
    a single component, hyphens kept; when every directory of the naive
    reading exists (the proper prefixes of the path that takes every hyphen
    for a separator), every hyphen becomes a separator. *)
Theorem decode_extremes (path_exists : Path -> bool) (encoded : string) :
  let rest := match encoded with String _ t => t | EmptyString => "" end in
  ((forall c, In c (hyphen_prefixes rest) ->
              path_exists (joinpath root c) = false) ->
   _decode_project_path path_exists encoded = joinpath root rest)
  /\ ((forall k, (S k < List.length (split "-" rest))%nat ->
                 path_exists (naive_path (firstn (S k) (split "-" rest)))
                 = true) ->
      _decode_project_path path_exists encoded
      = naive_path (split "-" rest)).
Proof.
  intros rest. split; intros H; unfold _decode_project_path; fold rest.
  - pose proof (split_nonempty "-" rest) as Hne.
    pose proof (join_split rest) as Hjoin.
    unfold hyphen_prefixes in H.
    destruct (split "-" rest) as [| p ps]; [congruence |].
    rewrite (decode_from_none _ _ _ _ H), Hjoin. reflexivity.
  - apply decode_from_all. exact H.
Qed.

Lemma decode_extremes_witness :
  _decode_project_path tree_exists "-home-user-my-project"
  = ["home-user-my-project"]
  /\ _decode_project_path tree_exists "-a-b" = ["a"; "b"].
Proof.
  split.
  - apply (proj1 (decode_extremes tree_exists "-home-user-my-project")).
    intros c Hc. vm_compute in Hc.
    destruct Hc as [<- | [<- | [<- | []]]]; reflexivity.
  - apply (proj2 (decode_extremes tree_exists "-a-b")).
    intros k Hk. vm_compute in Hk.
    destruct k as [| k]; [reflexivity |].
    exfalso. simpl in Hk. lia.
Defined.

(** ** CostModel: the order of the entries, sign and growth *)

(** X4: a cost is accumulated in the order of the dict, and in binary64
    that order matters.  The cost of a dict with one more entry at its end
    is the cost of the dict to which the five terms of the entry are
    added, one rounded addition after the other; and the same two entries
    cost 0.057999999999999996 with the opus entry first and 0.058 with
    the sonnet entry first. *)
Theorem cost_depends_on_entry_order :
  (forall tokens_by_model item,
      B64.calculate_cost (tokens_by_model ++ [item])%list
      = B64.add_model_cost (B64.calculate_cost tokens_by_model) item)
  /\ B64.calculate_cost opus_then_sonnet = 0.057999999999999996%float
  /\ B64.calculate_cost sonnet_then_opus = 0.058%float
  /\ (B64.calculate_cost opus_then_sonnet
      <? B64.calculate_cost sonnet_then_opus)%float = true
  /\ sonnet_then_opus = rev opus_then_sonnet.
Proof.
  split.
  - intros tokens_by_model item. unfold B64.calculate_cost.
    rewrite fold_left_app. reflexivity.
  - split; [vm_compute; reflexivity |].
    split; [vm_compute; reflexivity |].
    split; [vm_compute; reflexivity |].
    reflexivity.
Qed.

Lemma fold_add_model_cost (tbm : TokensByModel) (total : Q) :
  fold_left add_model_cost tbm total == total + measure model_cost tbm.
Proof.
  revert total. induction tbm as [| [model tokens] rest IH]; intros total.
  - simpl. ring.
  - simpl fold_left. etransitivity; [apply IH |].
    simpl measure.
    assert (H := add_model_cost_cost_at total model tokens).
    unfold model_cost.
    transitivity (total + cost_at (pricing_for model) tokens
                  + measure model_cost rest).
    + apply Qplus_comp; [exact H | reflexivity].
    + unfold model_cost. ring.
Qed.

Lemma calculate_cost_measure (tbm : TokensByModel) :
  calculate_cost tbm == measure model_cost tbm.
Proof.
  unfold calculate_cost. etransitivity; [apply fold_add_model_cost |]. ring.
Qed.

Lemma assoc_In {V : Type} (k : string) (kvs : list (string * V)) (v : V) :
  assoc k kvs = Some v -> In v (map snd kvs).
Proof.
  induction kvs as [| [k' v'] rest IH]; simpl; [discriminate |].
  destruct (k' =? k); intros H.
  - injection H as <-. left. reflexivity.
  - right. apply IH. exact H.
Qed.

(** Every price in use is a row of the table. *)
Lemma pricing_for_listed (model : json) :
  In (pricing_for model) (map snd MODEL_PRICING).
Proof.
  assert (Hdefault : In DEFAULT_PRICING (map snd MODEL_PRICING))
    by (left; reflexivity).
  destruct model; try exact Hdefault.
  unfold pricing_for. destruct (assoc s MODEL_PRICING) eqn:Hs;
    [exact (assoc_In _ _ _ Hs) | exact Hdefault].
Qed.

Lemma pricing_for_nonneg (model : json) :
  0 <= p_input (pricing_for model)
  /\ 0 <= p_output (pricing_for model)
  /\ 0 <= p_cache_5m (pricing_for model)
  /\ 0 <= p_cache_1h (pricing_for model)
  /\ 0 <= p_cache_read (pricing_for model).
Proof.
  pose proof (pricing_for_listed model) as H. simpl in H.
  repeat (destruct H as [<- | H];
          [repeat split; vm_compute; discriminate |]).
  destruct H.
Qed.

Lemma term_nonneg (count rate : Q) :
  0 <= count -> 0 <= rate -> 0 <= count * rate / million.
Proof.
  intros Hc Hr. apply Qle_shift_div_l; [reflexivity |].
  rewrite Qmult_0_l. apply Qmult_le_0_compat; assumption.
Qed.

Lemma model_cost_nonneg (model : json) (tokens : Tokens) :
  nonneg_tokens tokens -> 0 <= model_cost model tokens.
Proof.
  intros [Hi [Ho [H5 [H1 Hr]]]].
  destruct (pricing_for_nonneg model) as [Pi [Po [P5 [P1 Pr]]]].
  unfold model_cost, cost_at.
  pose proof (term_nonneg _ _ Hi Pi). pose proof (term_nonneg _ _ Ho Po).
  pose proof (term_nonneg _ _ H5 P5). pose proof (term_nonneg _ _ H1 P1).
  pose proof (term_nonneg _ _ Hr Pr).
  lra.
Qed.

Lemma measure_nonneg (tbm : TokensByModel) :
  Forall (fun item => nonneg_tokens (snd item)) tbm ->
  0 <= measure model_cost tbm.
Proof.
  induction 1 as [| [m t] rest Ht _ IH]; simpl.
  - apply Qle_refl.
  - pose proof (model_cost_nonneg m t Ht). lra.
Qed.

Lemma model_cost_add (model : json) (a b : Tokens) :
  model_cost model (add_tokens a b) == model_cost model a + model_cost model b.
Proof. unfold model_cost, cost_at, add_tokens. simpl. field. discriminate. Qed.

(** X5: sign and growth of a cost, on the formula read over the
    rationals: a cost is never negative when no counter is, and it does
    not decrease when counters that are not negative are added to a
    model. *)
Theorem cost_nonnegative_and_monotone (model : json) (a b : Tokens)
    (tbm : TokensByModel) :
  Forall (fun item => nonneg_tokens (snd item)) tbm ->
  nonneg_tokens b ->
  0 <= calculate_cost tbm
  /\ calculate_cost ((model, a) :: tbm)
     <= calculate_cost ((model, add_tokens a b) :: tbm).
Proof.
  intros Htbm Hb.
  rewrite !calculate_cost_measure. simpl.
  pose proof (measure_nonneg tbm Htbm) as H0.
  pose proof (model_cost_add model a b) as Hadd.
  pose proof (model_cost_nonneg model b Hb) as Hb0.
  split; lra.
Qed.

Lemma cost_nonnegative_and_monotone_witness :
  0 <= calculate_cost [(JStr "claude-opus-4-6", mkTokens 10 5 0 0 0 1)]
  /\ calculate_cost [(JNull, mkTokens 1 2 3 4 5 1);
                     (JStr "claude-opus-4-6", mkTokens 10 5 0 0 0 1)]
     <= calculate_cost [(JNull, add_tokens (mkTokens 1 2 3 4 5 1)
                                           (mkTokens 10 5 0 0 0 1));
                        (JStr "claude-opus-4-6", mkTokens 10 5 0 0 0 1)].
Proof.
  apply (cost_nonnegative_and_monotone JNull (mkTokens 1 2 3 4 5 1)
           (mkTokens 10 5 0 0 0 1)
           [(JStr "claude-opus-4-6", mkTokens 10 5 0 0 0 1)]).
  - repeat constructor; vm_compute; discriminate.
  - repeat split; vm_compute; discriminate.
Defined.

(** ** Sums over dicts *)

Lemma measure_app (mu : json -> Tokens -> Q) (a b : TokensByModel) :
  measure mu (a ++ b)%list == measure mu a + measure mu b.
Proof.
  induction a as [| [m t] a IH]; simpl.
  - ring.
  - transitivity (mu m t + (measure mu a + measure mu b)).
    + apply Qplus_comp; [reflexivity | exact IH].
    + ring.
Qed.

(** ** Dict keys *)

Lemma key_eqb_sym (a b : json) : key_eqb a b = key_eqb b a.
Proof.
  assert (Hq : forall x y, Qeq_bool x y = Qeq_bool y x).
  { intros x y. destruct (Qeq_bool x y) eqn:H1, (Qeq_bool y x) eqn:H2;
      try reflexivity.
    - apply Qeq_bool_iff in H1. symmetry in H1. apply Qeq_bool_iff in H1.
      congruence.
    - apply Qeq_bool_iff in H2. symmetry in H2. apply Qeq_bool_iff in H2.
      congruence. }
  destruct a, b; unfold key_eqb; simpl; try reflexivity; try apply Hq.
  apply String.eqb_sym.
Qed.

Lemma key_eqb_trans (a b c : json) :
  key_eqb a b = true -> key_eqb b c = true -> key_eqb a c = true.
Proof.
  unfold key_eqb.
  destruct (key_num a) as [x |] eqn:Ha, (key_num b) as [y |] eqn:Hb,
           (key_num c) as [z |] eqn:Hc; try discriminate.
  - intros H1 H2. apply Qeq_bool_iff in H1, H2. apply Qeq_bool_iff.
    etransitivity; eassumption.
  - destruct a, b; try discriminate; destruct c; try discriminate;
      try (intros; reflexivity).
    intros H1 H2. apply String.eqb_eq in H1, H2. apply String.eqb_eq.
    congruence.
Qed.

Lemma key_eqb_pricing (a b : json) :
  key_eqb a b = true -> pricing_for a = pricing_for b.
Proof.
  destruct a, b; unfold key_eqb; simpl; try discriminate; try reflexivity.
  intros H. apply String.eqb_eq in H. subst. reflexivity.
Qed.

Lemma key_eqb_right (k m m' : json) :
  key_eqb m m' = true -> key_eqb k m = key_eqb k m'.
Proof.
  intros H. destruct (key_eqb k m) eqn:H1, (key_eqb k m') eqn:H2;
    try reflexivity.
  - rewrite (key_eqb_trans _ _ _ H1 H) in H2. discriminate.
  - rewrite key_eqb_sym in H.
    rewrite (key_eqb_trans _ _ _ H2 H) in H1. discriminate.
Qed.

Lemma find_model_key (m m' : json) (tbm : TokensByModel) :
  key_eqb m m' = true -> find_model m tbm = find_model m' tbm.
Proof.
  intros H. induction tbm as [| [k t] rest IH]; simpl; [reflexivity |].
  rewrite (key_eqb_right k m m' H), IH. reflexivity.
Qed.

Lemma find_model_app (m : json) (a b : TokensByModel) :
  find_model m (a ++ b)%list
  = match find_model m a with
    | Some t => Some t
    | None => find_model m b
    end.
Proof.
  induction a as [| [k t] a IH]; simpl; [reflexivity |].
  destruct (key_eqb k m); [reflexivity | exact IH].
Qed.

Lemma find_model_summed (m : json) (a b : TokensByModel) :
  find_model m
    (map (fun '(k, t) => (k, add_tokens t (tokens_or_zero (find_model k b)))) a)
  = match find_model m a with
    | Some t => Some (add_tokens t (tokens_or_zero (find_model m b)))
    | None => None
    end.
Proof.
  induction a as [| [k t] a IH]; simpl; [reflexivity |].
  destruct (key_eqb k m) eqn:Hk; [| exact IH].
  rewrite (find_model_key k m b Hk). reflexivity.
Qed.

Lemma find_model_new (m : json) (a b : TokensByModel) :
  find_model m a = None ->
  find_model m
    (map (fun '(k, t) => (k, add_tokens zero_tokens t))
       (filter (fun '(k, _) =>
                  match find_model k a with Some _ => false | None => true end)
               b))
  = match find_model m b with
    | Some t => Some (add_tokens zero_tokens t)
    | None => None
    end.
Proof.
  intros Ha. induction b as [| [k t] b IH]; simpl; [reflexivity |].
  destruct (key_eqb k m) eqn:Hk.
  - rewrite (find_model_key k m a Hk), Ha. simpl. rewrite Hk. reflexivity.
  - destruct (find_model k a); simpl; [exact IH |].
    rewrite Hk. exact IH.
Qed.

Lemma find_model_merge (m : json) (a b : TokensByModel) :
  find_model m (merge_tokens a b)
  = match find_model m a, find_model m b with
    | None, None => None
    | x, y => Some (add_tokens (tokens_or_zero x) (tokens_or_zero y))
    end.
Proof.
  unfold merge_tokens.
  rewrite find_model_app, find_model_summed.
  destruct (find_model m a) as [x |] eqn:Ha.
  - destruct (find_model m b); reflexivity.
  - rewrite (find_model_new m a b Ha).
    destruct (find_model m b); reflexivity.
Qed.

Lemma tokens_eq_refl (t : Tokens) : tokens_eq t t.
Proof. repeat split; reflexivity. Qed.

Lemma add_tokens_comm (x y : Tokens) :
  tokens_eq (add_tokens x y) (add_tokens y x).
Proof. unfold tokens_eq, add_tokens; simpl. repeat split; try ring. Qed.

Lemma add_tokens_assoc (x y z : Tokens) :
  tokens_eq (add_tokens (add_tokens x y) z) (add_tokens x (add_tokens y z)).
Proof. unfold tokens_eq, add_tokens; simpl. repeat split; try ring. Qed.

Lemma add_tokens_zero_r (x : Tokens) : tokens_eq (add_tokens x zero_tokens) x.
Proof. unfold tokens_eq, add_tokens; simpl. repeat split; try ring. Qed.

Lemma add_tokens_zero_l (x : Tokens) : tokens_eq (add_tokens zero_tokens x) x.
Proof. unfold tokens_eq, add_tokens; simpl. repeat split; try ring. Qed.

(** X6: what [merge_tokens] holds for a model: nothing when neither side
    has the model, otherwise the counter-wise sum of the two entries, a
    side without the model counting as all zeros. *)
Theorem merge_tokens_lookup (model : json) (base addition : TokensByModel) :
  find_model model (merge_tokens base addition)
  = match find_model model base, find_model model addition with
    | None, None => None
    | Some x, Some y => Some (add_tokens x y)
    | Some x, None => Some (add_tokens x zero_tokens)
    | None, Some y => Some (add_tokens zero_tokens y)
    end.
Proof.
  rewrite find_model_merge.
  destruct (find_model model base), (find_model model addition); reflexivity.
Qed.

(** X7: merging is commutative and associative model by model, and the
    empty dict is neutral: the entry a model gets does not depend on the
    order in which the logs of a session are merged. *)
Theorem merge_tokens_commutative_associative (model : json)
    (a b c : TokensByModel) :
  lookup_eq (find_model model (merge_tokens a b))
            (find_model model (merge_tokens b a))
  /\ lookup_eq (find_model model (merge_tokens (merge_tokens a b) c))
               (find_model model (merge_tokens a (merge_tokens b c)))
  /\ lookup_eq (find_model model (merge_tokens a [])) (find_model model a)
  /\ lookup_eq (find_model model (merge_tokens [] a)) (find_model model a).
Proof.
  rewrite !find_model_merge. simpl.
  destruct (find_model model a) as [x |], (find_model model b) as [y |],
           (find_model model c) as [z |]; simpl;
    repeat split; unfold add_tokens, zero_tokens; simpl; try ring; exact I.
Qed.

(** ** Sums over a merge *)

Lemma find_model_none_filter (m : json) (keep : json * Tokens -> bool)
    (b : TokensByModel) :
  find_model m b = None -> find_model m (filter keep b) = None.
Proof.
  induction b as [| [k t] b IH]; simpl; [reflexivity |].
  destruct (key_eqb k m) eqn:Hk; [discriminate |].
  intros H. destruct (keep (k, t)); simpl; [rewrite Hk |]; apply IH; exact H.
Qed.

Lemma unique_keys_filter (keep : json * Tokens -> bool) (b : TokensByModel) :
  unique_keys b -> unique_keys (filter keep b).
Proof.
  induction b as [| [k t] b IH]; simpl; [trivial |].
  intros [Hk Hb]. destruct (keep (k, t)); simpl; [split |]; auto.
  apply find_model_none_filter. exact Hk.
Qed.

Lemma find_model_map_values (m : json) (f : json -> Tokens -> Tokens)
    (a : TokensByModel) :
  find_model m a = None ->
  find_model m (map (fun '(k, t) => (k, f k t)) a) = None.
Proof.
  induction a as [| [k t] a IH]; simpl; [reflexivity |].
  destruct (key_eqb k m); [discriminate | exact IH].
Qed.

Lemma unique_keys_map_values (f : json -> Tokens -> Tokens)
    (a : TokensByModel) :
  unique_keys a -> unique_keys (map (fun '(k, t) => (k, f k t)) a).
Proof.
  induction a as [| [k t] a IH]; simpl; [trivial |].
  intros [Hk Ha]. split; [apply find_model_map_values; exact Hk | auto].
Qed.

Lemma unique_keys_app (a b : TokensByModel) :
  unique_keys a -> unique_keys b ->
  (forall k t, In (k, t) a -> find_model k b = None) ->
  unique_keys (a ++ b)%list.
Proof.
  induction a as [| [k t] a IH]; simpl; [trivial |].
  intros [Hk Ha] Hb Hcross. split.
  - rewrite find_model_app, Hk. apply (Hcross k t). left. reflexivity.
  - apply IH; auto. intros k' t' Hin. apply (Hcross k' t'). right. exact Hin.
Qed.

Lemma find_model_In (m : json) (t : Tokens) (a : TokensByModel) :
  In (m, t) a -> hashable m = true -> find_model m a <> None.
Proof.
  induction a as [| [k t'] a IH]; simpl; [tauto |].
  intros [Heq | Hin] Hm.
  - injection Heq as -> ->.
    assert (H : key_eqb m m = true).
    { destruct m; unfold key_eqb; simpl; try reflexivity; try discriminate;
        try (apply Qeq_bool_iff; reflexivity).
      apply String.eqb_refl. }
    rewrite H. discriminate.
  - destruct (key_eqb k m); [discriminate | auto].
Qed.

Section Measures.

(** A quantity that is additive in the counters and the same for equal
    keys. *)
Variable mu : json -> Tokens -> Q.
Hypothesis mu_add :
  forall m x y, mu m (add_tokens x y) == mu m x + mu m y.
Hypothesis mu_zero : forall m, mu m zero_tokens == 0.
Hypothesis mu_key : forall m m' t, key_eqb m m' = true -> mu m t == mu m' t.

(** The entries of [b] whose key equals [m]. *)
Lemma measure_at_absent (m : json) (b : TokensByModel) :
  find_model m b = None ->
  measure mu (filter (fun '(k, _) => key_eqb k m) b) == 0.
Proof.
  induction b as [| [k t] b IH]; simpl; [reflexivity |].
  destruct (key_eqb k m); [discriminate | exact IH].
Qed.

Lemma measure_at_key (m : json) (b : TokensByModel) :
  unique_keys b ->
  measure mu (filter (fun '(k, _) => key_eqb k m) b)
  == mu m (tokens_or_zero (find_model m b)).
Proof.
  induction b as [| [k t] b IH]; simpl.
  - intros _. symmetry. apply mu_zero.
  - intros [Hk Hb]. destruct (key_eqb k m) eqn:Hkm.
    + simpl. rewrite (find_model_key k m b Hkm) in Hk.
      pose proof (measure_at_absent m b Hk) as H0.
      pose proof (mu_key k m t Hkm) as H1. lra.
    + apply IH. exact Hb.
Qed.

Lemma measure_split (keep : json -> bool) (m : json) (b : TokensByModel) :
  measure mu (filter (fun '(k, _) => keep k) b)
  == measure mu (filter (fun '(k, _) => keep k && key_eqb k m) b)
     + measure mu (filter (fun '(k, _) => keep k && negb (key_eqb k m)) b).
Proof.
  induction b as [| [k t] b IH]; simpl; [ring |].
  destruct (keep k), (key_eqb k m); simpl; lra.
Qed.

Lemma filter_ext_keys (f g : json -> bool) (b : TokensByModel) :
  (forall k t, In (k, t) b -> f k = g k) ->
  filter (fun '(k, _) => f k) b = filter (fun '(k, _) => g k) b.
Proof.
  intros H. apply filter_ext_in. intros [k t] Hin. apply (H k t Hin).
Qed.

Lemma measure_summed (a b : TokensByModel) :
  measure mu
    (map (fun '(k, t) => (k, add_tokens t (tokens_or_zero (find_model k b)))) a)
  == measure mu a
     + measure mu (map (fun '(k, _) => (k, tokens_or_zero (find_model k b))) a).
Proof.
  induction a as [| [k t] a IH]; simpl; [ring |].
  pose proof (mu_add k t (tokens_or_zero (find_model k b))). lra.
Qed.

Lemma measure_new (b : TokensByModel) :
  measure mu (map (fun '(k, t) => (k, add_tokens zero_tokens t)) b)
  == measure mu b.
Proof.
  induction b as [| [k t] b IH]; simpl; [ring |].
  pose proof (mu_add k zero_tokens t). pose proof (mu_zero k). lra.
Qed.

(** The part of [b] under the keys of [a], plus the part of [b] under
    other keys, is [b]. *)
Lemma measure_partition (a b : TokensByModel) :
  unique_keys a -> unique_keys b ->
  measure mu (map (fun '(k, _) => (k, tokens_or_zero (find_model k b))) a)
  + measure mu
      (filter (fun '(k, _) =>
                 match find_model k a with Some _ => false | None => true end)
              b)
  == measure mu b.
Proof.
  induction a as [| [m t] a IH]; intros Ha Hb.
  - simpl. rewrite (filter_ext_in _ (fun _ => true)).
    + rewrite forallb_filter_id; [ring |].
      apply forallb_forall. reflexivity.
    + intros [k t] _. reflexivity.
  - destruct Ha as [Hm Ha]. specialize (IH Ha Hb).
    simpl map. simpl measure at 1.
    set (absent := fun k : json =>
           match find_model k a with Some _ => false | None => true end) in *.
    assert (Hfilter :
      filter (fun '(k, _) =>
                match find_model k ((m, t) :: a) with
                | Some _ => false | None => true end) b
      = filter (fun '(k, _) => absent k && negb (key_eqb k m)) b).
    { apply filter_ext_in. intros [k t'] _. simpl. unfold absent.
      rewrite (key_eqb_sym m k).
      destruct (key_eqb k m) eqn:Hk.
      - rewrite andb_false_r. reflexivity.
      - rewrite andb_true_r. reflexivity. }
    rewrite Hfilter.
    assert (Hsame :
      filter (fun '(k, _) => absent k && key_eqb k m) b
      = filter (fun '(k, _) => key_eqb k m) b).
    { apply filter_ext_in. intros [k t'] _.
      destruct (key_eqb k m) eqn:Hk;
        [| rewrite andb_false_r; reflexivity].
      unfold absent. rewrite (find_model_key k m a Hk), Hm. reflexivity. }
    pose proof (measure_split absent m b) as Hsplit.
    rewrite Hsame in Hsplit.
    pose proof (measure_at_key m b Hb) as Hat.
    subst absent. cbv beta in *. lra.
Qed.

Lemma measure_merge (a b : TokensByModel) :
  unique_keys a -> unique_keys b ->
  measure mu (merge_tokens a b) == measure mu a + measure mu b.
Proof.
  intros Ha Hb. unfold merge_tokens.
  pose proof (measure_app mu
    (map (fun '(m, t) => (m, add_tokens t (tokens_or_zero (find_model m b)))) a)
    (map (fun '(m, t) => (m, add_tokens zero_tokens t))
       (filter (fun '(m, _) =>
                  match find_model m a with Some _ => false | None => true end)
               b))) as Happ.
  pose proof (measure_summed a b) as Hsum.
  pose proof (measure_new
    (filter (fun '(m, _) =>
               match find_model m a with Some _ => false | None => true end)
            b)) as Hnew.
  pose proof (measure_partition a b Ha Hb) as Hpart.
  lra.
Qed.

End Measures.

Lemma merge_tokens_unique (a b : TokensByModel) :
  unique_keys a -> unique_keys b -> unique_keys (merge_tokens a b).
Proof.
  intros Ha Hb. unfold merge_tokens. apply unique_keys_app.
  - apply (unique_keys_map_values
             (fun k t => add_tokens t (tokens_or_zero (find_model k b)))).
    exact Ha.
  - apply (unique_keys_map_values (fun _ t => add_tokens zero_tokens t)).
    apply (unique_keys_filter
             (fun '(m, _) =>
                match find_model m a with Some _ => false | None => true end)).
    exact Hb.
  - intros k t Hin.
    apply in_map_iff in Hin. destruct Hin as [[k' t'] [Heq Hin]].
    injection Heq as -> _.
    apply (find_model_map_values k (fun _ t => add_tokens zero_tokens t)).
    clear Hb. induction b as [| [kb tb] b IH]; simpl; [reflexivity |].
    destruct (find_model kb a) eqn:Hkb; [exact IH |].
    simpl. destruct (key_eqb kb k) eqn:Hk; [| exact IH].
    exfalso. clear IH. revert Hkb. 
    induction a as [| [ka ta] a IHa]; simpl in *; [tauto |].
    destruct Ha as [_ Ha]. destruct Hin as [Heq | Hin].
    + injection Heq as -> ->. rewrite key_eqb_sym, Hk. discriminate.
    + destruct (key_eqb ka kb); [discriminate |]. apply IHa; assumption.
Qed.

Lemma fold_total (f : Tokens -> Q) (tbm : TokensByModel) (acc : Q) :
  fold_left (fun acc item => acc + f (snd item)) tbm acc
  == acc + measure (fun _ t => f t) tbm.
Proof.
  revert acc. induction tbm as [| [m t] rest IH]; intros acc; simpl.
  - ring.
  - etransitivity; [apply IH |]. simpl. ring.
Qed.

Lemma total_merge (f : Tokens -> Q) (a b : TokensByModel) :
  (forall x y, f (add_tokens x y) == f x + f y) ->
  f zero_tokens == 0 ->
  unique_keys a -> unique_keys b ->
  fold_left (fun acc item => acc + f (snd item)) (merge_tokens a b) 0
  == fold_left (fun acc item => acc + f (snd item)) a 0
     + fold_left (fun acc item => acc + f (snd item)) b 0.
Proof.
  intros Hadd Hzero Ha Hb.
  pose proof (fold_total f (merge_tokens a b) 0) as H1.
  pose proof (fold_total f a 0) as H2.
  pose proof (fold_total f b 0) as H3.
  pose proof (measure_merge (fun _ t => f t) (fun _ => Hadd) (fun _ => Hzero)
                (fun _ _ _ _ => Qeq_refl _) a b Ha Hb) as H4.
  cbv beta in *. lra.
Qed.

(** X8: on dicts without duplicate keys (the only ones the parser
    builds), merging adds up: the merge has no duplicate key either, and
    each of its token totals (input, output, cache write, cache read) is
    the sum of the two totals. *)
Theorem merge_tokens_adds_up (a b : TokensByModel) :
  unique_keys a -> unique_keys b ->
  unique_keys (merge_tokens a b)
  /\ total_input (merge_tokens a b) == total_input a + total_input b
  /\ total_output (merge_tokens a b) == total_output a + total_output b
  /\ total_cache_write (merge_tokens a b)
     == total_cache_write a + total_cache_write b
  /\ total_cache_read (merge_tokens a b)
     == total_cache_read a + total_cache_read b.
Proof.
  intros Ha Hb.
  split; [apply merge_tokens_unique; assumption |].
  unfold total_input, total_output, total_cache_write, total_cache_read.
  repeat split.
  - apply (total_merge t_input); auto; intros; simpl; ring.
  - apply (total_merge t_output); auto; intros; simpl; ring.
  - apply (total_merge (fun t => t_cache_5m t + t_cache_1h t)); auto;
      intros; simpl; ring.
  - apply (total_merge t_cache_read); auto; intros; simpl; ring.
Qed.

Lemma merge_tokens_adds_up_witness :
  total_input
    (merge_tokens [(JStr "claude-opus-4-6", mkTokens 10 5 0 0 0 1)]
                  [(JStr "claude-haiku-4-5-20251001", mkTokens 7 3 0 0 0 1);
                   (JStr "claude-opus-4-6", mkTokens 1 1 1 1 1 1)])
  == total_input [(JStr "claude-opus-4-6", mkTokens 10 5 0 0 0 1)]
     + total_input [(JStr "claude-haiku-4-5-20251001", mkTokens 7 3 0 0 0 1);
                    (JStr "claude-opus-4-6", mkTokens 1 1 1 1 1 1)].
Proof.
  apply (merge_tokens_adds_up
           [(JStr "claude-opus-4-6", mkTokens 10 5 0 0 0 1)]
           [(JStr "claude-haiku-4-5-20251001", mkTokens 7 3 0 0 0 1);
            (JStr "claude-opus-4-6", mkTokens 1 1 1 1 1 1)]).
  - simpl. split; [reflexivity | exact I].
  - simpl. split; [reflexivity | split; [reflexivity | exact I]].
Defined.

(** ** UsageParser: what the loop keeps true *)

Lemma parse_lines_records (json_loads : string -> option json)
    (lines : list string) (st : ParseState) :
  parse_lines json_loads lines st
  = parse_records (records json_loads lines) st.
Proof.
  revert st. induction lines as [| line rest IH]; intros st; [reflexivity |].
  destruct (decode_line json_loads line) as [data |] eqn:Hline.
  - rewrite (parse_lines_cons_record _ _ _ _ _ Hline), records_cons, Hline.
    simpl. destruct (process_record data st); simpl; [apply IH | reflexivity].
  - rewrite (parse_lines_cons_skipped _ _ _ _ Hline), records_cons, Hline.
    apply IH.
Qed.

Lemma parse_records_app (before after : list json) (st : ParseState) :
  parse_records (before ++ after)%list st
  = (st' <- parse_records before st ;; parse_records after st').
Proof.
  revert st. induction before as [| data rest IH]; intros st; [reflexivity |].
  simpl. destruct (process_record data st); simpl; [apply IH | reflexivity].
Qed.

Lemma track_timestamp_usage (ts : json) (st : ParseState) :
  same_usage (track_timestamp ts st) st.
Proof.
  unfold track_timestamp, same_usage. destruct (truthy ts); simpl; auto.
Qed.

Lemma process_user_usage (data : json) (st st' : ParseState) :
  process_user data st = Ok st' -> same_usage st' st.
Proof.
  unfold process_user. intros H.
  invert_bind H. invert_bind H. invert_bind H. destruct a1 as [texts fm].
  invert_bind H. destruct a1 as [wf story].
  injection H as <-. unfold same_usage. simpl. auto.
Qed.

(** What an assistant record does to the usage. *)
Lemma process_assistant_usage (data : json) (st st' : ParseState) :
  process_assistant data st = Ok st' ->
  exists model entry,
    hashable model = true
    /\ t_messages entry
       = (t_messages (tokens_or_zero (find_model model (tokens_by_model st)))
          + 1)%Z
    /\ tokens_by_model st' = set_model model entry (tokens_by_model st)
    /\ msg_count st' = (msg_count st + 1)%Z
    /\ first_user_msg st' = first_user_msg st.
Proof.
  unfold process_assistant. intros H.
  invert_bind H. invert_bind H. invert_bind H. rename a1 into model.
  destruct (hashable model) eqn:Hh; simpl in H; [| discriminate H].
  invert_bind H. rename a1 into entry, Ha2 into Hentry.
  invert_bind H. invert_bind H. injection H as <-. simpl.
  exists model, entry. repeat split; auto.
  unfold add_usage_block in Hentry.
  invert_bind Hentry. invert_bind Hentry. invert_bind Hentry.
  invert_bind Hentry.
  destruct (truthy _).
  - invert_bind Hentry. invert_bind Hentry. injection Hentry as <-.
    reflexivity.
  - invert_bind Hentry. injection Hentry as <-. reflexivity.
Qed.

Lemma eq_str_assistant_not_user (kind : json) :
  eq_str kind "assistant" = true -> eq_str kind "user" = false.
Proof.
  destruct kind; simpl; try discriminate.
  intros H. apply String.eqb_eq in H. subst. reflexivity.
Qed.

Lemma process_record_assistant (data : json) (st : ParseState) :
  is_assistant data = true ->
  process_record data st
  = (ts <- get data "timestamp" JNull ;;
     process_assistant data (track_timestamp ts st)).
Proof.
  unfold is_assistant, process_record. destruct data; try reflexivity.
  simpl. intros H. rewrite H, (eq_str_assistant_not_user _ H). reflexivity.
Qed.

Lemma process_record_other (data : json) (st st' : ParseState) :
  is_assistant data = false ->
  process_record data st = Ok st' -> same_usage st' st.
Proof.
  unfold is_assistant. intros Hkind H.
  destruct (process_record_dict _ _ _ H) as [fields ->].
  apply process_record_inv in H. cbv zeta in H. simpl in Hkind.
  destruct H as [st2 [H1 H2]]. rewrite Hkind in H2. injection H2 as <-.
  destruct (eq_str _ "user").
  - apply process_user_usage in H1.
    pose proof (track_timestamp_usage
      (match assoc "timestamp" fields with Some v => v | None => JNull end) st)
      as H2.
    unfold same_usage in *. intuition congruence.
  - injection H1 as <-. apply track_timestamp_usage.
Qed.

Lemma process_record_usage (data : json) (st st' : ParseState) :
  process_record data st = Ok st' ->
  (is_assistant data = false /\ same_usage st' st)
  \/ (is_assistant data = true
      /\ exists model entry,
           hashable model = true
           /\ t_messages entry
              = (t_messages
                   (tokens_or_zero (find_model model (tokens_by_model st)))
                 + 1)%Z
           /\ tokens_by_model st' = set_model model entry (tokens_by_model st)
           /\ msg_count st' = (msg_count st + 1)%Z).
Proof.
  intros H. destruct (is_assistant data) eqn:Hkind.
  - right. split; [reflexivity |].
    rewrite (process_record_assistant _ _ Hkind) in H.
    invert_bind H. apply process_assistant_usage in H.
    destruct H as [model [entry [Hh [Hm [Ht [Hc _]]]]]].
    destruct (track_timestamp_usage a st) as [Et [Ec _]].
    exists model, entry. rewrite <- Et, <- Ec. auto.
  - left. split; [reflexivity |].
    apply (process_record_other _ _ _ Hkind H).
Qed.

(** *** Assignments to a dict *)

Lemma find_model_set (x m : json) (e : Tokens) (tbm : TokensByModel) :
  find_model x (set_model m e tbm)
  = if key_eqb m x then Some e else find_model x tbm.
Proof.
  induction tbm as [| [k t] rest IH]; simpl.
  - destruct (key_eqb m x); reflexivity.
  - destruct (key_eqb k m) eqn:Hkm; simpl.
    + rewrite (key_eqb_sym m x), (key_eqb_sym k x), (key_eqb_right x k m Hkm).
      destruct (key_eqb x m); reflexivity.
    + rewrite IH. destruct (key_eqb k x) eqn:Hkx; [| reflexivity].
      destruct (key_eqb m x) eqn:Hmx; [| reflexivity].
      rewrite key_eqb_sym in Hmx.
      rewrite (key_eqb_trans _ _ _ Hkx Hmx) in Hkm. discriminate.
Qed.

Lemma set_model_unique (m : json) (e : Tokens) (tbm : TokensByModel) :
  unique_keys tbm -> unique_keys (set_model m e tbm).
Proof.
  induction tbm as [| [k t] rest IH]; simpl.
  - auto.
  - intros [Hk Hrest]. destruct (key_eqb k m) eqn:Hkm; simpl.
    + auto.
    + split; [| auto]. rewrite find_model_set, key_eqb_sym, Hkm. exact Hk.
Qed.

Lemma set_model_hashable (m : json) (e : Tokens) (tbm : TokensByModel) :
  hashable m = true -> hashable_keys tbm -> hashable_keys (set_model m e tbm).
Proof.
  intros Hm. unfold hashable_keys.
  induction tbm as [| [k t] rest IH]; simpl; intros H.
  - constructor; [exact Hm | constructor].
  - inversion H as [| ? ? Hk Hrest]; subst.
    destruct (key_eqb k m); constructor; auto.
Qed.

Lemma fold_messages (tbm : TokensByModel) (acc : Z) :
  fold_left (fun acc item => (acc + t_messages (snd item))%Z) tbm acc
  = (acc + total_messages tbm)%Z.
Proof.
  unfold total_messages. revert acc.
  induction tbm as [| [k t] rest IH]; intros acc; simpl; [lia |].
  rewrite IH, (IH (t_messages t)). lia.
Qed.

Lemma total_messages_cons (k : json) (t : Tokens) (rest : TokensByModel) :
  total_messages ((k, t) :: rest) = (t_messages t + total_messages rest)%Z.
Proof. unfold total_messages at 1. simpl. apply fold_messages. Qed.

Lemma total_messages_set (m : json) (e : Tokens) (tbm : TokensByModel) :
  total_messages (set_model m e tbm)
  = (total_messages tbm
     - t_messages (tokens_or_zero (find_model m tbm)) + t_messages e)%Z.
Proof.
  induction tbm as [| [k t] rest IH]; simpl.
  - rewrite total_messages_cons. unfold total_messages. simpl. lia.
  - destruct (key_eqb k m); rewrite !total_messages_cons; simpl; [lia |].
    rewrite IH. lia.
Qed.

Lemma parse_records_invariant (rs : list json) :
  forall st st',
    parse_records rs st = Ok st' ->
    unique_keys (tokens_by_model st) ->
    hashable_keys (tokens_by_model st) ->
    total_messages (tokens_by_model st) = msg_count st ->
    (forall m t, find_model m (tokens_by_model st) = Some t ->
                 (1 <= t_messages t)%Z) ->
    unique_keys (tokens_by_model st')
    /\ hashable_keys (tokens_by_model st')
    /\ total_messages (tokens_by_model st') = msg_count st'
    /\ (forall m t, find_model m (tokens_by_model st') = Some t ->
                    (1 <= t_messages t)%Z)
    /\ msg_count st' = (msg_count st + len (filter is_assistant rs))%Z.
Proof.
  induction rs as [| data rest IH]; intros st st' H Hu Hh Hm Hpos.
  - simpl in H. injection H as <-. unfold len. simpl.
    repeat split; auto. lia.
  - simpl in H. invert_bind H. rename a into st1, Ha into H1.
    apply process_record_usage in H1.
    destruct H1 as [[Hkind [Et [Ec _]]]
                   | [Hkind [model [entry [Hmodel [He [Et Ec]]]]]]].
    + specialize (IH st1 st' H). rewrite Et, Ec in IH.
      specialize (IH Hu Hh Hm Hpos).
      simpl filter. rewrite Hkind. exact IH.
    + specialize (IH st1 st' H). rewrite Et, Ec in IH.
      assert (Hentry : (0 <= t_messages
                 (tokens_or_zero (find_model model (tokens_by_model st))))%Z).
      { destruct (find_model model (tokens_by_model st)) eqn:Hf; simpl.
        - specialize (Hpos _ _ Hf). lia.
        - lia. }
      destruct IH as [Hu' [Hh' [Hm' [Hpos' Hc']]]].
      * apply set_model_unique. exact Hu.
      * apply set_model_hashable; assumption.
      * rewrite total_messages_set. lia.
      * intros m t. rewrite find_model_set.
        destruct (key_eqb model m); [| apply Hpos].
        intros Heq. injection Heq as <-. lia.
      * repeat split; auto.
        simpl filter. rewrite Hkind. unfold len in *. simpl List.length.
        lia.
Qed.

(** X9: in the result of a parse no two keys of [tokens_by_model] are
    equal and every key is hashable, so each model has one entry and the
    sums over the dict (cost, token totals) count each model once. *)
Theorem parse_keys_unique (json_loads : string -> option json)
    (lines : list string) (result : ParseState) :
  parse_jsonl json_loads lines = Ok result ->
  unique_keys (tokens_by_model result)
  /\ hashable_keys (tokens_by_model result).
Proof.
  unfold parse_jsonl. rewrite parse_lines_records. intros H.
  destruct (parse_records_invariant _ _ _ H) as [Hu [Hh _]]; simpl; auto.
  - constructor.
  - discriminate.
Qed.

Lemma parse_keys_unique_witness :
  exists result,
    parse_jsonl (loads_only (two_records "claude-opus-4-6"))
                (map dumps (two_records "claude-opus-4-6")) = Ok result
    /\ unique_keys (tokens_by_model result)
    /\ hashable_keys (tokens_by_model result).
Proof.
  assert (H : exists result,
             parse_jsonl (loads_only (two_records "claude-opus-4-6"))
                         (map dumps (two_records "claude-opus-4-6"))
             = Ok result)
    by (eexists; vm_compute; reflexivity).
  destruct H as [result H]. exists result. split; [exact H |].
  exact (parse_keys_unique _ _ _ H).
Defined.

(** X10: the message count of a parse is the number of records of type
    "assistant" in the log, it is also the sum of the ["messages"]
    counters over the models, and every model that has an entry has at
    least one message. *)
Theorem msg_count_counts_assistant_records
    (json_loads : string -> option json) (lines : list string)
    (result : ParseState) :
  parse_jsonl json_loads lines = Ok result ->
  msg_count result = len (filter is_assistant (records json_loads lines))
  /\ total_messages (tokens_by_model result) = msg_count result
  /\ (forall model tokens,
         find_model model (tokens_by_model result) = Some tokens ->
         (1 <= t_messages tokens)%Z).
Proof.
  unfold parse_jsonl. rewrite parse_lines_records. intros H.
  destruct (parse_records_invariant _ _ _ H) as [_ [_ [Hm [Hpos Hc]]]];
    simpl; auto.
  - constructor.
  - discriminate.
Qed.

Lemma msg_count_counts_assistant_records_witness :
  exists result,
    parse_jsonl (loads_only two_workflows_log) (map dumps two_workflows_log)
    = Ok result
    /\ msg_count result
       = len (filter is_assistant
                (records (loads_only two_workflows_log)
                         (map dumps two_workflows_log)))
    /\ total_messages (tokens_by_model result) = msg_count result.
Proof.
  assert (H : exists result,
             parse_jsonl (loads_only two_workflows_log)
                         (map dumps two_workflows_log) = Ok result)
    by (eexists; vm_compute; reflexivity).
  destruct H as [result H]. exists result. split; [exact H |].
  destruct (msg_count_counts_assistant_records _ _ _ H) as [H1 [H2 _]].
  split; assumption.
Defined.

Lemma process_assistant_same_usage (data : json) (sA sA' sB : ParseState) :
  process_assistant data sA = Ok sA' ->
  same_usage sA sB ->
  exists sB', process_assistant data sB = Ok sB' /\ same_usage sA' sB'.
Proof.
  intros H [Et [Ec Ek]]. unfold process_assistant in *.
  rewrite <- Et, <- Ec, <- Ek.
  invert_bind H. rewrite Ha. cbn [bind].
  invert_bind H. rewrite Ha0. cbn [bind].
  invert_bind H. rewrite Ha1. cbn [bind].
  destruct (negb (hashable a1)); [discriminate H |].
  invert_bind H. rewrite Ha2. cbn [bind].
  invert_bind H. rewrite Ha3. cbn [bind].
  invert_bind H. rewrite Ha4. cbn [bind].
  injection H as <-. eexists. split; [reflexivity |].
  unfold same_usage. simpl. auto.
Qed.

Lemma same_usage_trans (a b c : ParseState) :
  same_usage a b -> same_usage b c -> same_usage a c.
Proof. unfold same_usage. intuition congruence. Qed.

Lemma same_usage_sym (a b : ParseState) : same_usage a b -> same_usage b a.
Proof. unfold same_usage. intuition congruence. Qed.

Lemma parse_records_assistant_only (rs : list json) :
  forall sA sB st,
    parse_records rs sA = Ok st ->
    same_usage sA sB ->
    exists st2,
      parse_records (filter is_assistant rs) sB = Ok st2 /\ same_usage st st2.
Proof.
  induction rs as [| data rest IH]; intros sA sB st H Hsame.
  - simpl in H. injection H as <-. exists sB. split; [reflexivity | exact Hsame].
  - simpl in H. invert_bind H. rename a into s1, Ha into H1.
    simpl filter. destruct (is_assistant data) eqn:Hkind.
    + rewrite (process_record_assistant _ _ Hkind) in H1.
      invert_bind H1. rename a into ts, Ha into Hts.
      destruct (process_assistant_same_usage data _ s1 (track_timestamp ts sB) H1)
        as [s1' [H1' Hsame']].
      { apply (same_usage_trans _ sA); [apply track_timestamp_usage |].
        apply (same_usage_trans _ sB); [exact Hsame |].
        apply same_usage_sym. apply track_timestamp_usage. }
      simpl parse_records.
      rewrite (process_record_assistant _ _ Hkind), Hts. cbn [bind].
      rewrite H1'. cbn [bind]. apply (IH s1 s1' st H Hsame').
    + apply (IH s1 sB st H).
      apply (same_usage_trans _ sA); [| exact Hsame].
      apply (process_record_other _ _ _ Hkind H1).
Qed.

Lemma records_assistant_lines (json_loads : string -> option json)
    (lines : list string) :
  records json_loads (assistant_lines json_loads lines)
  = filter is_assistant (records json_loads lines).
Proof.
  induction lines as [| line rest IH]; [reflexivity |].
  rewrite (records_cons json_loads line rest).
  change (assistant_lines json_loads (line :: rest))
    with (if match decode_line json_loads line with
             | Some data => is_assistant data
             | None => false
             end
          then line :: assistant_lines json_loads rest
          else assistant_lines json_loads rest).
  destruct (decode_line json_loads line) as [data |] eqn:Hline.
  - simpl app. simpl filter. destruct (is_assistant data).
    + rewrite records_cons, Hline. simpl app. rewrite IH. reflexivity.
    + exact IH.
  - exact IH.
Qed.

(** X11: the usage a parse reports (counters per model, message count,
    task calls) is decided by the records of type "assistant" alone:
    parsing the log with every other line removed returns too, with the
    same usage.  User records, records of other types, blank lines and
    undecodable lines add no token and no cost. *)
Theorem usage_from_assistant_records (json_loads : string -> option json)
    (lines : list string) (result : ParseState) :
  parse_jsonl json_loads lines = Ok result ->
  exists result',
    parse_jsonl json_loads (assistant_lines json_loads lines) = Ok result'
    /\ same_usage result result'
    /\ calculate_cost (tokens_by_model result')
       = calculate_cost (tokens_by_model result).
Proof.
  unfold parse_jsonl. rewrite !parse_lines_records, records_assistant_lines.
  intros H.
  destruct (parse_records_assistant_only _ initial_state initial_state _ H)
    as [result' [H' Hsame]].
  { unfold same_usage. auto. }
  exists result'. split; [exact H' |]. split; [exact Hsame |].
  destruct Hsame as [-> _]. reflexivity.
Qed.

Lemma usage_from_assistant_records_witness :
  exists result result',
    parse_jsonl (loads_only two_workflows_log) (map dumps two_workflows_log)
    = Ok result
    /\ parse_jsonl (loads_only two_workflows_log)
         (assistant_lines (loads_only two_workflows_log)
                          (map dumps two_workflows_log)) = Ok result'
    /\ same_usage result result'.
Proof.
  assert (H : exists result,
             parse_jsonl (loads_only two_workflows_log)
                         (map dumps two_workflows_log) = Ok result)
    by (eexists; vm_compute; reflexivity).
  destruct H as [result H].
  destruct (usage_from_assistant_records _ _ _ H) as [result' [H' [Hsame _]]].
  exists result, result'. auto.
Defined.

(** ** SessionAggregator: accounting *)

Lemma parse_jsonl_invariant (json_loads : string -> option json)
    (lines : list string) (result : ParseState) :
  parse_jsonl json_loads lines = Ok result ->
  unique_keys (tokens_by_model result)
  /\ total_messages (tokens_by_model result) = msg_count result.
Proof.
  unfold parse_jsonl. rewrite parse_lines_records. intros H.
  destruct (parse_records_invariant _ _ _ H) as [Hu [_ [Hm _]]]; simpl; auto.
  - constructor.
  - discriminate.
Qed.

Lemma total_messages_measure (tbm : TokensByModel) :
  inject_Z (total_messages tbm)
  == measure (fun _ t => inject_Z (t_messages t)) tbm.
Proof.
  induction tbm as [| [k t] rest IH].
  - reflexivity.
  - rewrite total_messages_cons, inject_Z_plus. simpl. rewrite IH. reflexivity.
Qed.

Lemma total_messages_merge (a b : TokensByModel) :
  unique_keys a -> unique_keys b ->
  total_messages (merge_tokens a b)
  = (total_messages a + total_messages b)%Z.
Proof.
  intros Ha Hb. apply inject_Z_injective.
  rewrite inject_Z_plus, !total_messages_measure.
  apply measure_merge; auto.
  - intros m x y. simpl. rewrite inject_Z_plus. reflexivity.
  - intros. reflexivity.
  - intros. reflexivity.
Qed.

Lemma subagent_msgs_app (results : list SubAgentResult) (s : SubAgentResult) :
  subagent_msgs (results ++ [s])%list
  = (subagent_msgs results + sa_msg_count s)%Z.
Proof. unfold subagent_msgs. rewrite fold_left_app. reflexivity. Qed.

Lemma merge_subagents_accounts (json_loads : string -> option json)
    (files : list (string * list string)) :
  forall results tokens results' tokens',
    merge_subagents json_loads files results tokens = Ok (results', tokens') ->
    unique_keys tokens ->
    unique_keys tokens'
    /\ (total_messages tokens' + subagent_msgs results
        = total_messages tokens + subagent_msgs results')%Z
    /\ map sa_file results'
       = (map sa_file results
          ++ map fst (filter (fun file => negb (compact_log file)) files))%list
    /\ (Forall (fun s => sa_cost s
                         = B64.calculate_cost (sa_tokens_by_model s)) results ->
        Forall (fun s => sa_cost s
                         = B64.calculate_cost (sa_tokens_by_model s)) results').
Proof.
  induction files as [| [name lines] rest IH];
    intros results tokens results' tokens' H Hu.
  - simpl in H. injection H as <- <-. simpl. rewrite app_nil_r.
    repeat split; auto.
  - simpl in H. unfold compact_log at 1. simpl filter. simpl fst.
    destruct (contains "compact" name) eqn:Hname; simpl negb; cbv iota.
    + apply (IH _ _ _ _ H Hu).
    + invert_bind H. rename a into sa, Ha into Hsa.
      destruct (parse_jsonl_invariant _ _ _ Hsa) as [Hsu Hsm].
      apply IH in H; [| apply merge_tokens_unique; assumption].
      destruct H as [Hu' [Hmsgs [Hfiles Hcosts]]].
      split; [exact Hu' |].
      rewrite subagent_msgs_app in Hmsgs. simpl sa_msg_count in Hmsgs.
      rewrite map_app in Hfiles. simpl map in Hfiles.
      rewrite <- app_assoc in Hfiles. simpl app in Hfiles.
      rewrite (total_messages_merge _ _ Hu Hsu) in Hmsgs.
      split; [lia |]. split; [exact Hfiles |].
      intros Hall. apply Hcosts. apply Forall_app. split; [exact Hall |].
      constructor; [reflexivity | constructor].
Qed.

Lemma merge_subagents_skips_compact (json_loads : string -> option json)
    (files : list (string * list string)) :
  forall results tokens,
    merge_subagents json_loads files results tokens
    = merge_subagents json_loads
        (filter (fun file => negb (compact_log file)) files) results tokens.
Proof.
  induction files as [| [name lines] rest IH]; intros results tokens;
    [reflexivity |].
  simpl. unfold compact_log at 1. simpl fst.
  destruct (contains "compact" name) eqn:Hname; simpl negb; cbv iota.
  - apply IH.
  - simpl. rewrite Hname.
    destruct (parse_jsonl json_loads lines); simpl; [apply IH | reflexivity].
Qed.

(** X12: the accounts of a session balance.  In a result of
    [analyze_session] the ["messages"] counters of the merged dict sum to
    the parent's messages plus the sub-agents' messages, the sub-agents
    listed are the logs whose file name does not contain "compact", in the
    order given, the merged dict has no duplicate key, and every cost
    figure is the price [calculate_cost] gives the dict it stands beside:
    the parent's, each sub-agent's, and the merged one. *)
Theorem session_accounts_balance (json_loads : string -> option json)
    (fromisoformat : string -> bool) (id : string)
    (parent_lines : list string)
    (subagent_files : list (string * list string)) (result : SessionResult) :
  analyze_session json_loads fromisoformat id parent_lines subagent_files
  = Ok result ->
  total_messages (all_tokens result)
  = (msg_count (parent result) + subagent_msgs (subagents result))%Z
  /\ map sa_file (subagents result)
     = map fst (filter (fun file => negb (compact_log file)) subagent_files)
  /\ unique_keys (all_tokens result)
  /\ parent_cost result
     = B64.calculate_cost (tokens_by_model (parent result))
  /\ total_cost result = B64.calculate_cost (all_tokens result)
  /\ Forall (fun s => sa_cost s = B64.calculate_cost (sa_tokens_by_model s))
            (subagents result).
Proof.
  unfold analyze_session. intros H.
  invert_bind H. rename a into p, Ha into Hp.
  invert_bind H. destruct a as [results tokens]. rename Ha into Hmerge.
  invert_bind H. injection H as <-. simpl.
  destruct (parse_jsonl_invariant _ _ _ Hp) as [Hu Hm].
  destruct (merge_subagents_accounts _ _ _ _ _ _ Hmerge Hu)
    as [Hu' [Hmsgs [Hfiles Hcosts]]].
  unfold subagent_msgs at 1 in Hmsgs.
  simpl in Hmsgs, Hfiles.
  split; [lia |]. split; [exact Hfiles |]. split; [exact Hu' |].
  split; [reflexivity |]. split; [reflexivity |].
  apply Hcosts. constructor.
Qed.

Lemma session_accounts_balance_witness :
  exists result,
    analyze_session (loads_only (two_records "claude-opus-4-6"))
      (fun _ => true) "s"
      (map dumps (two_records "claude-opus-4-6"))
      [("agent-a.jsonl", map dumps (two_records "claude-opus-4-6"));
       ("agent-compact-b.jsonl", ["x"])] = Ok result
    /\ total_messages (all_tokens result)
       = (msg_count (parent result) + subagent_msgs (subagents result))%Z
    /\ map sa_file (subagents result) = ["agent-a.jsonl"].
Proof.
  assert (H : exists result,
    analyze_session (loads_only (two_records "claude-opus-4-6"))
      (fun _ => true) "s"
      (map dumps (two_records "claude-opus-4-6"))
      [("agent-a.jsonl", map dumps (two_records "claude-opus-4-6"));
       ("agent-compact-b.jsonl", ["x"])] = Ok result)
    by (eexists; vm_compute; reflexivity).
  destruct H as [result H]. exists result. split; [exact H |].
  destruct (session_accounts_balance _ _ _ _ _ _ H) as [H1 [H2 _]].
  split; [exact H1 | exact H2].
Defined.

(** X13: logs of compaction agents do not reach the analysis at all:
    [analyze_session] gives the same outcome, result or exception, as on
    the sub-agent directory without the files whose name contains
    "compact", so a compaction log that would not even parse cannot make
    a session unreadable. *)
Theorem compact_logs_ignored (json_loads : string -> option json)
    (fromisoformat : string -> bool) (id : string)
    (parent_lines : list string)
    (subagent_files : list (string * list string)) :
  analyze_session json_loads fromisoformat id parent_lines subagent_files
  = analyze_session json_loads fromisoformat id parent_lines
      (filter (fun file => negb (compact_log file)) subagent_files).
Proof.
  unfold analyze_session.
  destruct (parse_jsonl json_loads parent_lines) as [p | e]; simpl;
    [| reflexivity].
  rewrite merge_subagents_skips_compact. reflexivity.
Qed.

(** ** Workflow detection *)

Lemma strip_prefix_append (p r : string) : strip_prefix p (p ++ r) = Some r.
Proof.
  induction p as [| c p IH]; simpl; [destruct r; reflexivity |].
  rewrite Ascii.eqb_refl. exact IH.
Qed.

Lemma strip_prefix_inv (p s r : string) :
  strip_prefix p s = Some r -> s = p ++ r.
Proof.
  revert s. induction p as [| c p IH]; intros s H.
  - destruct s; simpl in H; injection H as <-; reflexivity.
  - destruct s as [| b s]; simpl in H; [discriminate |].
    destruct (Ascii.eqb c b) eqn:Hc; [| discriminate].
    apply Ascii.eqb_eq in Hc. subst b. simpl. f_equal. apply IH. exact H.
Qed.

Lemma strip_prefix_prefix (p s : string) :
  prefix p s = false -> strip_prefix p s = None.
Proof.
  revert s. induction p as [| c p IH]; intros s.
  - destruct s; simpl; intros H; discriminate H.
  - destruct s as [| b s]; simpl; [reflexivity |].
    destruct (ascii_dec c b) as [-> | Hne].
    + rewrite Ascii.eqb_refl. apply IH.
    + intros _. apply Ascii.eqb_neq in Hne. rewrite Hne. reflexivity.
Qed.

Lemma prefix_append (p r : string) : prefix p (p ++ r) = true.
Proof.
  induction p as [| c p IH]; simpl; [destruct r; reflexivity |].
  destruct (ascii_dec c c); [exact IH | congruence].
Qed.

Lemma contains_prefix (needle s : string) :
  prefix needle s = true -> contains needle s = true.
Proof.
  intros H. destruct s.
  - destruct needle; [reflexivity | discriminate H].
  - cbn [contains]. rewrite H. reflexivity.
Qed.

Lemma contains_append (needle before after : string) :
  contains needle (before ++ needle ++ after) = true.
Proof.
  induction before as [| c before IH].
  - apply (contains_prefix needle (needle ++ after)). apply prefix_append.
  - simpl. rewrite IH. apply orb_true_r.
Qed.

Lemma span_name_inv (s run rest : string) :
  span_name s = (run, rest) ->
  s = run ++ rest /\ every is_name_char run = true.
Proof.
  revert run rest. induction s as [| c s IH]; intros run rest H; simpl in H.
  - injection H as <- <-. auto.
  - destruct (is_name_char c) eqn:Hc.
    + destruct (span_name s) as [run' rest'] eqn:Hs.
      injection H as <- <-. destruct (IH _ _ eq_refl) as [-> Hrun].
      simpl. rewrite Hc, Hrun. auto.
    + injection H as <- <-. auto.
Qed.

Lemma span_name_append (name rest : string) :
  every is_name_char name = true ->
  match rest with String c _ => is_name_char c = false | EmptyString => True end ->
  span_name (name ++ rest) = (name, rest).
Proof.
  intros Hname Hrest. induction name as [| c name IH]; simpl.
  - destruct rest as [| c rest]; [reflexivity |]. simpl. rewrite Hrest.
    reflexivity.
  - simpl in Hname. apply andb_true_iff in Hname. destruct Hname as [Hc Hname].
    rewrite Hc, (IH Hname). reflexivity.
Qed.

Lemma match_command_name_inv (s name after : string) :
  match_command_name s = Some (name, after) ->
  s = command_marker name ++ after
  /\ name <> ""
  /\ every is_name_char name = true.
Proof.
  unfold match_command_name. intros H.
  destruct (strip_prefix "<command-name>/" s) as [after_open |] eqn:Hopen;
    [| discriminate].
  apply strip_prefix_inv in Hopen.
  destruct (span_name after_open) as [run rest] eqn:Hspan.
  apply span_name_inv in Hspan. destruct Hspan as [-> Hrun].
  destruct run as [| c run]; [discriminate |].
  destruct (strip_prefix "</command-name>" rest) as [after' |] eqn:Hclose;
    [| discriminate].
  apply strip_prefix_inv in Hclose. injection H as <- <-.
  subst. split; [| split; [discriminate | exact Hrun]].
  unfold command_marker. rewrite !append_assoc. reflexivity.
Qed.

Lemma match_command_name_marker (name after : string) :
  name <> "" -> every is_name_char name = true ->
  match_command_name (command_marker name ++ after) = Some (name, after).
Proof.
  intros Hne Hname. unfold match_command_name, command_marker.
  rewrite !append_assoc.
  rewrite (strip_prefix_append "<command-name>/").
  rewrite (span_name_append name ("</command-name>" ++ after) Hname);
    [| reflexivity].
  destruct name; [congruence |].
  rewrite (strip_prefix_append "</command-name>"). reflexivity.
Qed.

Lemma search_command_name_inv (text name : string) :
  search_command_name text = Some name ->
  exists before after,
    text = before ++ command_marker name ++ after
    /\ name <> ""
    /\ every is_name_char name = true.
Proof.
  induction text as [| c text IH]; intros H.
  - simpl in H. discriminate.
  - cbn [search_command_name] in H.
    destruct (match_command_name (String c text)) as [[name' after] |] eqn:Hm.
    + injection H as ->. apply match_command_name_inv in Hm.
      destruct Hm as [Htext Hname]. exists "", after. auto.
    + destruct (IH H) as [before [after [-> Hname]]].
      exists (String c before), after. auto.
Qed.

Lemma search_command_name_skip (before s : string) :
  lacks "<" before = true ->
  search_command_name (before ++ s) = search_command_name s.
Proof.
  induction before as [| c before IH]; intros H; [reflexivity |].
  simpl in H. apply andb_true_iff in H. destruct H as [Hc H].
  change (String c before ++ s) with (String c (before ++ s)).
  cbn [search_command_name].
  assert (Hm : match_command_name (String c (before ++ s)) = None).
  { unfold match_command_name. cbn [strip_prefix].
    apply negb_true_iff in Hc. rewrite Ascii.eqb_sym, Hc. reflexivity. }
  rewrite Hm. apply IH. exact H.
Qed.

Lemma search_command_args_skip (before s : string) :
  lacks "<" before = true ->
  search_command_args (before ++ s) = search_command_args s.
Proof.
  induction before as [| c before IH]; intros H; [reflexivity |].
  simpl in H. apply andb_true_iff in H. destruct H as [Hc H].
  change (String c before ++ s) with (String c (before ++ s)).
  cbn [search_command_args strip_prefix].
  apply negb_true_iff in Hc. rewrite Ascii.eqb_sym, Hc. apply IH. exact H.
Qed.

Lemma search_command_args_none (text : string) :
  lacks "<" text = true -> search_command_args text = None.
Proof.
  intros H. rewrite <- (append_nil_r text).
  rewrite (search_command_args_skip text "" H). reflexivity.
Qed.

Lemma until_close_args_append (args after : string) :
  lacks "<" args = true -> lacks newline args = true ->
  until_close_args (args ++ "</command-args>" ++ after) = Some args.
Proof.
  induction args as [| c args IH]; intros Hlt Hnl.
  - simpl append. unfold until_close_args.
    destruct after; reflexivity.
  - simpl in Hlt, Hnl. apply andb_true_iff in Hlt, Hnl.
    destruct Hlt as [Hc Hlt], Hnl as [Hn Hnl].
    change (String c args ++ "</command-args>" ++ after)
      with (String c (args ++ "</command-args>" ++ after)).
    cbn [until_close_args strip_prefix].
    apply negb_true_iff in Hc, Hn. rewrite Ascii.eqb_sym, Hc, Hn.
    rewrite (IH Hlt Hnl). reflexivity.
Qed.

Lemma search_command_args_marker (args after : string) :
  lacks "<" args = true -> lacks newline args = true ->
  search_command_args (args_marker args ++ after) = Some args.
Proof.
  intros Hlt Hnl. unfold args_marker. rewrite !append_assoc.
  change ("<command-args>" ++ args ++ "</command-args>" ++ after)
    with (String "<" ("command-args>" ++ args ++ "</command-args>" ++ after)).
  cbn [search_command_args].
  change (String "<" ("command-args>" ++ args ++ "</command-args>" ++ after))
    with ("<command-args>" ++ args ++ "</command-args>" ++ after).
  rewrite (strip_prefix_append "<command-args>").
  rewrite (until_close_args_append args after Hlt Hnl). reflexivity.
Qed.

Lemma name_char_not_lt (c : ascii) :
  is_name_char c = true -> negb (Ascii.eqb c "<") = true.
Proof.
  intros H. destruct (Ascii.eqb c "<") eqn:Hc; [| reflexivity].
  apply Ascii.eqb_eq in Hc. subst c. discriminate H.
Qed.

Lemma name_lacks_lt (name : string) :
  every is_name_char name = true -> lacks "<" name = true.
Proof.
  induction name as [| c name IH]; simpl; [reflexivity |].
  intros H. apply andb_true_iff in H. destruct H as [Hc H].
  rewrite (name_char_not_lt c Hc), (IH H). reflexivity.
Qed.

Lemma search_command_args_after_name (name s : string) :
  every is_name_char name = true ->
  search_command_args (command_marker name ++ s) = search_command_args s.
Proof.
  intros Hname. unfold command_marker. rewrite !append_assoc.
  transitivity (search_command_args (name ++ "</command-name>" ++ s));
    [reflexivity |].
  rewrite (search_command_args_skip name _ (name_lacks_lt name Hname)).
  reflexivity.
Qed.

(** X14: a message is read back from its markers.  When a text carries
    the marker of a command (a non-empty name of letters, digits, "_" and
    "-") and nothing before it opens a tag, the detected workflow is that
    name; the story is the stripped arguments of the first arguments
    marker on one line, and is empty when the text has no other tag. *)
Theorem detect_reads_markers (name before between args after : string) :
  name <> "" ->
  every is_name_char name = true ->
  lacks "<" before = true ->
  lacks "<" between = true ->
  lacks "<" args = true ->
  lacks newline args = true ->
  _detect_workflow_from_text
    (before ++ command_marker name ++ between ++ args_marker args ++ after)
  = (name, strip args)
  /\ _detect_workflow_from_text (before ++ command_marker name ++ between)
     = (name, "").
Proof.
  intros Hne Hname Hbefore Hbetween Hargs Hnl.
  unfold _detect_workflow_from_text.
  rewrite !(search_command_name_skip before _ Hbefore).
  assert (Hfound : forall rest,
             search_command_name (command_marker name ++ rest) = Some name).
  { intros rest.
    destruct (command_marker name ++ rest) as [| c text] eqn:Htext;
      [destruct name; discriminate Htext |].
    cbn [search_command_name]. rewrite <- Htext.
    rewrite (match_command_name_marker name rest Hne Hname). reflexivity. }
  rewrite !Hfound.
  rewrite !(search_command_args_skip before _ Hbefore).
  rewrite !(search_command_args_after_name name _ Hname).
  rewrite (search_command_args_skip between _ Hbetween).
  rewrite (search_command_args_marker args after Hargs Hnl).
  rewrite (search_command_args_none between Hbetween).
  split; reflexivity.
Qed.

Lemma detect_reads_markers_witness :
  _detect_workflow_from_text
    ("run " ++ command_marker "ecc-dev-story" ++ " with "
     ++ args_marker " 15-3 " ++ " now")
  = ("ecc-dev-story", "15-3").
Proof.
  apply (detect_reads_markers "ecc-dev-story" "run " " with " " 15-3 " " now");
    try reflexivity.
  discriminate.
Defined.

Lemma lacks_lstrip (c : ascii) (s : string) :
  lacks c s = true -> lacks c (lstrip s) = true.
Proof.
  induction s as [| a s IH]; simpl; [reflexivity |].
  intros H. destruct (is_space a); [| exact H].
  apply andb_true_iff in H. apply IH. apply H.
Qed.

Lemma lacks_rstrip (c : ascii) (s : string) :
  lacks c s = true -> lacks c (rstrip s) = true.
Proof.
  induction s as [| a s IH]; simpl; [reflexivity |].
  intros H. apply andb_true_iff in H. destruct H as [Ha H].
  specialize (IH H). destruct (rstrip s) as [| b t].
  - destruct (is_space a); simpl; [reflexivity |]. rewrite Ha. reflexivity.
  - cbn [lacks] in *. rewrite Ha, IH. reflexivity.
Qed.

Lemma rstrip_idempotent (s : string) : rstrip (rstrip s) = rstrip s.
Proof.
  induction s as [| a s IH]; [reflexivity |].
  cbn [rstrip]. destruct (rstrip s) as [| b t] eqn:Hs.
  - destruct (is_space a) eqn:Ha; [reflexivity |].
    cbn [rstrip]. rewrite Ha. reflexivity.
  - cbn [rstrip]. cbn [rstrip] in IH. rewrite IH. reflexivity.
Qed.

Lemma lstrip_head (s : string) :
  match lstrip s with
  | String c _ => is_space c = false
  | EmptyString => True
  end.
Proof.
  induction s as [| a s IH]; simpl; [exact I |].
  destruct (is_space a) eqn:Ha; [exact IH | exact Ha].
Qed.

Lemma strip_stripped (s : string) :
  lstrip (strip s) = strip s /\ rstrip (strip s) = strip s.
Proof.
  unfold strip. split; [| apply rstrip_idempotent].
  pose proof (lstrip_head s) as H.
  destruct (lstrip s) as [| c t]; [reflexivity |].
  cbn [rstrip]. destruct (rstrip t).
  - rewrite H. simpl. rewrite H. reflexivity.
  - simpl. rewrite H. reflexivity.
Qed.

Lemma until_close_args_inv (s args : string) :
  until_close_args s = Some args ->
  lacks newline args = true
  /\ exists after, s = args ++ "</command-args>" ++ after.
Proof.
  revert args. induction s as [| c s IH]; intros args H.
  - discriminate H.
  - cbn [until_close_args] in H.
    destruct (strip_prefix "</command-args>" (String c s)) as [after |] eqn:Hp.
    + injection H as <-. split; [reflexivity |].
      exists after. apply strip_prefix_inv in Hp. exact Hp.
    + destruct (Ascii.eqb c newline) eqn:Hc; [discriminate H |].
      destruct (until_close_args s) as [args' |]; [| discriminate H].
      injection H as <-. destruct (IH args' eq_refl) as [Hnl [after ->]].
      split.
      * simpl. rewrite Hc, Hnl. reflexivity.
      * exists after. reflexivity.
Qed.

Lemma search_command_args_inv (text args : string) :
  search_command_args text = Some args ->
  lacks newline args = true
  /\ exists before after, text = before ++ args_marker args ++ after.
Proof.
  induction text as [| c text IH]; intros H.
  - simpl in H. discriminate H.
  - cbn [search_command_args] in H.
    destruct (strip_prefix "<command-args>" (String c text))
      as [after_open |] eqn:Hopen.
    + destruct (until_close_args after_open) as [args' |] eqn:Hclose.
      * injection H as ->. apply strip_prefix_inv in Hopen.
        apply until_close_args_inv in Hclose.
        destruct Hclose as [Hnl [after ->]]. split; [exact Hnl |].
        exists "", after. rewrite Hopen. unfold args_marker.
        rewrite !append_assoc. reflexivity.
      * destruct (IH H) as [Hnl [before [after ->]]]. split; [exact Hnl |].
        exists (String c before), after. reflexivity.
    + destruct (IH H) as [Hnl [before [after ->]]]. split; [exact Hnl |].
      exists (String c before), after. reflexivity.
Qed.

Lemma search_command_name_absent (text : string) :
  contains "<command-name>/" text = false -> search_command_name text = None.
Proof.
  induction text as [| c text IH]; intros H; [reflexivity |].
  cbn [contains] in H. apply orb_false_iff in H. destruct H as [Hp H].
  cbn [search_command_name]. unfold match_command_name.
  rewrite (strip_prefix_prefix _ _ Hp). apply IH. exact H.
Qed.

(** X15: what a detection means.  A workflow name is reported only when
    its complete marker occurs in the text, and it is then a non-empty run
    of letters, digits, "_" and "-"; a story is reported only together
    with a workflow, it is the stripped content of an arguments marker
    that occurs in the text, and it holds no newline; a text without the
    opening of a name marker gives the empty pair. *)
Theorem detect_sound (text : string) :
  let '(workflow, story) := _detect_workflow_from_text text in
  (workflow = "" -> story = "")
  /\ (workflow <> "" ->
      every is_name_char workflow = true
      /\ contains (command_marker workflow) text = true)
  /\ (story <> "" ->
      exists args, story = strip args
                   /\ contains (args_marker args) text = true)
  /\ lacks newline story = true
  /\ lstrip story = story /\ rstrip story = story
  /\ (contains "<command-name>/" text = false -> workflow = "").
Proof.
  unfold _detect_workflow_from_text.
  destruct (search_command_name text) as [name |] eqn:Hname.
  - apply search_command_name_inv in Hname.
    destruct Hname as [before [after [Htext [Hne Hchars]]]].
    split; [intros H; contradiction |].
    split; [intros _; split; [exact Hchars |];
            rewrite Htext; apply contains_append |].
    destruct (search_command_args text) as [args |] eqn:Hargs.
    + apply search_command_args_inv in Hargs.
      destruct Hargs as [Hnl [before' [after' Htext']]].
      split; [intros _; exists args; split; [reflexivity |];
              rewrite Htext'; apply contains_append |].
      split; [unfold strip; apply lacks_rstrip, lacks_lstrip; exact Hnl |].
      split; [apply strip_stripped |]. split; [apply strip_stripped |].
      intros Habsent. rewrite Htext in Habsent. unfold command_marker in Habsent.
      rewrite !append_assoc in Habsent.
      rewrite contains_append in Habsent. discriminate Habsent.
    + split; [intros H; contradiction H; reflexivity |].
      repeat split; try reflexivity.
      intros Habsent. rewrite Htext in Habsent. unfold command_marker in Habsent.
      rewrite !append_assoc in Habsent.
      rewrite contains_append in Habsent. discriminate Habsent.
  - split; [reflexivity |].
    split; [intros H; contradiction H; reflexivity |].
    split; [intros H; contradiction H; reflexivity |].
    repeat split; reflexivity.
Qed.

Lemma detect_sound_witness :
  contains (command_marker "ecc-e2e") ("go " ++ command_marker "ecc-e2e")
  = true.
Proof.
  pose proof (detect_sound ("go " ++ command_marker "ecc-e2e")) as H.
  assert (E : _detect_workflow_from_text ("go " ++ command_marker "ecc-e2e")
              = ("ecc-e2e", "")) by reflexivity.
  rewrite E in H. destruct H as [_ [H _]]. apply H. discriminate.
Defined.

(** Characters beyond ASCII are classified as Python classifies them.  The
    marker of /cafe written with e-acute (U+00E9, a letter) names that
    command, which is not tracked, so a marker of /ecc-e2e later in the
    same text is not read and no workflow is detected; and [strip] removes
    the no-break space (U+00A0) and the next-line character (U+0085). *)
Lemma latin1_characters_classified :
  let cafe := "caf" ++ String "233" "" in
  _detect_workflow_from_text (command_marker cafe ++ command_marker "ecc-e2e")
  = (cafe, "")
  /\ first_tracked
       (named_command (command_marker cafe ++ command_marker "ecc-e2e"))
     = ""
  /\ is_name_char "215" = false
  /\ strip (String "160" ("15-3" ++ String "133" "")) = "15-3".
Proof. repeat split; vm_compute; reflexivity. Qed.

(** ** UsageParser: labels and first message *)

Lemma tracked_In (name : string) :
  tracked name = true -> In name TRACKED_WORKFLOWS.
Proof.
  unfold tracked. intros H. apply existsb_exists in H.
  destruct H as [x [Hin Hx]]. apply String.eqb_eq in Hx. subst. exact Hin.
Qed.

Lemma detect_in_texts_tracked (texts : list json) (wf story : string) :
  detect_in_texts texts = Ok (Some (wf, story)) -> tracked wf = true.
Proof.
  induction texts as [| txt rest IH]; simpl; [discriminate |].
  destruct txt; try discriminate.
  destruct (_detect_workflow_from_text s) as [wf' st'].
  destruct (negb (wf' =? "") && tracked wf') eqn:Hhit; [| exact IH].
  intros H. injection H as <- <-. apply andb_true_iff in Hhit. apply Hhit.
Qed.

Lemma substring_length (n : nat) (s : string) :
  (String.length (substring 0 n s) <= n)%nat.
Proof.
  revert s. induction n as [| n IH]; intros s.
  - destruct s; simpl; lia.
  - destruct s as [| c s]; simpl; [lia |]. specialize (IH s). lia.
Qed.

Lemma slice150_short (v r : json) : slice150 v = Ok r -> short_message r.
Proof.
  destruct v; unfold slice150; try discriminate; intros H.
  - replace r with (JStr (substring 0 150 s)) by congruence.
    apply (substring_length 150 s).
  - replace r with (JArr (firstn 150 items)) by congruence.
    apply (firstn_le_length 150 items).
Qed.

Lemma collect_text_blocks_first (blocks : list json) :
  forall texts first_msg texts' first_msg',
    collect_text_blocks blocks texts first_msg = Ok (texts', first_msg') ->
    (short_message first_msg -> short_message first_msg')
    /\ (truthy first_msg = true -> first_msg' = first_msg).
Proof.
  induction blocks as [| block rest IH]; intros texts fm texts' fm' H.
  - simpl in H. injection H as <- <-. auto.
  - simpl in H. destruct block; try (apply IH in H; exact H).
    invert_bind H. destruct (eq_str a "text"); [| apply IH in H; exact H].
    invert_bind H. invert_bind H. apply IH in H. destruct H as [Hs Ht].
    destruct (truthy fm) eqn:Hfm.
    + injection Ha1 as <-. auto.
    + invert_bind Ha1. apply slice150_short in Ha1.
      split; [auto | discriminate].
Qed.

Lemma process_user_first (data : json) (st st' : ParseState) :
  process_user data st = Ok st' ->
  (short_message (first_user_msg st) -> short_message (first_user_msg st'))
  /\ (truthy (first_user_msg st) = true ->
      first_user_msg st' = first_user_msg st)
  /\ (label_ok st -> label_ok st')
  /\ (detected_workflow st <> "" ->
      detected_workflow st' = detected_workflow st
      /\ detected_story st' = detected_story st).
Proof.
  unfold process_user. intros H.
  invert_bind H. invert_bind H. invert_bind H. destruct a1 as [texts fm].
  rename Ha1 into Htexts.
  invert_bind H. destruct a1 as [wf story]. rename Ha1 into Hdetect.
  injection H as <-. simpl.
  assert (Hfirst :
    (short_message (first_user_msg st) -> short_message fm)
    /\ (truthy (first_user_msg st) = true -> fm = first_user_msg st)).
  { unfold user_texts in Htexts. destruct a0.
    1-4, 7: injection Htexts as <- <-; auto.
    - invert_bind Htexts. injection Htexts as <- <-.
      destruct (truthy (first_user_msg st)) eqn:Hfm.
      + injection Ha1 as <-. auto.
      + apply slice150_short in Ha1. split; [auto | discriminate].
    - apply collect_text_blocks_first in Htexts. exact Htexts. }
  destruct Hfirst as [Hs Ht].
  split; [exact Hs |]. split; [exact Ht |].
  unfold label_ok. simpl.
  destruct (detected_workflow st =? "") eqn:Hunset; simpl in Hdetect.
  - apply String.eqb_eq in Hunset.
    invert_bind Hdetect. destruct a1 as [[wf' story'] |].
    + injection Hdetect as <- <-.
      apply detect_in_texts_tracked, tracked_In in Ha1.
      split; [auto | intros Hne; contradiction].
    + injection Hdetect as <- <-. split; [auto | intros Hne; contradiction].
  - injection Hdetect as <- <-. auto.
Qed.

Lemma process_record_labels (data : json) (st st' : ParseState) :
  process_record data st = Ok st' ->
  (short_message (first_user_msg st) -> short_message (first_user_msg st'))
  /\ (truthy (first_user_msg st) = true ->
      first_user_msg st' = first_user_msg st)
  /\ (label_ok st -> label_ok st')
  /\ (detected_workflow st <> "" ->
      detected_workflow st' = detected_workflow st
      /\ detected_story st' = detected_story st).
Proof.
  intros H. destruct (process_record_dict _ _ _ H) as [fields ->].
  apply process_record_inv in H. cbv zeta in H.
  destruct H as [st2 [H1 H2]].
  set (ts := match assoc "timestamp" fields with
             | Some v => v | None => JNull end) in *.
  assert (Htrack : first_user_msg (track_timestamp ts st) = first_user_msg st
                   /\ detected_workflow (track_timestamp ts st)
                      = detected_workflow st
                   /\ detected_story (track_timestamp ts st)
                      = detected_story st).
  { unfold track_timestamp. destruct (truthy ts); simpl; auto. }
  destruct Htrack as [Ef [Ew Es]].
  assert (H12 :
    (short_message (first_user_msg st) -> short_message (first_user_msg st2))
    /\ (truthy (first_user_msg st) = true ->
        first_user_msg st2 = first_user_msg st)
    /\ (label_ok st -> label_ok st2)
    /\ (detected_workflow st <> "" ->
        detected_workflow st2 = detected_workflow st
        /\ detected_story st2 = detected_story st)).
  { destruct (eq_str _ "user").
    - apply process_user_first in H1. unfold label_ok in *.
      rewrite Ef, Ew, Es in H1. exact H1.
    - injection H1 as <-. unfold label_ok. rewrite Ef, Ew, Es. auto. }
  assert (H23 : first_user_msg st' = first_user_msg st2
                /\ detected_workflow st' = detected_workflow st2
                /\ detected_story st' = detected_story st2).
  { destruct (eq_str _ "assistant").
    - destruct (process_assistant_usage _ _ _ H2)
        as [_ [_ [_ [_ [_ [_ Hf]]]]]].
      destruct (process_assistant_fields _ _ _ H2) as [_ [_ [Hw Hs]]].
      auto.
    - injection H2 as <-. auto. }
  destruct H23 as [Ff [Fw Fs]]. unfold label_ok in *.
  rewrite Ff, Fw, Fs. exact H12.
Qed.

Lemma parse_records_labels (rs : list json) :
  forall st st',
    parse_records rs st = Ok st' ->
    (short_message (first_user_msg st) -> short_message (first_user_msg st'))
    /\ (truthy (first_user_msg st) = true ->
        first_user_msg st' = first_user_msg st)
    /\ (label_ok st -> label_ok st')
    /\ (detected_workflow st <> "" ->
        detected_workflow st' = detected_workflow st
        /\ detected_story st' = detected_story st).
Proof.
  induction rs as [| data rest IH]; intros st st' H.
  - simpl in H. injection H as <-. auto.
  - simpl in H. invert_bind H. rename a into s1.
    apply process_record_labels in Ha. apply IH in H.
    destruct Ha as [A1 [A2 [A3 A4]]], H as [B1 [B2 [B3 B4]]].
    split; [auto |]. split; [| split; [auto |]].
    + intros Ht. rewrite <- (A2 Ht). apply B2. rewrite (A2 Ht). exact Ht.
    + intros Hne. destruct (A4 Hne) as [Ew Es].
      rewrite <- Ew, <- Es. apply B4. rewrite Ew. exact Hne.
Qed.

(** X16: the workflow label of a parse is one of the six tracked
    workflows, or it is blank and the story is blank too; and once a
    label is set the rest of the log cannot change it or its story. *)
Theorem workflow_label_tracked (json_loads : string -> option json)
    (before after : list string) (st result : ParseState) :
  parse_jsonl json_loads before = Ok st ->
  parse_jsonl json_loads (before ++ after) = Ok result ->
  label_ok result
  /\ (detected_workflow st <> "" ->
      detected_workflow result = detected_workflow st
      /\ detected_story result = detected_story st).
Proof.
  unfold parse_jsonl. intros Hbefore H.
  rewrite parse_lines_app, Hbefore in H. cbn [bind] in H.
  rewrite parse_lines_records in Hbefore, H.
  apply parse_records_labels in Hbefore, H.
  destruct Hbefore as [_ [_ [Hl _]]], H as [_ [_ [Hl' Hkeep]]].
  split; [| exact Hkeep].
  apply Hl', Hl. left. split; reflexivity.
Qed.

Lemma workflow_label_tracked_witness :
  exists st result,
    parse_jsonl (loads_only two_workflows_log)
                (map dumps (firstn 2 two_workflows_log)) = Ok st
    /\ parse_jsonl (loads_only two_workflows_log)
                   (map dumps (firstn 2 two_workflows_log)
                    ++ map dumps (skipn 2 two_workflows_log))%list = Ok result
    /\ detected_workflow st = "ecc-dev-story"
    /\ detected_workflow result = detected_workflow st.
Proof.
  assert (H1 : exists st,
    parse_jsonl (loads_only two_workflows_log)
                (map dumps (firstn 2 two_workflows_log)) = Ok st
    /\ detected_workflow st = "ecc-dev-story")
    by (eexists; split; vm_compute; reflexivity).
  assert (H2 : exists result,
    parse_jsonl (loads_only two_workflows_log)
                (map dumps (firstn 2 two_workflows_log)
                 ++ map dumps (skipn 2 two_workflows_log))%list = Ok result)
    by (eexists; vm_compute; reflexivity).
  destruct H1 as [st [H1 Hw]], H2 as [result H2].
  exists st, result. split; [exact H1 |]. split; [exact H2 |].
  split; [exact Hw |].
  apply (workflow_label_tracked _ _ _ _ _ H1 H2).
  rewrite Hw. discriminate.
Defined.

(** X17: the first user message a parse reports is [None] or a text cut
    to at most 150 characters, and it is the first one: once a non-empty
    text is recorded, the rest of the log cannot replace it. *)
Theorem first_user_msg_short (json_loads : string -> option json)
    (before after : list string) (st result : ParseState) :
  parse_jsonl json_loads before = Ok st ->
  parse_jsonl json_loads (before ++ after) = Ok result ->
  short_message (first_user_msg result)
  /\ (truthy (first_user_msg st) = true ->
      first_user_msg result = first_user_msg st).
Proof.
  unfold parse_jsonl. intros Hbefore H.
  rewrite parse_lines_app, Hbefore in H. cbn [bind] in H.
  rewrite parse_lines_records in Hbefore, H.
  apply parse_records_labels in Hbefore, H.
  destruct Hbefore as [Hs _], H as [Hs' [Hkeep _]].
  split; [| exact Hkeep].
  apply Hs', Hs. exact I.
Qed.

Lemma first_user_msg_short_witness :
  exists st result,
    parse_jsonl (loads_only two_workflows_log)
                (map dumps (firstn 2 two_workflows_log)) = Ok st
    /\ parse_jsonl (loads_only two_workflows_log)
                   (map dumps (firstn 2 two_workflows_log)
                    ++ map dumps (skipn 2 two_workflows_log))%list = Ok result
    /\ short_message (first_user_msg result)
    /\ first_user_msg result = first_user_msg st.
Proof.
  assert (H1 : exists st,
    parse_jsonl (loads_only two_workflows_log)
                (map dumps (firstn 2 two_workflows_log)) = Ok st
    /\ truthy (first_user_msg st) = true)
    by (eexists; split; vm_compute; reflexivity).
  assert (H2 : exists result,
    parse_jsonl (loads_only two_workflows_log)
                (map dumps (firstn 2 two_workflows_log)
                 ++ map dumps (skipn 2 two_workflows_log))%list = Ok result)
    by (eexists; vm_compute; reflexivity).
  destruct H1 as [st [H1 Ht]], H2 as [result H2].
  exists st, result. split; [exact H1 |]. split; [exact H2 |].
  destruct (first_user_msg_short _ _ _ _ _ H1 H2) as [Hs Hkeep].
  split; [exact Hs | exact (Hkeep Ht)].
Defined.

(** ** StatisticsEngine: order and bounds *)

Lemma nth_sorted_mono (v : list Q) :
  Sorted Qle v ->
  forall i j, (i <= j)%nat -> (j < List.length v)%nat ->
              nth i v 0 <= nth j v 0.
Proof.
  induction v as [| x v IH]; intros Hs i j Hij Hj; [simpl in Hj; lia |].
  destruct i as [| i].
  - apply (sorted_head_least x v Hs). apply nth_In. exact Hj.
  - destruct j as [| j]; [lia |]. simpl.
    apply IH; [inversion Hs; assumption | lia | simpl in Hj; lia].
Qed.

Lemma at_index_mono (v : list Q) (i j : Z) :
  Sorted Qle v -> (0 <= i)%Z -> (i <= j)%Z -> (j < len v)%Z ->
  at_index v i <= at_index v j.
Proof.
  intros Hs Hi Hij Hj. unfold at_index, len in *.
  apply nth_sorted_mono; [exact Hs | lia | lia].
Qed.

Lemma at_index_In (v : list Q) (i : Z) :
  (0 <= i)%Z -> (i < len v)%Z -> In (at_index v i) v.
Proof.
  intros Hi Hlt. unfold at_index, len in *. apply nth_In. lia.
Qed.

Lemma insert_sorted_In (x y : Q) (xs : list Q) :
  In y (insert_sorted x xs) <-> y = x \/ In y xs.
Proof.
  induction xs as [| z xs IH]; simpl.
  - intuition.
  - destruct (Qle_bool x z); simpl; [intuition |].
    rewrite IH. intuition.
Qed.

Lemma sorted_In (y : Q) (xs : list Q) : In y (sorted xs) <-> In y xs.
Proof.
  induction xs as [| x xs IH]; simpl; [reflexivity |].
  rewrite insert_sorted_In, IH. intuition.
Qed.

(** The interpolated value lies between the two entries it is taken
    from. *)
Lemma interpolation_between (lo hi k : Q) (f : Z) :
  lo <= hi -> inject_Z f <= k -> k <= inject_Z f + 1 ->
  lo <= lo + (k - inject_Z f) * (hi - lo)
  /\ lo + (k - inject_Z f) * (hi - lo) <= hi.
Proof.
  intros Hlohi Hf Hk.
  assert (H1 : 0 <= (k - inject_Z f) * (hi - lo))
    by (apply Qmult_le_0_compat; lra).
  assert (H2 : 0 <= (1 - (k - inject_Z f)) * (hi - lo))
    by (apply Qmult_le_0_compat; lra).
  split; [lra |].
  assert (E : (1 - (k - inject_Z f)) * (hi - lo)
              == hi - (lo + (k - inject_Z f) * (hi - lo))) by ring.
  rewrite E in H2. lra.
Qed.

Lemma percentile_k_mono {A : Type} (data : list A) (p q : Q) :
  data <> [] -> p <= q -> percentile_k data p <= percentile_k data q.
Proof.
  intros Hne Hpq. unfold percentile_k.
  assert (Hlen : 0 <= inject_Z (len data - 1)).
  { change 0 with (inject_Z 0). rewrite <- Zle_Qle.
    pose proof (len_pos data Hne). lia. }
  apply Qmult_le_compat_r; [| exact Hlen].
  apply Qmult_le_compat_r; [exact Hpq |]. vm_compute. discriminate.
Qed.

Lemma percentile_mono (data : list Q) (p q : Q) :
  data <> [] -> Sorted Qle data -> 0 <= p -> p <= q -> q <= 100 ->
  exists x y,
    percentile data p = Ok x /\ percentile data q = Ok y /\ x <= y
    /\ at_index data 0 <= x /\ y <= at_index data (len data - 1).
Proof.
  intros Hne Hs Hp Hpq Hq.
  assert (Hp100 : p <= 100) by lra. assert (Hq0 : 0 <= q) by lra.
  rewrite (percentile_value data p Hne Hp Hp100).
  rewrite (percentile_value data q Hne Hq0 Hq).
  eexists. eexists. split; [reflexivity |]. split; [reflexivity |].
  destruct (percentile_index_facts data p Hne Hp Hp100) as [Fp [Rp Cp]].
  destruct (percentile_index_facts data q Hne Hq0 Hq) as [Fq [Rq Cq]].
  pose proof (percentile_k_mono data p q Hne Hpq) as Hk.
  set (kp := percentile_k data p) in *. set (kq := percentile_k data q) in *.
  set (fp := percentile_f data p) in *. set (fq := percentile_f data q) in *.
  set (cp := percentile_c data p) in *. set (cq := percentile_c data q) in *.
  assert (Hfloor : (fp <= fq)%Z).
  { rewrite Fp, Fq. apply Qfloor_resp_le. exact Hk. }
  assert (Bp : inject_Z fp <= kp /\ kp <= inject_Z fp + 1).
  { rewrite Fp. split; [apply Qfloor_le |].
    pose proof (Qlt_floor kp) as H. rewrite inject_Z_plus in H.
    apply Qlt_le_weak. exact H. }
  assert (Bq : inject_Z fq <= kq /\ kq <= inject_Z fq + 1).
  { rewrite Fq. split; [apply Qfloor_le |].
    pose proof (Qlt_floor kq) as H. rewrite inject_Z_plus in H.
    apply Qlt_le_weak. exact H. }
  assert (Mp : at_index data fp <= at_index data cp).
  { apply at_index_mono; auto; lia. }
  assert (Mq : at_index data fq <= at_index data cq).
  { apply at_index_mono; auto; lia. }
  destruct (interpolation_between _ _ kp fp Mp (proj1 Bp) (proj2 Bp))
    as [Lp Up].
  destruct (interpolation_between _ _ kq fq Mq (proj1 Bq) (proj2 Bq))
    as [Lq Uq].
  assert (H0 : at_index data 0 <= at_index data fp)
    by (apply at_index_mono; auto; lia).
  assert (Hlast : at_index data cq <= at_index data (len data - 1))
    by (apply at_index_mono; auto; lia).
  split; [| split; lra].
  destruct (Z.eq_dec fp fq) as [Heq | Hneq].
  - assert (Hc : cp = cq) by lia.
    rewrite <- Heq, <- Hc.
    assert (Hd : 0 <= (kq - kp) * (at_index data cp - at_index data fp))
      by (apply Qmult_le_0_compat; lra).
    assert (E : (kq - kp) * (at_index data cp - at_index data fp)
                == (at_index data fp
                    + (kq - inject_Z fp) * (at_index data cp - at_index data fp))
                   - (at_index data fp
                      + (kp - inject_Z fp)
                        * (at_index data cp - at_index data fp))) by ring.
    rewrite E in Hd. lra.
  - assert (Hstep : at_index data cp <= at_index data fq)
      by (apply at_index_mono; auto; lia).
    lra.
Qed.

(** X18: on sorted data the percentile grows with the rank: for
    [0 <= p <= q <= 100] both percentiles are returned, the one of rank
    [p] is at most the one of rank [q], and both lie between the smallest
    and the greatest value of the data. *)
Theorem percentile_monotone (xs : list Q) (p q lo hi : Q) :
  xs <> [] -> 0 <= p -> p <= q -> q <= 100 ->
  (forall z, In z xs -> lo <= z) ->
  (forall z, In z xs -> z <= hi) ->
  exists x y,
    percentile (sorted xs) p = Ok x
    /\ percentile (sorted xs) q = Ok y
    /\ lo <= x /\ x <= y /\ y <= hi.
Proof.
  intros Hne Hp Hpq Hq Hlo Hhi.
  pose proof (sorted_nonempty xs Hne) as Hsne.
  destruct (percentile_mono (sorted xs) p q Hsne (sorted_Sorted xs) Hp Hpq Hq)
    as [x [y [Hx [Hy [Hxy [Hmin Hmax]]]]]].
  exists x, y. split; [exact Hx |]. split; [exact Hy |].
  pose proof (len_pos (sorted xs) Hsne) as Hlen.
  assert (H0 : lo <= at_index (sorted xs) 0).
  { apply Hlo, sorted_In, at_index_In; lia. }
  assert (H1 : at_index (sorted xs) (len (sorted xs) - 1) <= hi).
  { apply Hhi, sorted_In, at_index_In; lia. }
  repeat split; lra.
Qed.

Lemma percentile_monotone_witness :
  exists x y,
    percentile (sorted [3; 1; 2]) 50 = Ok x
    /\ percentile (sorted [3; 1; 2]) 90 = Ok y
    /\ 1 <= x /\ x <= y /\ y <= 3.
Proof.
  apply (percentile_monotone [3; 1; 2] 50 90 1 3).
  - discriminate.
  - vm_compute. discriminate.
  - vm_compute. discriminate.
  - vm_compute. discriminate.
  - intros z [<- | [<- | [<- | []]]]; vm_compute; discriminate.
  - intros z [<- | [<- | [<- | []]]]; vm_compute; discriminate.
Defined.

(** ** StatisticsEngine: rounding keeps the order *)

Lemma round_half_even_bounds (x : Q) :
  (Qfloor x <= round_half_even x <= Qfloor x + 1)%Z.
Proof.
  unfold round_half_even.
  destruct (Qcompare (x - inject_Z (Qfloor x)) (1 # 2)); try lia.
  destruct (Z.even (Qfloor x)); lia.
Qed.

Lemma round_half_even_mono (x y : Q) :
  x <= y -> (round_half_even x <= round_half_even y)%Z.
Proof.
  intros Hxy. pose proof (Qfloor_resp_le x y Hxy) as Hfloor.
  destruct (Z.eq_dec (Qfloor x) (Qfloor y)) as [Heq | Hne].
  - unfold round_half_even. rewrite <- Heq.
    destruct (Qcompare_spec (x - inject_Z (Qfloor x)) (1 # 2)) as [Ex | Lx | Gx];
      destruct (Qcompare_spec (y - inject_Z (Qfloor x)) (1 # 2))
        as [Ey | Ly | Gy];
      try (destruct (Z.even (Qfloor x))); try lia; exfalso; lra.
  - pose proof (round_half_even_bounds x). pose proof (round_half_even_bounds y).
    lia.
Qed.

Lemma py_round_mono (x y : Q) (ndigits : nat) :
  x <= y -> py_round x ndigits <= py_round y ndigits.
Proof.
  intros Hxy. unfold py_round.
  set (scale := inject_Z (10 ^ Z.of_nat ndigits)).
  assert (Hscale : 0 < scale).
  { unfold scale. change 0 with (inject_Z 0). rewrite <- Zlt_Qlt.
    apply Z.pow_pos_nonneg; lia. }
  apply Qmult_le_compat_r; [| apply Qlt_le_weak, Qinv_lt_0_compat; exact Hscale].
  rewrite <- Zle_Qle. apply round_half_even_mono.
  apply Qmult_le_compat_r; [exact Hxy | apply Qlt_le_weak; exact Hscale].
Qed.

Lemma py_max_mono (a b c d : Q) :
  a <= c -> b <= d -> py_max a b <= py_max c d.
Proof.
  intros Hac Hbd.
  destruct (py_max_spec a b) as [_ [_ [-> | ->]]];
    destruct (py_max_spec c d) as [Hc [Hd _]]; lra.
Qed.

Lemma percentile_sorted_le (costs : list Q) (p q x y : Q) :
  costs <> [] -> 0 <= p -> p <= q -> q <= 100 ->
  percentile (sorted costs) p = Ok x ->
  percentile (sorted costs) q = Ok y -> x <= y.
Proof.
  intros Hne Hp Hpq Hq Hx Hy.
  destruct (percentile_mono (sorted costs) p q (sorted_nonempty costs Hne)
              (sorted_Sorted costs) Hp Hpq Hq)
    as [x' [y' [Hx' [Hy' [Hle _]]]]].
  rewrite Hx in Hx'. rewrite Hy in Hy'.
  injection Hx' as <-. injection Hy' as <-. exact Hle.
Qed.

Lemma thresholds_ordered (history : list HistoryRecord) (s : Stats) :
  generate_stats history = Ok (Some s) -> warning s <= high s.
Proof.
  intros H. apply generate_stats_inv in H. cbv zeta in H.
  destruct H as [q50 [q75 [q90 [q95 [wf [Hrows [_ [H75 [H90 [_ [_ ->]]]]]]]]]]].
  simpl.
  assert (A2 : q75 <= q90).
  { apply (percentile_sorted_le (costs_of (qualifying history)) 75 90);
      auto; try (vm_compute; discriminate).
    apply costs_of_nonempty. exact Hrows. }
  pose proof (raw_avg_last_20_positive history Hrows) as Havg.
  apply py_round_mono, py_max_mono; lra.
Qed.

(** X19: the figures of a snapshot are in order: P50 <= P75 <= P90 <=
    P95, the warning threshold is at least P75, the high threshold is at
    least P90, and the warning threshold never exceeds the high one (all
    as reported, after rounding to cents). *)
Theorem snapshot_figures_ordered (history : list HistoryRecord) (s : Stats) :
  generate_stats history = Ok (Some s) ->
  p50 s <= p75 s /\ p75 s <= p90 s /\ p90 s <= p95 s
  /\ p75 s <= warning s /\ p90 s <= high s /\ warning s <= high s.
Proof.
  intros H. apply generate_stats_inv in H. cbv zeta in H.
  destruct H as [q50 [q75 [q90 [q95 [wf [Hrows [H50 [H75 [H90 [H95 [_ ->]]]]]]]]]]].
  simpl.
  set (costs := costs_of (qualifying history)) in *.
  assert (Hne : costs <> []) by (apply costs_of_nonempty; exact Hrows).
  assert (A1 : q50 <= q75)
    by (apply (percentile_sorted_le costs 50 75); auto;
        vm_compute; discriminate).
  assert (A2 : q75 <= q90)
    by (apply (percentile_sorted_le costs 75 90); auto;
        vm_compute; discriminate).
  assert (A3 : q90 <= q95)
    by (apply (percentile_sorted_le costs 90 95); auto;
        vm_compute; discriminate).
  pose proof (raw_avg_last_20_positive history Hrows) as Havg.
  set (avg := raw_avg_last_20 (qualifying history)) in *.
  destruct (py_max_spec q75 (avg * (3 # 2))) as [W1 _].
  destruct (py_max_spec q90 (avg * 2)) as [W2 _].
  assert (W3 : py_max q75 (avg * (3 # 2)) <= py_max q90 (avg * 2))
    by (apply py_max_mono; lra).
  repeat split; apply py_round_mono; assumption.
Qed.

Lemma snapshot_figures_ordered_witness :
  exists s,
    generate_stats outlier_history = Ok (Some s)
    /\ p50 s <= p75 s /\ warning s <= high s.
Proof.
  destruct (generate_stats_returns outlier_history) as [[s |] [H Hnone]].
  - exists s. split; [exact H |].
    destruct (snapshot_figures_ordered outlier_history s H)
      as [H1 [_ [_ [_ [_ H6]]]]].
    split; assumption.
  - exfalso. assert (Hq : qualifying outlier_history = [])
      by (apply Hnone; reflexivity).
    vm_compute in Hq. discriminate Hq.
Defined.

(** X20: the status of a session against a snapshot falls in three
    bands cut by the two thresholds in order: HIGH from the high
    threshold up, WARN from the warning threshold up to the high one, OK
    below the warning threshold; so a dearer session never gets a milder
    status. *)
Theorem status_bands (history : list HistoryRecord) (s : Stats)
    (session_cost : Q) :
  generate_stats history = Ok (Some s) ->
  (cost_status session_cost s = HIGH <-> high s <= session_cost)
  /\ (cost_status session_cost s = WARN
      <-> warning s <= session_cost /\ session_cost < high s)
  /\ (cost_status session_cost s = OK <-> session_cost < warning s).
Proof.
  intros H.
  pose proof (thresholds_ordered history s H) as Hwh.
  unfold cost_status, ge.
  destruct (Qle_bool (high s) session_cost) eqn:Hh;
    destruct (Qle_bool (warning s) session_cost) eqn:Hw.
  all: try (apply Qle_bool_iff in Hh).
  all: try (apply Qle_bool_iff in Hw).
  all: try (assert (Hh' : session_cost < high s)
             by (apply Qnot_le_lt; intros Hc; apply Qle_bool_iff in Hc;
                 congruence)).
  all: try (assert (Hw' : session_cost < warning s)
             by (apply Qnot_le_lt; intros Hc; apply Qle_bool_iff in Hc;
                 congruence)).
  all: repeat split; intros; try discriminate; try reflexivity; try lra.
Qed.

Lemma status_bands_witness :
  exists s,
    generate_stats outlier_history = Ok (Some s)
    /\ cost_status (high s) s = HIGH.
Proof.
  destruct (generate_stats_returns outlier_history) as [[s |] [H Hnone]].
  - exists s. split; [exact H |].
    apply (proj1 (status_bands outlier_history s (high s) H)).
    apply Qle_refl.
  - exfalso. assert (Hq : qualifying outlier_history = [])
      by (apply Hnone; reflexivity).
    vm_compute in Hq. discriminate Hq.
Defined.

(** ** StatisticsEngine: trend and breakdowns *)

Lemma prev_10_slice_spec {A : Type} (xs : list A) :
  (20 <= List.length xs)%nat ->
  List.length (prev_10_slice xs) = 10%nat
  /\ forall x, In x (prev_10_slice xs) -> In x xs.
Proof.
  intros Hlen. unfold prev_10_slice. split.
  - rewrite length_firstn, length_skipn. lia.
  - intros x Hin.
    rewrite <- (firstn_skipn (List.length xs - 20) xs).
    apply in_or_app. right.
    rewrite <- (firstn_skipn (List.length xs - 10 - (List.length xs - 20))
                  (skipn (List.length xs - 20) xs)).
    apply in_or_app. left. exact Hin.
Qed.

(** X22: the trend is reported exactly when at least twenty rows
    qualify: with fewer it is absent, and with twenty or more the average
    of the ten rows before the last ten is positive, so the guard on the
    division never hides a trend. *)
Theorem trend_needs_twenty_rows (history : list HistoryRecord) (s : Stats) :
  generate_stats history = Ok (Some s) ->
  let costs := costs_of (qualifying history) in
  ((total_sessions s < 20)%Z -> trend_last10_vs_prev10_pct s = None)
  /\ ((20 <= total_sessions s)%Z ->
      0 < average (prev_10_slice costs)
      /\ trend_last10_vs_prev10_pct s
         = Some (py_round ((average (last_n 10 costs)
                            - average (prev_10_slice costs))
                           / average (prev_10_slice costs) * 100) 1)).
Proof.
  intros H costs. apply generate_stats_inv in H. cbv zeta in H.
  destruct H as [q50 [q75 [q90 [q95 [wf [Hrows [_ [_ [_ [_ [_ ->]]]]]]]]]]].
  simpl. fold costs. unfold len. rewrite sorted_length.
  unfold trend_of. split; intros Hn.
  - destruct (20 <=? List.length costs)%nat eqn:H20; [| reflexivity].
    apply Nat.leb_le in H20. lia.
  - assert (H20 : (20 <= List.length costs)%nat) by lia.
    destruct (prev_10_slice_spec costs H20) as [Hlen Hsub].
    assert (Hpos : 0 < average (prev_10_slice costs)).
    { apply average_positive.
      - intros E. rewrite E in Hlen. discriminate Hlen.
      - intros x Hin. apply Hsub in Hin. unfold costs, costs_of in Hin.
        apply in_map_iff in Hin. destruct Hin as [r [<- Hr]].
        apply (qualifying_positive history r Hr). }
    split; [exact Hpos |].
    apply Nat.leb_le in H20. rewrite H20.
    apply gt_iff in Hpos. rewrite Hpos. reflexivity.
Qed.

Lemma trend_needs_twenty_rows_witness :
  exists s,
    generate_stats outlier_history = Ok (Some s)
    /\ 0 < average (prev_10_slice (costs_of (qualifying outlier_history))).
Proof.
  destruct (generate_stats_returns outlier_history) as [[s |] [H Hnone]].
  - exists s. split; [exact H |].
    destruct (trend_needs_twenty_rows outlier_history s H) as [_ H2].
    apply H2.
    pose proof (generate_stats_inv _ _ H) as Hinv. cbv zeta in Hinv.
    destruct Hinv as [q50 [q75 [q90 [q95 [wf [_ [_ [_ [_ [_ [_ ->]]]]]]]]]]].
    vm_compute. discriminate.
  - exfalso. assert (Hq : qualifying outlier_history = [])
      by (apply Hnone; reflexivity).
    vm_compute in Hq. discriminate Hq.
Defined.

Lemma py_round_compat (x y : Q) (ndigits : nat) :
  x == y -> py_round x ndigits == py_round y ndigits.
Proof.
  intros H. apply Qle_antisym; apply py_round_mono; rewrite H; apply Qle_refl.
Qed.

Lemma sum_from (xs : list Q) (a : Q) : fold_left Qplus xs a == a + sum xs.
Proof.
  unfold sum. revert a. induction xs as [| x xs IH]; intros a; simpl.
  - ring.
  - rewrite (IH (a + x)), (IH (0 + x)). ring.
Qed.

Lemma sum_app (xs ys : list Q) : sum (xs ++ ys)%list == sum xs + sum ys.
Proof. unfold sum at 1. rewrite fold_left_app, sum_from. reflexivity. Qed.

Lemma dict_update_keys {V : Type} (k : string) (f : option V -> V)
    (d : list (string * V)) :
  (forall key, In key (map fst (dict_update k f d))
               <-> key = k \/ In key (map fst d))
  /\ (NoDup (map fst d) -> NoDup (map fst (dict_update k f d))).
Proof.
  induction d as [| [k' v] rest [IHin IHnd]]; simpl.
  - split; [intuition | intros _; constructor; [intros [] | constructor]].
  - destruct (k' =? k) eqn:Hk; simpl.
    + apply String.eqb_eq in Hk. subst k'. split; [intuition | auto].
    + split.
      * intros key. rewrite IHin. intuition.
      * intros Hnd. inversion Hnd as [| ? ? Hnotin Hnd']; subst.
        constructor; [| auto]. rewrite IHin. intros [-> | Hin].
        -- rewrite String.eqb_refl in Hk. discriminate.
        -- contradiction.
Qed.

Lemma model_table_update (k : string) (c : Q)
    (d : list (string * ModelBreakdown)) :
  model_count_sum (dict_update k (count_row c) d) = (model_count_sum d + 1)%Z
  /\ model_cost_sum (dict_update k (count_row c) d) == model_cost_sum d + c.
Proof.
  induction d as [| [k' v] rest [IHn IHc]]; simpl.
  - split; [reflexivity | ring].
  - destruct (k' =? k); simpl.
    + split; [lia | ring].
    + split; [rewrite IHn; lia | rewrite IHc; ring].
Qed.

Lemma group_by_model_from (rows : list HistoryRecord) :
  forall acc,
    let table :=
      fold_left
        (fun acc r => dict_update (h_models r) (count_row (h_total_cost r)) acc)
        rows acc in
    model_count_sum table = (model_count_sum acc + len rows)%Z
    /\ model_cost_sum table == model_cost_sum acc + sum (costs_of rows)
    /\ (NoDup (map fst acc) -> NoDup (map fst table)).
Proof.
  induction rows as [| r rest IH]; intros acc; cbv zeta.
  - simpl. unfold len, sum. simpl. split; [lia |]. split; [ring | auto].
  - cbn [fold_left].
    destruct (model_table_update (h_models r) (h_total_cost r) acc)
      as [Hn Hc].
    specialize (IH (dict_update (h_models r) (count_row (h_total_cost r)) acc)).
    cbv zeta in IH. destruct IH as [IHn [IHc IHnd]].
    assert (E : sum (costs_of (r :: rest))
                == h_total_cost r + sum (costs_of rest)).
    { change (costs_of (r :: rest))
        with ([h_total_cost r] ++ costs_of rest)%list.
      rewrite sum_app. unfold sum at 1. simpl. ring. }
    split; [| split].
    + rewrite IHn, Hn. unfold len. simpl List.length. lia.
    + rewrite IHc, Hc, E. ring.
    + intros Hnd. apply IHnd. apply dict_update_keys. exact Hnd.
Qed.

Lemma group_by_model_sums (rows : list HistoryRecord) :
  model_count_sum (group_by_model rows) = len rows
  /\ model_cost_sum (group_by_model rows) == sum (costs_of rows)
  /\ NoDup (map fst (group_by_model rows)).
Proof.
  destruct (group_by_model_from rows []) as [Hn [Hc Hnd]].
  change (fold_left
            (fun acc r =>
               dict_update (h_models r) (count_row (h_total_cost r)) acc)
            rows [])
    with (group_by_model rows) in *.
  simpl in Hn, Hc. split; [lia |]. split; [rewrite Hc; ring |].
  apply Hnd. constructor.
Qed.

Lemma workflow_table_update (k : string) (c : Q)
    (d : list (string * list Q)) :
  group_sizes
    (dict_update k
       (fun old => (match old with Some cs => cs | None => [] end ++ [c])%list)
       d)
  = (group_sizes d + 1)%Z.
Proof.
  induction d as [| [k' v] rest IH]; simpl.
  - reflexivity.
  - destruct (k' =? k); simpl.
    + unfold len. rewrite length_app. simpl. lia.
    + rewrite IH. lia.
Qed.

Lemma group_by_workflow_from (rows : list HistoryRecord) :
  forall acc,
    let groups :=
      fold_left
        (fun acc r =>
           let wf := strip (h_workflow r) in
           if wf =? "" then acc
           else dict_update wf
                  (fun old =>
                     (match old with Some cs => cs | None => [] end
                      ++ [h_total_cost r])%list)
                  acc)
        rows acc in
    group_sizes groups = (group_sizes acc + len (labelled rows))%Z
    /\ (NoDup (map fst acc) -> NoDup (map fst groups))
    /\ (forall k, In k (map fst groups) ->
                  In k (map fst acc)
                  \/ (k <> "" /\ exists r, In r rows /\ k = strip (h_workflow r))).
Proof.
  induction rows as [| r rest IH]; intros acc; cbv zeta.
  - simpl. unfold len. simpl. split; [lia |]. split; auto.
  - cbn [fold_left]. unfold labelled. cbn [filter]. fold (labelled rest).
    destruct (strip (h_workflow r) =? "") eqn:Hblank; cbn [negb].
    + specialize (IH acc). cbv zeta in IH. destruct IH as [IHn [IHnd IHk]].
      split; [exact IHn |]. split; [exact IHnd |].
      intros k Hk. destruct (IHk k Hk) as [Hacc | [Hne [r' [Hin ->]]]];
        [left; exact Hacc |].
      right. split; [exact Hne |]. exists r'. split; [right; exact Hin | reflexivity].
    + match goal with
      | |- context [fold_left ?step rest ?acc'] =>
          specialize (IH acc')
      end.
      cbv zeta in IH. destruct IH as [IHn [IHnd IHk]].
      split; [| split].
      * rewrite IHn, workflow_table_update. unfold len. simpl List.length. lia.
      * intros Hnd. apply IHnd. apply dict_update_keys. exact Hnd.
      * intros k Hk. destruct (IHk k Hk) as [Hacc | [Hne [r' [Hin ->]]]].
        -- apply dict_update_keys in Hacc. destruct Hacc as [-> | Hacc];
             [| left; exact Hacc].
           right. split.
           ++ intros E. rewrite E in Hblank. discriminate Hblank.
           ++ exists r. split; [left; reflexivity | reflexivity].
        -- right. split; [exact Hne |].
           exists r'. split; [right; exact Hin | reflexivity].
Qed.

Lemma workflow_stats_sums (groups : list (string * list Q)) :
  forall table,
    workflow_stats groups = Ok table ->
    workflow_count_sum table = group_sizes groups
    /\ (forall k, In k (map fst table) -> In k (map fst groups))
    /\ (NoDup (map fst groups) -> NoDup (map fst table)).
Proof.
  induction groups as [| [wf costs] rest IH]; intros table H.
  - simpl in H. injection H as <-. simpl. auto.
  - cbn [workflow_stats] in H.
    destruct (len (sorted costs) =? 0)%Z eqn:Hzero.
    + destruct (IH table H) as [Hn [Hk Hnd]].
      apply Z.eqb_eq in Hzero. unfold len in Hzero.
      rewrite sorted_length in Hzero.
      cbn [group_sizes]. unfold len at 1. split; [lia |].
      split.
      * intros k Hin. right. apply Hk. exact Hin.
      * intros Hd. inversion Hd; subst. auto.
    + invert_bind H. rename a into s, Ha into Hs.
      invert_bind H. rename a into others, Ha into Hothers.
      injection H as <-.
      destruct (IH others Hothers) as [Hn [Hk Hnd]].
      unfold workflow_stats_of in Hs.
      invert_bind Hs. invert_bind Hs. invert_bind Hs. injection Hs as <-.
      cbn [workflow_count_sum fold_right snd wf_count group_sizes map fst].
      fold (workflow_count_sum others).
      split; [| split].
      * rewrite Hn. unfold len. rewrite sorted_length. lia.
      * intros k [<- | Hin]; [left; reflexivity | right; apply Hk; exact Hin].
      * intros Hd. inversion Hd as [| ? ? Hnotin Hd']; subst.
        constructor; [| auto]. intros Hin. apply Hnotin, Hk. exact Hin.
Qed.

(** X23: the two breakdowns of a snapshot account for the sessions.
    The counts of the per-model table add up to the number of sessions
    and its costs to the total cost (reported rounded to cents); the
    counts of the per-workflow table add up to the number of qualifying
    rows that carry a workflow label; no key occurs twice in either table
    and no workflow key is blank. *)
Theorem breakdowns_partition (history : list HistoryRecord) (s : Stats) :
  generate_stats history = Ok (Some s) ->
  model_count_sum (by_model s) = total_sessions s
  /\ py_round (model_cost_sum (by_model s)) 2 == stats_total_cost s
  /\ workflow_count_sum (by_workflow s) = len (labelled (qualifying history))
  /\ NoDup (map fst (by_model s))
  /\ NoDup (map fst (by_workflow s))
  /\ (forall k, In k (map fst (by_workflow s)) -> k <> "").
Proof.
  intros H. apply generate_stats_inv in H. cbv zeta in H.
  destruct H as [q50 [q75 [q90 [q95 [wf [Hrows [_ [_ [_ [_ [Hwf ->]]]]]]]]]]].
  simpl.
  destruct (group_by_model_sums (qualifying history)) as [Hn [Hc Hnd]].
  destruct (group_by_workflow_from (qualifying history) []) as [Gn [Gnd Gk]].
  change (fold_left _ (qualifying history) [])
    with (group_by_workflow (qualifying history)) in Gn, Gnd, Gk.
  destruct (workflow_stats_sums _ _ Hwf) as [Wn [Wk Wnd]].
  split; [| split; [| split; [| split; [| split]]]].
  - rewrite Hn. unfold len, costs_of.
    rewrite sorted_length, length_map. reflexivity.
  - apply py_round_compat. exact Hc.
  - rewrite Wn, Gn. simpl. lia.
  - exact Hnd.
  - apply Wnd, Gnd. constructor.
  - intros k Hk. apply Wk, Gk in Hk. destruct Hk as [[] | [Hne _]]. exact Hne.
Qed.

Lemma breakdowns_partition_witness :
  exists s,
    generate_stats outlier_history = Ok (Some s)
    /\ model_count_sum (by_model s) = total_sessions s
    /\ py_round (model_cost_sum (by_model s)) 2 == stats_total_cost s.
Proof.
  destruct (generate_stats_returns outlier_history) as [[s |] [H Hnone]].
  - exists s. split; [exact H |].
    destruct (breakdowns_partition outlier_history s H) as [H1 [H2 _]].
    split; assumption.
  - exfalso. assert (Hq : qualifying outlier_history = [])
      by (apply Hnone; reflexivity).
    vm_compute in Hq. discriminate Hq.
Defined.

(** ** UsageParser: one log after another *)

Ltac tokens_solve :=
  unfold tokens_eq, add_tokens, zero_tokens in *; simpl in *;
  repeat match goal with H : _ /\ _ |- _ => destruct H end;
  repeat split; (lra || lia).

Lemma tokens_eq_sym (a b : Tokens) : tokens_eq a b -> tokens_eq b a.
Proof. intros H. tokens_solve. Qed.

Lemma tokens_eq_trans (a b c : Tokens) :
  tokens_eq a b -> tokens_eq b c -> tokens_eq a c.
Proof. intros H1 H2. tokens_solve. Qed.

Lemma add_tokens_compat (a a' b b' : Tokens) :
  tokens_eq a a' -> tokens_eq b b' ->
  tokens_eq (add_tokens a b) (add_tokens a' b').
Proof. intros H1 H2. tokens_solve. Qed.

Lemma lookup_combined (o x y : option Tokens) :
  lookup_eq o (combined x y) ->
  tokens_eq (tokens_or_zero o)
            (add_tokens (tokens_or_zero x) (tokens_or_zero y)).
Proof.
  unfold combined, lookup_eq.
  destruct o as [t |], x as [a |], y as [b |]; simpl; try tauto; intros _.
  tokens_solve.
Qed.

Lemma bind_Ok_r {A : Type} (c : Py A) : bind c Ok = c.
Proof. destruct c; reflexivity. Qed.

Lemma add_usage_delta (d : json) (key : string) (counter x : Q) :
  add_usage d key counter = Ok x ->
  exists n, forall counter', add_usage d key counter' = Ok (counter' + n).
Proof.
  unfold add_usage. intros H. invert_bind H. invert_bind H.
  exists a0. intros counter'. rewrite Ha. cbn [bind]. rewrite Ha0. reflexivity.
Qed.

Lemma add_usage_block_delta (usage : json) (e e' : Tokens) :
  add_usage_block usage e = Ok e' ->
  exists delta,
    forall e2, exists e2',
      add_usage_block usage e2 = Ok e2'
      /\ tokens_eq e2' (add_tokens e2 delta).
Proof.
  unfold add_usage_block. intros H.
  invert_bind H. destruct (add_usage_delta _ _ _ _ Ha) as [n_in Hin].
  invert_bind H. destruct (add_usage_delta _ _ _ _ Ha0) as [n_out Hout].
  invert_bind H. destruct (add_usage_delta _ _ _ _ Ha1) as [n_read Hread].
  invert_bind H. rename a2 into detail, Ha2 into Hdetail.
  destruct (truthy detail) eqn:Htruthy.
  - invert_bind H. destruct (add_usage_delta _ _ _ _ Ha2) as [n_5m H5m].
    invert_bind H. destruct (add_usage_delta _ _ _ _ Ha3) as [n_1h H1h].
    exists (mkTokens n_in n_out n_5m n_1h n_read 1). intros e2.
    rewrite Hin, Hout, Hread, Hdetail. cbn [bind]. rewrite Htruthy.
    rewrite H5m, H1h. cbn [bind]. eexists. split; [reflexivity |].
    tokens_solve.
  - invert_bind H. destruct (add_usage_delta _ _ _ _ Ha2) as [n_1h H1h].
    exists (mkTokens n_in n_out 0 n_1h n_read 1). intros e2.
    rewrite Hin, Hout, Hread, Hdetail. cbn [bind]. rewrite Htruthy.
    rewrite H1h. cbn [bind]. eexists. split; [reflexivity |].
    tokens_solve.
Qed.

Lemma collect_task_calls_delta (blocks : list json) :
  forall calls result,
    collect_task_calls blocks calls = Ok result ->
    exists new, forall calls',
      collect_task_calls blocks calls' = Ok (calls' ++ new)%list.
Proof.
  induction blocks as [| block rest IH]; intros calls result H.
  - exists []. intros calls'. simpl. rewrite app_nil_r. reflexivity.
  - cbn [collect_task_calls] in H. destruct block;
      try (destruct (IH _ _ H) as [new Hnew]; exists new; intros calls';
           cbn [collect_task_calls]; apply Hnew).
    invert_bind H. invert_bind H.
    destruct (eq_str a "tool_use" && eq_str a0 "Task") eqn:Htask.
    + invert_bind H. invert_bind H. invert_bind H. invert_bind H.
      destruct (IH _ _ H) as [new Hnew].
      exists (mkTaskCall a2 a3 a4 :: new). intros calls'.
      cbn [collect_task_calls]. rewrite Ha. cbn [bind]. rewrite Ha0.
      cbn [bind]. rewrite Htask.
      rewrite Ha1. cbn [bind]. rewrite Ha2. cbn [bind]. rewrite Ha3.
      cbn [bind]. rewrite Ha4. cbn [bind].
      rewrite Hnew, <- app_assoc. reflexivity.
    + destruct (IH _ _ H) as [new Hnew]. exists new. intros calls'.
      cbn [collect_task_calls]. rewrite Ha. cbn [bind]. rewrite Ha0.
      cbn [bind]. rewrite Htask. apply Hnew.
Qed.

(** What an assistant record adds, whatever the state it is added to. *)
Lemma process_assistant_delta (data : json) (sA sA' : ParseState) :
  process_assistant data sA = Ok sA' ->
  exists model delta new,
    forall st, exists entry st',
      process_assistant data st = Ok st'
      /\ tokens_eq entry
           (add_tokens (tokens_or_zero (find_model model (tokens_by_model st)))
                       delta)
      /\ tokens_by_model st' = set_model model entry (tokens_by_model st)
      /\ msg_count st' = (msg_count st + 1)%Z
      /\ task_calls st' = (task_calls st ++ new)%list
      /\ first_user_msg st' = first_user_msg st
      /\ detected_workflow st' = detected_workflow st.
Proof.
  unfold process_assistant. intros H.
  invert_bind H. rename a into msg, Ha into Hmsg.
  invert_bind H. rename a into usage, Ha into Husage.
  invert_bind H. rename a into model, Ha into Hmodel.
  destruct (negb (hashable model)) eqn:Hh; [discriminate H |].
  invert_bind H. rename a into entryA, Ha into HentryA.
  invert_bind H. rename a into content, Ha into Hcontent.
  invert_bind H. rename a into callsA, Ha into HcallsA.
  destruct (add_usage_block_delta _ _ _ HentryA) as [delta Hdelta].
  assert (Hcalls : exists new, forall calls',
             match content with
             | JArr blocks => collect_task_calls blocks calls'
             | _ => Ok calls'
             end = Ok (calls' ++ new)%list).
  { destruct content;
      try (exists []; intros calls'; rewrite app_nil_r; reflexivity).
    apply (collect_task_calls_delta _ _ _ HcallsA). }
  destruct Hcalls as [new Hnew].
  exists model, delta, new. intros st.
  destruct (Hdelta (tokens_or_zero (find_model model (tokens_by_model st))))
    as [entry [Hentry Heq]].
  rewrite Hmsg. cbn [bind]. rewrite Husage. cbn [bind].
  rewrite Hmodel. cbn [bind]. rewrite Hh.
  rewrite Hentry. cbn [bind]. rewrite Hcontent. cbn [bind].
  rewrite Hnew. cbn [bind].
  exists entry. eexists. split; [reflexivity |]. simpl.
  split; [exact Heq |]. repeat split; reflexivity.
Qed.

Lemma collect_text_blocks_more (blocks : list json) :
  forall texts fmA texts' fmA' fmB,
    collect_text_blocks blocks texts fmA = Ok (texts', fmA') ->
    (truthy fmA = true -> truthy fmB = true) ->
    exists fmB',
      collect_text_blocks blocks texts fmB = Ok (texts', fmB')
      /\ (truthy fmA' = true -> truthy fmB' = true).
Proof.
  induction blocks as [| block rest IH]; intros texts fmA texts' fmA' fmB H Hset.
  - simpl in H. injection H as <- <-. exists fmB. auto.
  - cbn [collect_text_blocks] in H. cbn [collect_text_blocks].
    destruct block; try (apply (IH _ _ _ _ _ H Hset)).
    invert_bind H. rewrite Ha. cbn [bind].
    destruct (eq_str a "text"); [| apply (IH _ _ _ _ _ H Hset)].
    invert_bind H. rewrite Ha0. cbn [bind].
    invert_bind H. rename a1 into fmA1, Ha1 into HfmA1.
    destruct (truthy fmB) eqn:HB.
    + cbv iota. cbn [bind]. apply (IH _ _ _ _ _ H). intros _. exact HB.
    + destruct (truthy fmA) eqn:HA; [specialize (Hset eq_refl); discriminate |].
      cbv iota in HfmA1 |- *. rewrite Ha0 in HfmA1. cbn [bind] in HfmA1 |- *.
      rewrite HfmA1. cbn [bind]. apply (IH _ _ _ _ _ H). auto.
Qed.

Lemma process_user_more (data : json) (sA sA' sB : ParseState) :
  process_user data sA = Ok sA' ->
  at_least_as_set sA sB ->
  exists sB', process_user data sB = Ok sB' /\ at_least_as_set sA' sB'.
Proof.
  unfold process_user. intros H [Hfm Hwf].
  invert_bind H. rewrite Ha. cbn [bind].
  invert_bind H. rewrite Ha0. cbn [bind]. rename a0 into content.
  invert_bind H. destruct a0 as [texts fmA']. rename Ha1 into Htexts.
  invert_bind H. destruct a0 as [wfA stA]. rename Ha1 into Hdetect.
  injection H as <-.
  assert (HtextsB : exists fmB',
             user_texts content (first_user_msg sB) = Ok (texts, fmB')
             /\ (truthy fmA' = true -> truthy fmB' = true)).
  { unfold user_texts in *. destruct content.
    1-4, 7: injection Htexts as <- <-; eexists; split; [reflexivity | exact Hfm].
    - invert_bind Htexts. injection Htexts as <- <-.
      destruct (truthy (first_user_msg sB)) eqn:HB.
      + cbv iota. cbn [bind]. eexists. split; [reflexivity |].
        intros _. exact HB.
      + destruct (truthy (first_user_msg sA)) eqn:HA;
          [specialize (Hfm eq_refl); discriminate |].
        cbv iota in Ha1 |- *.
        rewrite Ha1. cbn [bind]. eexists. split; [reflexivity | auto].
    - apply (collect_text_blocks_more _ _ _ _ _ _ Htexts Hfm). }
  destruct HtextsB as [fmB' [HtB HfmB']]. rewrite HtB. cbn [bind].
  destruct (detected_workflow sB =? "") eqn:HB; cbn [negb].
  - apply String.eqb_eq in HB.
    assert (HA : detected_workflow sA = "").
    { destruct (string_dec (detected_workflow sA) "") as [E | E]; [exact E |].
      contradiction (Hwf E). }
    rewrite HA in Hdetect. simpl in Hdetect.
    invert_bind Hdetect. rewrite Ha1. cbn [bind].
    destruct a0 as [[wf st] |]; injection Hdetect as <- <-;
      (eexists; split; [reflexivity |]);
      unfold at_least_as_set; simpl; (split; [exact HfmB' |]).
    + auto.
    + intros E. contradiction E. reflexivity.
  - cbn [bind]. eexists. split; [reflexivity |].
    unfold at_least_as_set. simpl. split; [exact HfmB' |].
    intros _ E. rewrite E in HB. discriminate HB.
Qed.

Lemma process_record_plain (data : json) (st : ParseState) :
  is_assistant data = false ->
  process_record data st
  = (ts <- get data "timestamp" JNull ;;
     if is_user data then process_user data (track_timestamp ts st)
     else Ok (track_timestamp ts st)).
Proof.
  unfold is_assistant, is_user, process_record. destruct data; try reflexivity.
  simpl. intros H. rewrite H. destruct (eq_str _ "user").
  - apply bind_Ok_r.
  - reflexivity.
Qed.

Lemma track_timestamp_set (ts : json) (sA sB : ParseState) :
  at_least_as_set sA sB ->
  at_least_as_set (track_timestamp ts sA) (track_timestamp ts sB).
Proof.
  unfold at_least_as_set, track_timestamp. destruct (truthy ts); simpl; auto.
Qed.

Lemma same_usage_added (base a a' b b' : ParseState) :
  same_usage a' a -> same_usage b' b ->
  usage_added base a b -> usage_added base a' b'.
Proof.
  unfold same_usage, usage_added.
  intros [-> [-> ->]] [-> [-> ->]] H. exact H.
Qed.

Lemma process_record_added (data : json) (base sA sA' sB : ParseState) :
  process_record data sA = Ok sA' ->
  at_least_as_set sA sB ->
  usage_added base sA sB ->
  exists sB',
    process_record data sB = Ok sB'
    /\ at_least_as_set sA' sB'
    /\ usage_added base sA' sB'.
Proof.
  intros H Hset Hadded. destruct (is_assistant data) eqn:Hkind.
  - rewrite (process_record_assistant data sA Hkind) in H.
    rewrite (process_record_assistant data sB Hkind).
    invert_bind H. rename a into ts, Ha into Hts. rewrite Hts. cbn [bind].
    destruct (process_assistant_delta _ _ _ H) as [model [delta [new Hall]]].
    destruct (Hall (track_timestamp ts sA))
      as [eA [stA [HA [HeA [HtA [HcA [HkA [HfA HwA]]]]]]]].
    rewrite H in HA. injection HA as <-.
    destruct (Hall (track_timestamp ts sB))
      as [eB [sB' [HB [HeB [HtB [HcB [HkB [HfB HwB]]]]]]]].
    exists sB'. split; [exact HB |].
    pose proof (track_timestamp_set ts _ _ Hset) as Hset'.
    split.
    { unfold at_least_as_set in *. rewrite HfA, HwA, HfB, HwB. exact Hset'. }
    pose proof (same_usage_added base _ _ _ _
                  (track_timestamp_usage ts sA) (track_timestamp_usage ts sB)
                  Hadded) as Hadded'.
    destruct Hadded' as [Hlook [Hcount Hcalls]].
    set (tA := tokens_by_model (track_timestamp ts sA)) in *.
    set (tB := tokens_by_model (track_timestamp ts sB)) in *.
    assert (Hentry : tokens_eq (tokens_or_zero (find_model model tB))
              (add_tokens
                 (tokens_or_zero (find_model model (tokens_by_model base)))
                 (tokens_or_zero (find_model model tA))))
      by (apply lookup_combined, Hlook).
    unfold usage_added. rewrite HtA, HtB, HcA, HcB, HkA, HkB.
    split; [| split].
    + intros m. rewrite !find_model_set.
      destruct (key_eqb model m) eqn:Hm.
      * rewrite <- (find_model_key model m _ Hm).
        unfold combined, lookup_eq.
        destruct (find_model model (tokens_by_model base)); simpl.
        -- simpl in Hentry. tokens_solve.
        -- simpl in Hentry. tokens_solve.
      * apply Hlook.
    + lia.
    + rewrite Hcalls, app_assoc. reflexivity.
  - pose proof (process_record_other data sA sA' Hkind H) as HsameA.
    rewrite (process_record_plain data sA Hkind) in H.
    rewrite (process_record_plain data sB Hkind).
    invert_bind H. rename a into ts, Ha into Hts. rewrite Hts. cbn [bind].
    pose proof (track_timestamp_set ts _ _ Hset) as Hset'.
    destruct (is_user data) eqn:Huser.
    + destruct (process_user_more _ _ _ _ H Hset') as [sB' [HB HsetB]].
      exists sB'. split; [exact HB |]. split; [exact HsetB |].
      apply (same_usage_added base sA sA' sB sB'); auto.
      apply (same_usage_trans _ (track_timestamp ts sB)).
      * apply (process_user_usage _ _ _ HB).
      * apply track_timestamp_usage.
    + injection H as <-. eexists. split; [reflexivity |].
      split; [exact Hset' |].
      apply (same_usage_added base sA _ sB _); auto.
      apply track_timestamp_usage.
Qed.

Lemma parse_records_added (rs : list json) :
  forall base sA sA' sB,
    parse_records rs sA = Ok sA' ->
    at_least_as_set sA sB ->
    usage_added base sA sB ->
    exists sB',
      parse_records rs sB = Ok sB' /\ usage_added base sA' sB'.
Proof.
  induction rs as [| data rest IH]; intros base sA sA' sB H Hset Hadded.
  - simpl in H. injection H as <-. exists sB. auto.
  - simpl in H. invert_bind H. rename a into sA1.
    destruct (process_record_added _ base _ _ sB Ha Hset Hadded)
      as [sB1 [HB [Hset1 Hadded1]]].
    simpl. rewrite HB. cbn [bind].
    apply (IH base sA1 sA' sB1 H Hset1 Hadded1).
Qed.

Lemma usage_added_initial (base : ParseState) :
  usage_added base initial_state base.
Proof.
  unfold usage_added. simpl. split; [| split].
  - intros m. unfold combined, lookup_eq.
    destruct (find_model m (tokens_by_model base)); simpl; [| exact I].
    tokens_solve.
  - lia.
  - rewrite app_nil_r. reflexivity.
Qed.

Lemma parse_after (json_loads : string -> option json)
    (first second : list string) (s1 s2 : ParseState) :
  parse_jsonl json_loads first = Ok s1 ->
  parse_jsonl json_loads second = Ok s2 ->
  exists s,
    parse_jsonl json_loads (first ++ second) = Ok s
    /\ usage_added s1 s2 s.
Proof.
  unfold parse_jsonl. intros H1 H2.
  rewrite parse_lines_app, H1. cbn [bind].
  rewrite parse_lines_records in *.
  apply (parse_records_added _ s1 initial_state s2 s1 H2).
  - unfold at_least_as_set. simpl. split; [discriminate | congruence].
  - apply usage_added_initial.
Qed.

(** X24: parsing is additive.  When two logs parse, and the log made of
    the first followed by the second parses too, the usage of the whole is
    the sum of the parts: every model has the entry [merge_tokens] gives
    it (as numbers), the message count is the sum of the two counts, and
    the task calls are those of the first log followed by those of the
    second. *)
Theorem parse_is_additive (json_loads : string -> option json)
    (first second : list string) (s1 s2 s : ParseState) :
  parse_jsonl json_loads first = Ok s1 ->
  parse_jsonl json_loads second = Ok s2 ->
  parse_jsonl json_loads (first ++ second) = Ok s ->
  (forall model,
      lookup_eq (find_model model (tokens_by_model s))
                (find_model model
                   (merge_tokens (tokens_by_model s1) (tokens_by_model s2))))
  /\ msg_count s = (msg_count s1 + msg_count s2)%Z
  /\ task_calls s = (task_calls s1 ++ task_calls s2)%list.
Proof.
  intros H1 H2 H.
  destruct (parse_after json_loads first second s1 s2 H1 H2)
    as [s' [Hs [Hlook [Hcount Hcalls]]]].
  rewrite H in Hs. injection Hs as <-.
  split; [| split; [exact Hcount | exact Hcalls]].
  intros model.
  assert (E : find_model model
                (merge_tokens (tokens_by_model s1) (tokens_by_model s2))
              = combined (find_model model (tokens_by_model s1))
                         (find_model model (tokens_by_model s2))).
  { rewrite find_model_merge. unfold combined.
    destruct (find_model model (tokens_by_model s1)),
             (find_model model (tokens_by_model s2)); reflexivity. }
  rewrite E. exact (Hlook model).
Qed.

Lemma parse_is_additive_witness :
  exists s1 s2 s,
    parse_jsonl (loads_only two_workflows_log)
                (map dumps (firstn 2 two_workflows_log)) = Ok s1
    /\ parse_jsonl (loads_only two_workflows_log)
                   (map dumps (skipn 1 two_workflows_log)) = Ok s2
    /\ parse_jsonl (loads_only two_workflows_log)
                   (map dumps (firstn 2 two_workflows_log)
                    ++ map dumps (skipn 1 two_workflows_log))%list = Ok s
    /\ msg_count s = (msg_count s1 + msg_count s2)%Z.
Proof.
  assert (H1 : exists s1,
    parse_jsonl (loads_only two_workflows_log)
                (map dumps (firstn 2 two_workflows_log)) = Ok s1)
    by (eexists; vm_compute; reflexivity).
  assert (H2 : exists s2,
    parse_jsonl (loads_only two_workflows_log)
                (map dumps (skipn 1 two_workflows_log)) = Ok s2)
    by (eexists; vm_compute; reflexivity).
  assert (H : exists s,
    parse_jsonl (loads_only two_workflows_log)
                (map dumps (firstn 2 two_workflows_log)
                 ++ map dumps (skipn 1 two_workflows_log))%list = Ok s)
    by (eexists; vm_compute; reflexivity).
  destruct H1 as [s1 H1], H2 as [s2 H2], H as [s H].
  destruct (parse_is_additive _ _ _ _ _ _ H1 H2 H) as [_ [Hc _]].
  exists s1, s2, s. auto.
Defined.

Lemma lookup_eq_refl (x : option Tokens) : lookup_eq x x.
Proof. destruct x; simpl; [apply tokens_eq_refl | exact I]. Qed.

Lemma lookup_eq_sym (x y : option Tokens) : lookup_eq x y -> lookup_eq y x.
Proof.
  destruct x, y; simpl; try tauto. apply tokens_eq_sym.
Qed.

Lemma lookup_eq_trans (x y z : option Tokens) :
  lookup_eq x y -> lookup_eq y z -> lookup_eq x z.
Proof.
  destruct x, y, z; simpl; try tauto. apply tokens_eq_trans.
Qed.

Lemma combined_compat (x x' y y' : option Tokens) :
  lookup_eq x x' -> lookup_eq y y' ->
  lookup_eq (combined x y) (combined x' y').
Proof.
  destruct x, x', y, y'; simpl; try tauto; intros H1 H2;
    try (apply add_tokens_compat; assumption);
    tokens_solve.
Qed.

Lemma find_model_merge_combined (m : json) (a b : TokensByModel) :
  find_model m (merge_tokens a b)
  = combined (find_model m a) (find_model m b).
Proof.
  rewrite find_model_merge. unfold combined.
  destruct (find_model m a), (find_model m b); reflexivity.
Qed.

Lemma merge_subagents_log (json_loads : string -> option json)
    (files : list (string * list string)) :
  forall results tokens results' tokens' so_far s0 count,
    merge_subagents json_loads files results tokens = Ok (results', tokens') ->
    parse_jsonl json_loads so_far = Ok s0 ->
    unique_keys tokens ->
    (forall m, lookup_eq (find_model m tokens)
                         (find_model m (tokens_by_model s0))) ->
    msg_count s0 = (count + subagent_msgs results)%Z ->
    exists s,
      parse_jsonl json_loads
        (so_far ++ flat_map snd (filter (fun file => negb (compact_log file))
                                        files))%list = Ok s
      /\ (forall m, lookup_eq (find_model m tokens')
                              (find_model m (tokens_by_model s)))
      /\ msg_count s = (count + subagent_msgs results')%Z.
Proof.
  induction files as [| [name lines] rest IH];
    intros results tokens results' tokens' so_far s0 count H H0 Hu Hlook
           Hcount.
  - simpl in H. injection H as <- <-. simpl. rewrite app_nil_r.
    exists s0. auto.
  - simpl in H. unfold compact_log at 1. simpl filter. simpl fst.
    destruct (contains "compact" name) eqn:Hname; simpl negb; cbv iota.
    + apply (IH _ _ _ _ _ _ _ H H0 Hu Hlook Hcount).
    + invert_bind H. rename a into sa, Ha into Hsa.
      destruct (parse_jsonl_invariant _ _ _ Hsa) as [Hsu _].
      destruct (parse_after json_loads so_far lines s0 sa H0 Hsa)
        as [s1 [Hs1 [Hlook1 [Hcount1 _]]]].
      simpl flat_map. rewrite app_assoc.
      apply (IH _ _ _ _ _ s1 count H Hs1).
      * apply merge_tokens_unique; assumption.
      * intros m. rewrite find_model_merge_combined.
        apply (lookup_eq_trans _
                 (combined (find_model m (tokens_by_model s0))
                           (find_model m (tokens_by_model sa)))).
        -- apply combined_compat; [apply Hlook | apply lookup_eq_refl].
        -- apply lookup_eq_sym, Hlook1.
      * rewrite subagent_msgs_app. simpl sa_msg_count. lia.
Qed.

(** X25: a session is analysed as if it were one log.  Take a result of
    [analyze_session] and the parse of the single log made of the parent
    log followed by the analysed sub-agent logs: the session's merged
    counters (model by model, as numbers) and its message total (parent
    plus sub-agents) are those of that one log. *)
Theorem session_is_one_log (json_loads : string -> option json)
    (fromisoformat : string -> bool) (id : string)
    (parent_lines : list string)
    (subagent_files : list (string * list string)) (result : SessionResult)
    (whole : ParseState) :
  analyze_session json_loads fromisoformat id parent_lines subagent_files
  = Ok result ->
  parse_jsonl json_loads (session_log parent_lines subagent_files)
  = Ok whole ->
  (forall model,
      lookup_eq (find_model model (all_tokens result))
                (find_model model (tokens_by_model whole)))
  /\ msg_count whole
     = (msg_count (parent result) + subagent_msgs (subagents result))%Z.
Proof.
  unfold analyze_session, session_log. intros H Hwhole.
  invert_bind H. rename a into p, Ha into Hp.
  invert_bind H. destruct a as [results tokens]. rename Ha into Hmerge.
  invert_bind H. injection H as <-. simpl.
  destruct (parse_jsonl_invariant _ _ _ Hp) as [Hu _].
  destruct (merge_subagents_log _ _ _ _ _ _ _ p (msg_count p) Hmerge Hp Hu)
    as [s [Hs Hsame]].
  - intros m. apply lookup_eq_refl.
  - unfold subagent_msgs. simpl. lia.
  - rewrite Hwhole in Hs. injection Hs as <-. exact Hsame.
Qed.

Lemma session_is_one_log_witness :
  exists result whole,
    analyze_session (loads_only (two_records "claude-opus-4-6"))
      (fun _ => true) "s"
      (map dumps (two_records "claude-opus-4-6"))
      [("agent-a.jsonl", map dumps (two_records "claude-opus-4-6"));
       ("agent-compact-b.jsonl", ["x"])] = Ok result
    /\ parse_jsonl (loads_only (two_records "claude-opus-4-6"))
         (session_log (map dumps (two_records "claude-opus-4-6"))
            [("agent-a.jsonl", map dumps (two_records "claude-opus-4-6"));
             ("agent-compact-b.jsonl", ["x"])]) = Ok whole
    /\ msg_count whole
       = (msg_count (parent result) + subagent_msgs (subagents result))%Z.
Proof.
  assert (H : exists result,
    analyze_session (loads_only (two_records "claude-opus-4-6"))
      (fun _ => true) "s"
      (map dumps (two_records "claude-opus-4-6"))
      [("agent-a.jsonl", map dumps (two_records "claude-opus-4-6"));
       ("agent-compact-b.jsonl", ["x"])] = Ok result)
    by (eexists; vm_compute; reflexivity).
  assert (Hw : exists whole,
    parse_jsonl (loads_only (two_records "claude-opus-4-6"))
      (session_log (map dumps (two_records "claude-opus-4-6"))
         [("agent-a.jsonl", map dumps (two_records "claude-opus-4-6"));
          ("agent-compact-b.jsonl", ["x"])]) = Ok whole)
    by (eexists; vm_compute; reflexivity).
  destruct H as [result H], Hw as [whole Hw].
  destruct (session_is_one_log _ _ _ _ _ _ _ H Hw) as [_ Hc].
  exists result, whole. auto.
Defined.

(** ** SessionAggregator: token totals *)

Lemma subagent_tokens_app (total : TokensByModel -> Q)
    (results : list SubAgentResult) (s : SubAgentResult) :
  subagent_tokens total (results ++ [s])%list
  == subagent_tokens total results + total (sa_tokens_by_model s).
Proof. unfold subagent_tokens. rewrite fold_left_app. reflexivity. Qed.

Lemma merge_subagents_totals (json_loads : string -> option json)
    (total : TokensByModel -> Q) (files : list (string * list string)) :
  (forall a b, unique_keys a -> unique_keys b ->
               total (merge_tokens a b) == total a + total b) ->
  forall results tokens results' tokens',
    merge_subagents json_loads files results tokens = Ok (results', tokens') ->
    unique_keys tokens ->
    total tokens' + subagent_tokens total results
    == total tokens + subagent_tokens total results'.
Proof.
  intros Hadd.
  induction files as [| [name lines] rest IH];
    intros results tokens results' tokens' H Hu.
  - simpl in H. injection H as <- <-. reflexivity.
  - simpl in H. destruct (contains "compact" name).
    + apply (IH _ _ _ _ H Hu).
    + invert_bind H. rename a into sa, Ha into Hsa.
      destruct (parse_jsonl_invariant _ _ _ Hsa) as [Hsu _].
      apply IH in H; [| apply merge_tokens_unique; assumption].
      rewrite subagent_tokens_app in H. simpl sa_tokens_by_model in H.
      pose proof (Hadd tokens (tokens_by_model sa) Hu Hsu) as Hm.
      lra.
Qed.

(** X26: the token lines of a report add up over the logs of the
    session: in every result of [analyze_session] the total input, output,
    cache-write and cache-read tokens of the merged dict are the parent's
    totals plus the sums of the sub-agents' totals. *)
Theorem session_token_totals (json_loads : string -> option json)
    (fromisoformat : string -> bool) (id : string)
    (parent_lines : list string)
    (subagent_files : list (string * list string)) (result : SessionResult) :
  analyze_session json_loads fromisoformat id parent_lines subagent_files
  = Ok result ->
  let own := tokens_by_model (parent result) in
  total_input (all_tokens result)
  == total_input own + subagent_tokens total_input (subagents result)
  /\ total_output (all_tokens result)
     == total_output own + subagent_tokens total_output (subagents result)
  /\ total_cache_write (all_tokens result)
     == total_cache_write own
        + subagent_tokens total_cache_write (subagents result)
  /\ total_cache_read (all_tokens result)
     == total_cache_read own
        + subagent_tokens total_cache_read (subagents result).
Proof.
  unfold analyze_session. intros H.
  invert_bind H. rename a into p, Ha into Hp.
  invert_bind H. destruct a as [results tokens]. rename Ha into Hmerge.
  invert_bind H. injection H as <-. simpl.
  destruct (parse_jsonl_invariant _ _ _ Hp) as [Hu _].
  assert (Hall : forall f,
             (forall x y, f (add_tokens x y) == f x + f y) ->
             f zero_tokens == 0 ->
             fold_left (fun acc item => acc + f (snd item)) tokens 0
             == fold_left (fun acc item => acc + f (snd item))
                          (tokens_by_model p) 0
                + subagent_tokens
                    (fun t => fold_left (fun acc item => acc + f (snd item)) t 0)
                    results).
  { intros f Hadd Hzero.
    pose proof (merge_subagents_totals json_loads
                  (fun t => fold_left (fun acc item => acc + f (snd item)) t 0)
                  subagent_files
                  (fun a b Ha Hb => total_merge f a b Hadd Hzero Ha Hb)
                  _ _ _ _ Hmerge Hu) as Htot.
    unfold subagent_tokens at 1 in Htot. simpl in Htot. lra. }
  unfold total_input, total_output, total_cache_write, total_cache_read.
  repeat split.
  - apply (Hall t_input); intros; simpl; ring.
  - apply (Hall t_output); intros; simpl; ring.
  - apply (Hall (fun t => t_cache_5m t + t_cache_1h t)); intros; simpl; ring.
  - apply (Hall t_cache_read); intros; simpl; ring.
Qed.

Lemma session_token_totals_witness :
  exists result,
    analyze_session (loads_only (two_records "claude-opus-4-6"))
      (fun _ => true) "s"
      (map dumps (two_records "claude-opus-4-6"))
      [("agent-a.jsonl", map dumps (two_records "claude-opus-4-6"))]
    = Ok result
    /\ total_input (all_tokens result)
       == total_input (tokens_by_model (parent result))
          + subagent_tokens total_input (subagents result).
Proof.
  assert (H : exists result,
    analyze_session (loads_only (two_records "claude-opus-4-6"))
      (fun _ => true) "s"
      (map dumps (two_records "claude-opus-4-6"))
      [("agent-a.jsonl", map dumps (two_records "claude-opus-4-6"))]
    = Ok result)
    by (eexists; vm_compute; reflexivity).
  destruct H as [result H]. exists result. split; [exact H |].
  apply (session_token_totals _ _ _ _ _ _ H).
Defined.

(** ** Short model names *)

Lemma prefix_substring (p s : string) (n : nat) :
  prefix p (substring 0 n s) = true -> prefix p s = true.
Proof.
  revert p n. induction s as [| c s IH]; intros p n H.
  - destruct n; exact H.
  - destruct n as [| n].
    + destruct p; [reflexivity | discriminate H].
    + simpl in H. destruct p as [| a p]; [reflexivity |].
      simpl in *. destruct (ascii_dec a c); [| discriminate H].
      apply (IH p n H).
Qed.

Lemma contains_substring (p s : string) (n : nat) :
  contains p (substring 0 n s) = true -> contains p s = true.
Proof.
  revert n. induction s as [| c s IH]; intros n H.
  - destruct n; exact H.
  - destruct n as [| n].
    + cbn [substring contains] in H. rewrite orb_false_r in H.
      cbn [contains]. rewrite (prefix_substring p (String c s) 0 H).
      reflexivity.
    + change (substring 0 (S n) (String c s))
        with (String c (substring 0 n s)) in H.
      cbn [contains] in H |- *. apply orb_true_iff in H.
      destruct H as [H | H].
      * rewrite (prefix_substring p (String c s) (S n) H). reflexivity.
      * rewrite (IH n H). apply orb_true_r.
Qed.

Lemma substring_idempotent (n : nat) (s : string) :
  substring 0 n (substring 0 n s) = substring 0 n s.
Proof.
  revert s. induction n as [| n IH]; intros s.
  - destruct s; reflexivity.
  - destruct s as [| c s]; [reflexivity |]. simpl. rewrite IH. reflexivity.
Qed.

Lemma substring_short (n : nat) (s : string) :
  (String.length s <= n)%nat -> substring 0 n s = s.
Proof.
  revert s. induction n as [| n IH]; intros s H.
  - destruct s; [reflexivity | simpl in H; lia].
  - destruct s as [| c s]; [reflexivity |]. simpl. rewrite IH; [reflexivity |].
    simpl in H. lia.
Qed.

(** X27: short model names are stable: a short name is at most 20
    characters long, shortening it again changes nothing, and a name of
    at most 20 characters that mentions no model family is its own short
    name. *)
Theorem model_short_name_stable (model : string) :
  (String.length (model_short_name model) <= 20)%nat
  /\ model_short_name (model_short_name model) = model_short_name model
  /\ (contains "opus" model = false -> contains "sonnet" model = false ->
      contains "haiku" model = false -> (String.length model <= 20)%nat ->
      model_short_name model = model).
Proof.
  assert (Hfamily : forall family,
             model_short_name model = family ->
             model_short_name family = family ->
             (String.length family <= 20)%nat ->
             (String.length (model_short_name model) <= 20)%nat
             /\ model_short_name (model_short_name model)
                = model_short_name model).
  { intros family E1 E2 Hlen. rewrite !E1. split; assumption. }
  destruct (contains "opus" model) eqn:Ho.
  { destruct (Hfamily "opus") as [H1 H2]; try reflexivity;
      [unfold model_short_name; rewrite Ho; reflexivity | simpl; lia |].
    repeat split; try assumption. intros; congruence. }
  destruct (contains "sonnet" model) eqn:Hs.
  { destruct (Hfamily "sonnet") as [H1 H2]; try reflexivity;
      [unfold model_short_name; rewrite Ho, Hs; reflexivity | simpl; lia |].
    repeat split; try assumption. intros; congruence. }
  destruct (contains "haiku" model) eqn:Hh.
  { destruct (Hfamily "haiku") as [H1 H2]; try reflexivity;
      [unfold model_short_name; rewrite Ho, Hs, Hh; reflexivity | simpl; lia |].
    repeat split; try assumption. intros; congruence. }
  assert (E : model_short_name model = substring 0 20 model)
    by (unfold model_short_name; rewrite Ho, Hs, Hh; reflexivity).
  rewrite !E.
  split; [apply substring_length |]. split.
  - unfold model_short_name.
    assert (Hnot : forall family,
               contains family model = false ->
               contains family (substring 0 20 model) = false).
    { intros family H.
      destruct (contains family (substring 0 20 model)) eqn:Hc; [| reflexivity].
      rewrite (contains_substring family model 20 Hc) in H. discriminate H. }
    rewrite (Hnot "opus" Ho), (Hnot "sonnet" Hs), (Hnot "haiku" Hh).
    apply substring_idempotent.
  - intros _ _ _ Hlen. apply substring_short. exact Hlen.
Qed.

Lemma model_short_name_stable_witness :
  model_short_name "gpt-4" = "gpt-4".
Proof.
  apply (model_short_name_stable "gpt-4"); try reflexivity. simpl. lia.
Defined.

(** ** StatisticsEngine: the per-workflow table *)

Lemma dict_update_In {V : Type} (k : string) (f : option V -> V)
    (d : list (string * V)) (k' : string) (v' : V) :
  In (k', v') (dict_update k f d) ->
  (k' = k /\ exists old, v' = f old) \/ In (k', v') d.
Proof.
  induction d as [| [k0 v0] rest IH]; simpl.
  - intros [H | []]. injection H as <- <-. left. split; [reflexivity |].
    exists None. reflexivity.
  - destruct (k0 =? k) eqn:Hk; simpl.
    + apply String.eqb_eq in Hk. subst k0. intros [H | H].
      * injection H as <- <-. left. split; [reflexivity |].
        exists (Some v0). reflexivity.
      * right. right. exact H.
    + intros [H | H]; [right; left; exact H |].
      destruct (IH H) as [Hl | Hr]; [left; exact Hl | right; right; exact Hr].
Qed.

Lemma group_by_workflow_groups (rows : list HistoryRecord) :
  forall acc,
    (forall k cs, In (k, cs) acc -> cs <> []) ->
    let groups :=
      fold_left
        (fun acc r =>
           let wf := strip (h_workflow r) in
           if wf =? "" then acc
           else dict_update wf
                  (fun old =>
                     (match old with Some cs => cs | None => [] end
                      ++ [h_total_cost r])%list)
                  acc)
        rows acc in
    (forall k cs, In (k, cs) groups -> cs <> [])
    /\ (forall k, In k (map fst acc) -> In k (map fst groups))
    /\ (forall r, In r rows -> strip (h_workflow r) <> "" ->
                  In (strip (h_workflow r)) (map fst groups)).
Proof.
  induction rows as [| r rest IH]; intros acc Hacc; cbv zeta.
  - simpl. split; [exact Hacc |]. split; [auto | intros r []].
  - cbn [fold_left].
    destruct (strip (h_workflow r) =? "") eqn:Hblank.
    + destruct (IH acc Hacc) as [H1 [H2 H3]]. cbv zeta in H1, H2, H3.
      split; [exact H1 |]. split; [exact H2 |].
      intros r' [<- | Hin] Hne.
      * apply String.eqb_neq in Hne. congruence.
      * apply (H3 r' Hin Hne).
    + match goal with
      | |- context [fold_left ?step rest ?acc'] =>
          destruct (IH acc') as [H1 [H2 H3]]
      end.
      { intros k cs Hin. apply dict_update_In in Hin.
        destruct Hin as [[_ [old ->]] | Hin]; [| apply (Hacc k cs Hin)].
        intros E. apply app_eq_nil in E. destruct E as [_ E]. discriminate E. }
      cbv zeta in H1, H2, H3.
      split; [exact H1 |]. split.
      * intros k Hk. apply H2. apply dict_update_keys. right. exact Hk.
      * intros r' [<- | Hin] Hne.
        -- apply H2. apply dict_update_keys. left. reflexivity.
        -- apply (H3 r' Hin Hne).
Qed.

Lemma workflow_stats_of_figures (wf_costs : list Q) (ws : WorkflowStats) :
  wf_costs <> [] ->
  workflow_stats_of wf_costs = Ok ws ->
  (1 <= wf_count ws)%Z /\ wf_count ws = len wf_costs
  /\ wf_p50 ws <= wf_p75 ws /\ wf_p75 ws <= wf_p90 ws.
Proof.
  intros Hne H. unfold workflow_stats_of in H.
  invert_bind H. invert_bind H. invert_bind H. injection H as <-. simpl.
  split; [apply len_pos, sorted_nonempty; exact Hne |].
  split; [unfold len; rewrite sorted_length; reflexivity |].
  split; apply py_round_mono.
  - apply (percentile_sorted_le wf_costs 50 75); auto; vm_compute; discriminate.
  - apply (percentile_sorted_le wf_costs 75 90); auto; vm_compute; discriminate.
Qed.

Lemma workflow_stats_entries (groups : list (string * list Q)) :
  forall table,
    workflow_stats groups = Ok table ->
    (forall k cs, In (k, cs) groups -> cs <> []) ->
    map fst table = map fst groups
    /\ (forall k ws, In (k, ws) table ->
                     exists cs, In (k, cs) groups
                                /\ workflow_stats_of cs = Ok ws).
Proof.
  induction groups as [| [wf costs] rest IH]; intros table H Hne.
  - simpl in H. injection H as <-. split; [reflexivity | intros k ws []].
  - cbn [workflow_stats] in H.
    assert (Hcosts : costs <> []) by (apply (Hne wf); left; reflexivity).
    destruct (len (sorted costs) =? 0)%Z eqn:Hzero.
    + apply Z.eqb_eq in Hzero.
      pose proof (len_pos _ (sorted_nonempty costs Hcosts)). lia.
    + invert_bind H. rename a into s, Ha into Hs.
      invert_bind H. rename a into others, Ha into Hothers.
      injection H as <-.
      destruct (IH others Hothers) as [Hkeys Hentries].
      { intros k cs Hin. apply (Hne k). right. exact Hin. }
      split; [simpl; rewrite Hkeys; reflexivity |].
      intros k ws [Heq | Hin].
      * injection Heq as <- <-. exists costs. split; [left; reflexivity | exact Hs].
      * destruct (Hentries k ws Hin) as [cs [Hcs Hws]].
        exists cs. split; [right; exact Hcs | exact Hws].
Qed.

(** X28: the per-workflow table of a snapshot is complete and
    consistent: every workflow label carried by a qualifying row (its
    stripped, non-blank value) has a line; every line belongs to such a
    label, counts at least one run, and its figures are in order, P50 <=
    P75 <= P90. *)
Theorem workflow_table_complete (history : list HistoryRecord) (s : Stats) :
  generate_stats history = Ok (Some s) ->
  (forall r, In r (qualifying history) -> strip (h_workflow r) <> "" ->
             In (strip (h_workflow r)) (map fst (by_workflow s)))
  /\ (forall wf ws,
         In (wf, ws) (by_workflow s) ->
         (exists r, In r (qualifying history) /\ wf = strip (h_workflow r))
         /\ (1 <= wf_count ws)%Z
         /\ wf_p50 ws <= wf_p75 ws /\ wf_p75 ws <= wf_p90 ws).
Proof.
  intros H. apply generate_stats_inv in H. cbv zeta in H.
  destruct H as [q50 [q75 [q90 [q95 [wf [Hrows [_ [_ [_ [_ [Hwf ->]]]]]]]]]]].
  simpl.
  destruct (group_by_workflow_groups (qualifying history) [])
    as [Hne [_ Hall]]; [intros k cs [] |].
  destruct (group_by_workflow_from (qualifying history) []) as [_ [_ Hkeys]].
  change (fold_left _ (qualifying history) [])
    with (group_by_workflow (qualifying history)) in Hne, Hall, Hkeys.
  destruct (workflow_stats_entries _ _ Hwf Hne) as [Hsame Hentries].
  split.
  - intros r Hin Hlabel. rewrite Hsame. apply (Hall r Hin Hlabel).
  - intros k ws Hin.
    destruct (Hentries k ws Hin) as [cs [Hcs Hws]].
    split.
    + assert (Hk : In k (map fst (group_by_workflow (qualifying history)))).
      { apply in_map_iff. exists (k, cs). split; [reflexivity | exact Hcs]. }
      destruct (Hkeys k Hk) as [[] | [_ Hr]]. exact Hr.
    + destruct (workflow_stats_of_figures cs ws (Hne k cs Hcs) Hws)
        as [H1 [_ [H2 H3]]].
      auto.
Qed.

Lemma workflow_table_complete_witness :
  exists s,
    generate_stats [mkRow "d" "i" " ecc-e2e " "opus" 2;
                    mkRow "d" "j" "" "opus" 1] = Ok (Some s)
    /\ In "ecc-e2e" (map fst (by_workflow s)).
Proof.
  destruct (generate_stats_returns
              [mkRow "d" "i" " ecc-e2e " "opus" 2; mkRow "d" "j" "" "opus" 1])
    as [[s |] [H Hnone]].
  - exists s. split; [exact H |].
    apply (proj1 (workflow_table_complete _ s H)
             (mkRow "d" "i" " ecc-e2e " "opus" 2)).
    + vm_compute. left. reflexivity.
    + vm_compute. discriminate.
  - exfalso.
    assert (Hq : qualifying [mkRow "d" "i" " ecc-e2e " "opus" 2;
                             mkRow "d" "j" "" "opus" 1] = [])
      by (apply Hnone; reflexivity).
    vm_compute in Hq. discriminate Hq.
Defined.
